(** * graphql-inspector: the config-driven command pipeline

    A shallow embedding of three source files of the CLI package:

    - [commands/validate.ts]  ([runValidate], [countErrors],
      [countDeprecated]) followed by the config module ([isCommandName],
      the four [is*Command] guards, [transformProject]);
    - the pipeline entry point [run] (setup stages, the concurrent
      fan-out of command tasks, the flush of the buffered renderers);
    - [commands/similar.ts] ([runSimilar], [transformMap], [outputJSON]).

    JavaScript objects whose enumeration order is observable (the command
    collection, the similarity map) are association lists kept in the
    order [for ... in] visits them; objects that are only read field by
    field (a command body) are finite maps. An object the program fills by
    assignment also has the prototype an assignment to [__proto__] gives
    it. *)

From Stdlib Require Import Ascii String NArith Lia.
From stdpp Require Import base option list strings gmap pretty.

Set Warnings "-register-all".

(** ** JavaScript objects as ordered property lists *)

Module JsObject.

(** [OrdinaryOwnPropertyKeys]: the keys that are array indices (canonical
    decimal strings below 2^32 - 1) come first, in ascending numeric
    order, then every other string key in creation order. *)

Definition digit_of (a : ascii) : option N :=
  let n := N_of_ascii a in
  if ((48 <=? n) && (n <=? 57))%N then Some (n - 48)%N else None.

Fixpoint parse_digits (acc : N) (s : string) : option N :=
  match s with
  | EmptyString => Some acc
  | String a s' =>
      match digit_of a with
      | Some d => parse_digits (acc * 10 + d)%N s'
      | None => None
      end
  end.

Definition array_index (s : string) : option N :=
  match s with
  | EmptyString => None
  | String a s' =>
      match digit_of a, s' with
      | Some 0%N, EmptyString => Some 0%N
      | Some 0%N, _ => None
      | _, _ =>
          match parse_digits 0 s with
          | Some n => if (n <? 4294967295)%N then Some n else None
          | None => None
          end
      end
  end.

(** [key_before k k'] : a fresh key [k] is enumerated before the existing
    key [k']. Only an array index can overtake an existing key. *)
Definition key_before (k k' : string) : bool :=
  match array_index k, array_index k' with
  | Some n, Some n' => (n <? n')%N
  | Some _, None => true
  | None, _ => false
  end.

Section Obj.
Context {V : Type}.

(** The own property [k] of an object is defined, or updated, with the
    value [v]: what [CreateDataProperty] does, and what an assignment
    [o[k] = v] does when it reaches no setter. *)
Fixpoint obj_set (k : string) (v : V) (o : list (string * V)) : list (string * V) :=
  match o with
  | [] => [(k, v)]
  | (k', v') :: o' =>
      if decide (k = k') then (k, v) :: o'
      else if key_before k k' then (k, v) :: (k', v') :: o'
      else (k', v') :: obj_set k v o'
  end.

(** [o[k]], [undefined] being [None]. *)
Fixpoint obj_get (k : string) (o : list (string * V)) : option V :=
  match o with
  | [] => None
  | (k', v') :: o' => if decide (k = k') then Some v' else obj_get k o'
  end.

Definition keys (o : list (string * V)) : list string := o.*1.

(** The object literal [{k1: v1, ..., kn: vn}] and every other way of
    building an object property by property. *)
Definition obj_of_list (l : list (string * V)) : list (string * V) :=
  foldl (fun o kv => obj_set kv.1 kv.2 o) [] l.

(** An object that starts as [{}] and is filled by assignments of
    objects: its own properties in enumeration order, and the object an
    assignment to [__proto__] made its prototype, if there was one. *)
Record object := {
  own : list (string * V);
  proto : option V;
}.

Definition empty_object : object := {| own := []; proto := None |}.

(** [o[k] = v] for such an object and a [v] that is an object. The key
    [__proto__] is no own property of [o] and reaches the setter of
    [Object.prototype]: [v] becomes the prototype of [o] and no property
    is added. Every other key defines or updates an own property. *)
Definition obj_assign (k : string) (v : V) (o : object) : object :=
  if bool_decide (k = "__proto__")
  then {| own := own o; proto := Some v |}
  else {| own := obj_set k v (own o); proto := proto o |}.

(** [o[k]] for a key that was assigned: the own property, and under
    [__proto__] the prototype the assignment has set. *)
Definition obj_read (k : string) (o : object) : option V :=
  if bool_decide (k = "__proto__") then proto o else obj_get k (own o).
End Obj.
Arguments object : clear implicits.

(** The order a key list has when it is the enumeration of an object. *)
Fixpoint js_ordered (ks : list string) : bool :=
  match ks with
  | [] => true
  | k :: ks' =>
      forallb (fun k' => negb (bool_decide (k = k')) && negb (key_before k' k)) ks'
      && js_ordered ks'
  end.

End JsObject.

(** ** JavaScript values *)

(** IEEE doubles are kept abstract: the program only tests them for
    truthiness, prints them, scales them to a percentage and compares that
    with integer levels. *)
Class Numbers := {
  number : Type;
  (** [ToBoolean]: false exactly for [+0], [-0] and [NaN]. *)
  number_truthy : number -> bool;
  (** [Number::toString], as a template literal applies it. *)
  number_to_string : number -> string;
  (** [Math.floor(ratio * 100)]. *)
  floor_percent : number -> number;
  (** [percentage >= level] for an integer literal [level]. *)
  number_geb : number -> N -> bool;
  (** [isFinite]: neither [NaN] nor an infinity. *)
  number_is_finite : number -> bool;
  (** The number token at the head of a JSON text: its value and the
      text after it. *)
  parse_json_number : string -> option (number * string);
}.

Module Js.
Section Values.
Context `{Numbers}.

Inductive jsval : Type :=
| VUndefined
| VNull
| VBool (b : bool)
| VNum (n : number)
| VStr (s : string)
| VArr (l : list jsval)
| VObj (o : list (string * jsval)).

(** [ToBoolean]. *)
Definition truthy (v : jsval) : bool :=
  match v with
  | VUndefined | VNull => false
  | VBool b => b
  | VNum n => number_truthy n
  | VStr s => negb (bool_decide (s = ""))
  | VArr _ | VObj _ => true
  end.

(** [a || b]. *)
Definition js_or (a b : jsval) : jsval := if truthy a then a else b.

(** [v === s] for a string literal [s]. *)
Definition is_string (v : jsval) (s : string) : bool :=
  match v with
  | VStr s' => bool_decide (s' = s)
  | _ => false
  end.

(** [typeof v]. *)
Definition typeof (v : jsval) : string :=
  match v with
  | VUndefined => "undefined"
  | VNull => "object"
  | VBool _ => "boolean"
  | VNum _ => "number"
  | VStr _ => "string"
  | VArr _ | VObj _ => "object"
  end.

(** [l.join(sep)] on an array of strings. *)
Fixpoint join (sep : string) (l : list string) : string :=
  match l with
  | [] => ""
  | s :: l' =>
      match l' with
      | [] => s
      | _ => s +:+ sep +:+ join sep l'
      end
  end.

(** [ToString], as a template literal [`${v}`] applies it. *)
Fixpoint to_string (v : jsval) : string :=
  match v with
  | VUndefined => "undefined"
  | VNull => "null"
  | VBool true => "true"
  | VBool false => "false"
  | VNum n => number_to_string n
  | VStr s => s
  | VArr l =>
      join ","
        (map (fun x => match x with
                       | VUndefined | VNull => ""
                       | _ => to_string x
                       end) l)
  | VObj _ => "[object Object]"
  end.

(** A plain object that is only read field by field. *)
Definition field (o : gmap string jsval) (k : string) : jsval :=
  default VUndefined (o !! k).

(** [isNonNullable] and [pick] of the pipeline module. *)
Definition isNonNullable (val : jsval) : bool :=
  match val with
  | VUndefined | VNull => false
  | _ => true
  end.

Definition pick (val defaultValue : jsval) : jsval :=
  if isNonNullable val then val else defaultValue.

(** Induction on values, through the lists of arrays and objects. *)

Section Induction.
Variable P : jsval -> Prop.
Hypothesis Hundefined : P VUndefined.
Hypothesis Hnull : P VNull.
Hypothesis Hbool : forall b, P (VBool b).
Hypothesis Hnum : forall n, P (VNum n).
Hypothesis Hstr : forall s, P (VStr s).
Hypothesis Harr : forall l, Forall P l -> P (VArr l).
Hypothesis Hobj : forall o, Forall (fun kv => P kv.2) o -> P (VObj o).

Fixpoint jsval_nested_ind (v : jsval) : P v :=
  match v with
  | VUndefined => Hundefined
  | VNull => Hnull
  | VBool b => Hbool b
  | VNum n => Hnum n
  | VStr s => Hstr s
  | VArr l =>
      Harr l
        ((fix go (l : list jsval) : Forall P l :=
            match l with
            | [] => List.Forall_nil P
            | x :: l' => List.Forall_cons P x l' (jsval_nested_ind x) (go l')
            end) l)
  | VObj o =>
      Hobj o
        ((fix go (o : list (string * jsval)) : Forall (fun kv => P kv.2) o :=
            match o with
            | [] => List.Forall_nil _
            | (k, x) :: o' =>
                List.Forall_cons (fun kv => P kv.2) (k, x) o' (jsval_nested_ind x) (go o')
            end) o)
  end.
End Induction.
End Values.
End Js.
Export Js.

(** ** Renderers, thrown values and the effects of a command *)

Module Render.

(** A thrown [Error] object. *)
Record exn := JsError { message : string }.

(** What [renderer.error(error.message || error)] receives: the message
    when it is a non-empty string, the error object itself otherwise. *)
Inductive rendered :=
  | RStr (s : string)
  | RErr (e : exn).

(** Modelled from the spec: the renderer module is not among the sources.
    A renderer is a sink of lines; a call [emit(...args)],
    [success(...args)] or [error(arg)] is one entry, and the buffered
    renderer keeps its entries in emission order until [print()] flushes
    them. *)
Inductive entry :=
  | Emit (args : list string)
  | Success (args : list string)
  | Error (arg : rendered).

(** The effects of a command on the outside: a call on the renderer it was
    given and a [writeFileSync]. *)
Inductive effect :=
  | Render (e : entry)
  | WriteFile (path content : string).

(** An [async] function over effects [E]: the effects it performed, then
    the value it resolved with or the error it rejected with. *)
Definition M (E A : Type) : Type := list E * (exn + A).

Definition ret {E A} (a : A) : M E A := ([], inr a).

Definition throw {E A} (e : exn) : M E A := ([], inl e).

Definition bind {E A B} (m : M E A) (k : A -> M E B) : M E B :=
  match m.2 with
  | inl e => (m.1, inl e)
  | inr a => (m.1 ++ (k a).1, (k a).2)
  end.

(** [try { m } catch (error) { h error }]. *)
Definition try_catch {E A} (m : M E A) (h : exn -> M E A) : M E A :=
  match m.2 with
  | inl e => (m.1 ++ (h e).1, (h e).2)
  | inr _ => m
  end.

(** [await] of a collaborator that performs no effect of the kinds above. *)
Definition await {E A} (r : exn + A) : M E A := ([], r).

Definition emit (args : list string) : M effect unit := ([Render (Emit args)], inr tt).
Definition success (args : list string) : M effect unit := ([Render (Success args)], inr tt).
Definition error (arg : rendered) : M effect unit := ([Render (Error arg)], inr tt).
(** [writeFileSync(path, content)], given the answer of the file system:
    the file is written, or the error of the system is thrown and nothing
    is written. *)
Definition writeFileSync (answer : exn + unit) (path content : string)
    : M effect unit :=
  match answer with
  | inl e => throw e
  | inr _ => ([WriteFile path content], inr tt)
  end.

(** [error.message || error]. *)
Definition message_or_error (e : exn) : rendered :=
  if bool_decide (message e = "") then RErr e else RStr (message e).

Definition throws {E A} (m : M E A) : Prop := exists e, m.2 = inl e.
Definition returns {E A} (m : M E A) : Prop := exists a, m.2 = inr a.

(** [l.forEach(f)], stopping at the first throw. *)
Fixpoint for_each {E A} (f : A -> M E unit) (l : list A) : M E unit :=
  match l with
  | [] => ret tt
  | x :: l' => bind (f x) (fun _ => for_each f l')
  end.

(** A log that holds calls on the renderer only: no file is written. *)
Definition renders (log : list effect) : Prop :=
  Forall (fun e => exists line, e = Render line) log.

(** The line feed of a string literal. *)
Definition nl : string := String "010"%char "".

End Render.
Export Render.

(** [x ← m; k] and [m ;; k] sequence two steps of an [async] body. *)
Global Instance M_ret {E} : MRet (M E) := @ret E.
Global Instance M_bind {E} : MBind (M E) := fun A B k m => bind m k.

(** ** The JavaScript runtime, as far as the sources depend on it *)

Class Runtime `{Numbers} := {
  (** The order in which [for ... in] visits the fields of an object that
      a finite map stands for; the map forgets the order the fields were
      written in. *)
  fields_in_order : gmap string jsval -> list string;
  fields_in_order_elem :
    forall (b : gmap string jsval) (k : string),
      k ∈ fields_in_order b <-> is_Some (b !! k);
  fields_in_order_NoDup : forall b : gmap string jsval, NoDup (fields_in_order b);
  (** The [TypeError] for a call of [callee] when that is no function,
      and the one for reading [property] of [null] or [undefined]; the
      messages differ between versions of the engine. *)
  not_a_function : string -> exn;
  cannot_read_property : string -> jsval -> exn;
  (** [fs.writeFileSync(path, content)]: it returns, or throws the error
      of the system. *)
  fs_writeFileSync : string -> string -> exn + unit;
}.

(** ** The graphql library, as far as the pipeline touches it *)

Class Graphql := {
  GraphQLSchema : Type;
  DocumentNode : Type;
  GraphQLError : Type;
  (** [print] of a parsed document. *)
  print : DocumentNode -> string;
}.

(** ** The config module: command names and normalization *)

Module Config.
Section Config.
Context `{Numbers} `{Graphql}.

(** A command body, as the extension block of the config file gives it. *)
Abbreviation body := (gmap string jsval).

Record InspectorExtensionConfigRaw := {
  raw_commands : list (string * body);
}.

(** A loaded document of graphql-config, [{document, location}]. *)
Record Source := {
  document : DocumentNode;
  location : option string;
}.

(** The methods and fields of graphql-config's project and config
    objects that the pipeline uses. A method that may reject is a sum. *)
Record GraphQLProjectConfig := {
  project_schema : jsval;
  project_documents : jsval;
  hasExtension : string -> bool;
  extension : string -> InspectorExtensionConfigRaw;
  getSchema : exn + GraphQLSchema;
  getDocuments : exn + list Source;
  loadSchema : jsval -> exn + GraphQLSchema;
  loadDocuments : jsval -> exn + list Source;
}.

Record GraphQLConfig := {
  filepath : string;
  getDefault : exn + GraphQLProjectConfig;
  getProject : jsval -> exn + GraphQLProjectConfig;
}.

Record InspectorExtensionConfig := {
  commands : JsObject.object body;
}.

Record InspectorConfig := {
  schema : jsval;
  documents : jsval;
  inspector : InspectorExtensionConfig;
}.

Definition supportedCommands : list string :=
  ["diff"; "coverage"; "similar"; "validate"].

Definition isDiffCommand (command : body) : bool :=
  is_string (field command "command") "diff".

Definition isCoverageCommand (command : body) : bool :=
  is_string (field command "command") "coverage".

Definition isSimilarCommand (command : body) : bool :=
  is_string (field command "command") "similar".

Definition isValidateCommand (command : body) : bool :=
  is_string (field command "command") "validate".

Definition isCommandName (name : string) : bool :=
  bool_decide (name ∈ supportedCommands).

(** [{command: name, ...config}]: the tag is written first and the
    fields of [config] are then copied over it. *)
Definition with_command (name : string) (config : body) : body :=
  config ∪ {[ "command" := VStr name ]}.

(** The loop of [transformProject]: [commands] starts as [{}] and every
    entry of [inspector.commands] is assigned to it under its own name. *)
Definition transform_commands (raw : list (string * body)) : JsObject.object body :=
  foldl
    (fun commands entry =>
       let name := entry.1 in
       let config := entry.2 in
       if isCommandName name
       then JsObject.obj_assign name (with_command name config) commands
       else JsObject.obj_assign name config commands)
    JsObject.empty_object raw.

(** What the loop assigns under [name] for the body [config]. *)
Definition normalized (name : string) (config : body) : body :=
  if isCommandName name then with_command name config else config.

Definition transformProject (project : GraphQLProjectConfig) : InspectorConfig :=
  let inspector := extension project "inspector" in
  {| schema := project_schema project;
     documents := project_documents project;
     inspector := {| commands := transform_commands (raw_commands inspector) |} |}.
End Config.
End Config.
Export Config.

(** ** commands/validate.ts *)

Module Validate.
Section Validate.
Context `{Numbers} `{Graphql}.

(** graphql's [Source], built by [new Source(body, name)]. *)
Record GSource := {
  gs_body : string;
  gs_name : option string;
}.

(** [InvalidDocument] of the core package. *)
Record InvalidDocument := {
  source : GSource;
  errors : list GraphQLError;
  deprecated : list GraphQLError;
}.

(** The options [runValidate] receives. An optional field that is left
    out reads as [VUndefined]. *)
Record ValidateCliOptions := {
  opt_deprecated : jsval;
  opt_noStrictFragments : jsval;
  opt_apollo : jsval;
  opt_keepClientFields : jsval;
  opt_maxDepth : jsval;
}.

(** The options the document validator of the core package receives. *)
Record ValidateOptions := {
  strictFragments : bool;
  maxDepth : jsval;
  apollo : jsval;
  keepClientFields : jsval;
}.

(** The document validator of the core package and the two line
    renderers of the render module. *)
Class ValidateLib := {
  validateDocuments :
    GraphQLSchema -> list GSource -> ValidateOptions -> list InvalidDocument;
  renderInvalidDocument : InvalidDocument -> list string;
  renderDeprecatedUsageInDocument : InvalidDocument -> jsval -> list string;
}.
Context `{ValidateLib}.

Definition nonempty {A} (l : list A) : bool :=
  match l with [] => false | _ => true end.

Definition countErrors (invalidDocuments : list InvalidDocument) : nat :=
  if nonempty invalidDocuments
  then length (filter (fun doc => nonempty (errors doc) = true) invalidDocuments)
  else 0.

Definition countDeprecated (invalidDocuments : list InvalidDocument) : nat :=
  if nonempty invalidDocuments
  then length (filter (fun doc => nonempty (deprecated doc) = true) invalidDocuments)
  else 0.

(** The second argument of the call to [validateDocuments]. *)
Definition validator_options (options : ValidateCliOptions) : ValidateOptions :=
  {| strictFragments := negb (truthy (opt_noStrictFragments options));
     maxDepth := js_or (opt_maxDepth options) VUndefined;
     apollo := js_or (opt_apollo options) (VBool false);
     keepClientFields := js_or (opt_keepClientFields options) (VBool false) |}.

Definition plural (n : nat) : string := if (1 <? n)%nat then "s" else "".

(** [runValidate] from the line after the call to the validator. *)
Definition report (invalidDocuments : list InvalidDocument)
    (options : ValidateCliOptions) : M effect unit :=
  if negb (nonempty invalidDocuments) then success ["All documents are valid"]
  else
    let errorsCount := countErrors invalidDocuments in
    let deprecated_ := countDeprecated invalidDocuments in
    (if (0 <? errorsCount)%nat then
       emit [nl +:+ "Detected " +:+ pretty errorsCount +:+ " invalid document"
               +:+ plural errorsCount +:+ ":" +:+ nl] ;;
       for_each
         (fun doc =>
            if nonempty (errors doc) then emit (renderInvalidDocument doc)
            else ret tt)
         invalidDocuments
     else if negb (truthy (opt_deprecated options))
     then success ["All documents are valid"]
     else ret tt) ;;
    (if (0 <? deprecated_)%nat then
       emit [nl +:+ "Detected " +:+ pretty deprecated_ +:+ " document"
               +:+ plural deprecated_ +:+ " with deprecated fields:" +:+ nl] ;;
       for_each
         (fun doc =>
            if nonempty (deprecated doc)
            then emit (renderDeprecatedUsageInDocument doc (opt_deprecated options))
            else ret tt)
         invalidDocuments
     else ret tt) ;;
    if (0 <? errorsCount)%nat
       || ((0 <? deprecated_)%nat && truthy (opt_deprecated options))
    then throw (JsError "Some documents are invalid")
    else ret tt.

Definition runValidate (documents : list GSource) (schema : GraphQLSchema)
    (options : ValidateCliOptions) : M effect unit :=
  let invalidDocuments :=
    validateDocuments schema documents (validator_options options) in
  report invalidDocuments options.
End Validate.
End Validate.
Export Validate.

(** ** [JSON.stringify] and [JSON.parse] *)

Module Json.
Section Json.
Context `{Numbers}.

Definition quote_char : ascii := "034"%char.
Definition backslash : ascii := "092"%char.

Definition hex_digit (n : N) : ascii :=
  if (n <? 10)%N then ascii_of_N (48 + n) else ascii_of_N (87 + n).

Definition hex_value (a : ascii) : option N :=
  let n := N_of_ascii a in
  if ((48 <=? n) && (n <=? 57))%N then Some (n - 48)%N
  else if ((97 <=? n) && (n <=? 102))%N then Some (n - 87)%N
  else if ((65 <=? n) && (n <=? 70))%N then Some (n - 55)%N
  else None.

(** One code unit inside [QuoteJSONString]. *)
Definition escape_char (a : ascii) : string :=
  let n := N_of_ascii a in
  if (n =? 34)%N then String backslash (String quote_char "")
  else if (n =? 92)%N then String backslash (String backslash "")
  else if (n =? 8)%N then String backslash "b"
  else if (n =? 12)%N then String backslash "f"
  else if (n =? 10)%N then String backslash "n"
  else if (n =? 13)%N then String backslash "r"
  else if (n =? 9)%N then String backslash "t"
  else if (n <? 32)%N then
    String backslash
      (String "u" (String "0" (String "0"
         (String (hex_digit (n / 16)) (String (hex_digit (n mod 16)) "")))))
  else String a "".

Fixpoint escape (s : string) : string :=
  match s with
  | EmptyString => ""
  | String a s' => escape_char a +:+ escape s'
  end.

Definition quote (s : string) : string :=
  String quote_char (escape s +:+ String quote_char "").

(** [SerializeJSONProperty]: [None] is the [undefined] that a property
    holding [undefined] serializes to. *)
Fixpoint serialize (v : jsval) : option string :=
  match v with
  | VUndefined => None
  | VNull => Some "null"
  | VBool true => Some "true"
  | VBool false => Some "false"
  | VNum n => Some (if number_is_finite n then number_to_string n else "null")
  | VStr s => Some (quote s)
  | VArr l =>
      Some ("[" +:+ join "," (map (fun x => default "null" (serialize x)) l) +:+ "]")
  | VObj o =>
      Some ("{" +:+
            join ","
              (omap (fun kv => (fun t => quote kv.1 +:+ ":" +:+ t) <$> serialize kv.2) o)
            +:+ "}")
  end.

Definition JSON_stringify (v : jsval) : option string := serialize v.

Definition is_ws (a : ascii) : bool :=
  let n := N_of_ascii a in
  ((n =? 32) || (n =? 9) || (n =? 10) || (n =? 13))%N.

Fixpoint skip_ws (s : string) : string :=
  match s with
  | String a s' => if is_ws a then skip_ws s' else s
  | EmptyString => s
  end.

(** The characters of a string literal after its opening quote, up to
    and including the closing one. Code units are bytes here, so an
    escape [\uXXXX] is read when it denotes one. *)
Fixpoint parse_chars (s : string) : option (string * string) :=
  match s with
  | EmptyString => None
  | String a s1 =>
      if (N_of_ascii a =? 34)%N then Some ("", s1)
      else if (N_of_ascii a =? 92)%N then
        match s1 with
        | String b s2 =>
            let simple (c : ascii) :=
              match parse_chars s2 with
              | Some (r, rest) => Some (String c r, rest)
              | None => None
              end in
            if (N_of_ascii b =? 34)%N then simple quote_char
            else if (N_of_ascii b =? 92)%N then simple backslash
            else if (N_of_ascii b =? 47)%N then simple "/"%char
            else if (N_of_ascii b =? 98)%N then simple "008"%char
            else if (N_of_ascii b =? 102)%N then simple "012"%char
            else if (N_of_ascii b =? 110)%N then simple "010"%char
            else if (N_of_ascii b =? 114)%N then simple "013"%char
            else if (N_of_ascii b =? 116)%N then simple "009"%char
            else if (N_of_ascii b =? 117)%N then
              match s2 with
              | String h1 (String h2 (String h3 (String h4 s3))) =>
                  match hex_value h1, hex_value h2, hex_value h3, hex_value h4 with
                  | Some 0%N, Some 0%N, Some d3, Some d4 =>
                      match parse_chars s3 with
                      | Some (r, rest) => Some (String (ascii_of_N (16 * d3 + d4)) r, rest)
                      | None => None
                      end
                  | _, _, _, _ => None
                  end
              | _ => None
              end
            else None
        | EmptyString => None
        end
      else if (N_of_ascii a <? 32)%N then None
      else
        match parse_chars s1 with
        | Some (r, rest) => Some (String a r, rest)
        | None => None
        end
  end.

(** [text] starts with the keyword [kw]: the rest of the text. *)
Fixpoint expect (kw text : string) : option string :=
  match kw, text with
  | EmptyString, _ => Some text
  | String a kw', String b text' => if bool_decide (a = b) then expect kw' text' else None
  | String _ _, EmptyString => None
  end.

(** The JSON grammar by recursive descent; [fuel] bounds the nesting of
    calls, and the length of the text is always enough. *)
Fixpoint parse_value (fuel : nat) (s : string) : option (jsval * string) :=
  match fuel with
  | O => None
  | S f =>
      match skip_ws s with
      | EmptyString => None
      | String a r as s' =>
          if (N_of_ascii a =? 110)%N then (fun rest => (VNull, rest)) <$> expect "null" s'
          else if (N_of_ascii a =? 116)%N then (fun rest => (VBool true, rest)) <$> expect "true" s'
          else if (N_of_ascii a =? 102)%N then (fun rest => (VBool false, rest)) <$> expect "false" s'
          else if (N_of_ascii a =? 34)%N then
            (fun kr => (VStr kr.1, kr.2)) <$> parse_chars r
          else if (N_of_ascii a =? 91)%N then
            match skip_ws r with
            | String b r' =>
                if (N_of_ascii b =? 93)%N then Some (VArr [], r')
                else (fun lr => (VArr lr.1, lr.2)) <$> parse_elements f r
            | EmptyString => None
            end
          else if (N_of_ascii a =? 123)%N then
            match skip_ws r with
            | String b r' =>
                if (N_of_ascii b =? 125)%N then Some (VObj [], r')
                else (fun mr => (VObj (JsObject.obj_of_list mr.1), mr.2)) <$> parse_members f r
            | EmptyString => None
            end
          else (fun nr => (VNum nr.1, nr.2)) <$> parse_json_number s'
      end
  end
with parse_elements (fuel : nat) (s : string) : option (list jsval * string) :=
  match fuel with
  | O => None
  | S f =>
      match parse_value f s with
      | Some (v, r1) =>
          match skip_ws r1 with
          | String b r2 =>
              if (N_of_ascii b =? 44)%N then
                (fun lr => (v :: lr.1, lr.2)) <$> parse_elements f r2
              else if (N_of_ascii b =? 93)%N then Some ([v], r2)
              else None
          | EmptyString => None
          end
      | None => None
      end
  end
with parse_members (fuel : nat) (s : string) : option (list (string * jsval) * string) :=
  match fuel with
  | O => None
  | S f =>
      match skip_ws s with
      | String q r0 =>
          if (N_of_ascii q =? 34)%N then
            match parse_chars r0 with
            | Some (k, r1) =>
                match skip_ws r1 with
                | String c r2 =>
                    if (N_of_ascii c =? 58)%N then
                      match parse_value f r2 with
                      | Some (v, r3) =>
                          match skip_ws r3 with
                          | String b r4 =>
                              if (N_of_ascii b =? 44)%N then
                                (fun mr => ((k, v) :: mr.1, mr.2)) <$> parse_members f r4
                              else if (N_of_ascii b =? 125)%N then Some ([(k, v)], r4)
                              else None
                          | EmptyString => None
                          end
                      | None => None
                      end
                    else None
                | EmptyString => None
                end
            | None => None
            end
          else None
      | EmptyString => None
      end
  end.

(** [JSON.parse(text)]; [None] is the [SyntaxError]. *)
Definition JSON_parse (text : string) : option jsval :=
  match parse_value (S (String.length text)) text with
  | Some (v, rest) =>
      match skip_ws rest with
      | EmptyString => Some v
      | String _ _ => None
      end
  | None => None
  end.
(** *** The values [JSON.parse] gives back unchanged *)

Definition number_start (a : ascii) : bool :=
  let n := N_of_ascii a in
  ((n =? 45) || ((48 <=? n) && (n <=? 57)))%N.

(** What may follow a value inside a text: nothing, a comma, or the end
    of the enclosing array or object. *)
Definition delimited (rest : string) : bool :=
  match rest with
  | EmptyString => true
  | String a _ =>
      let n := N_of_ascii a in
      ((n =? 44) || (n =? 93) || (n =? 125))%N
  end.

(** A number that JSON carries: it is finite, it prints as a token that
    starts with a digit or a minus sign, and the token reads back as the
    same number. (Of the finite doubles only [-0] is not one: it prints as
    [0].) *)
Definition json_number (n : number) : Prop :=
  number_is_finite n = true /\
  (exists a s, number_to_string n = String a s /\ number_start a = true) /\
  forall rest,
    delimited rest = true ->
    parse_json_number (number_to_string n +:+ rest) = Some (n, rest).

(** A value that JSON carries: no [undefined] in it, numbers as above, and
    objects whose properties stand in enumeration order, as those of every
    object do. *)
Fixpoint json_safe (v : jsval) : Prop :=
  match v with
  | VUndefined => False
  | VNull | VBool _ | VStr _ => True
  | VNum n => json_number n
  | VArr l =>
      (fix all (l : list jsval) : Prop :=
         match l with
         | [] => True
         | x :: l' => json_safe x /\ all l'
         end) l
  | VObj o =>
      JsObject.js_ordered (JsObject.keys o) = true /\
      (fix all (o : list (string * jsval)) : Prop :=
         match o with
         | [] => True
         | kv :: o' => json_safe kv.2 /\ all o'
         end) o
  end.

(** The fuel that is enough to read a value back. *)
Fixpoint weight (v : jsval) : nat :=
  match v with
  | VArr l =>
      S ((fix sum (l : list jsval) : nat :=
            match l with
            | [] => 0
            | x :: l' => S (weight x) + sum l'
            end) l)
  | VObj o =>
      S ((fix sum (o : list (string * jsval)) : nat :=
            match o with
            | [] => 0
            | kv :: o' => S (weight kv.2) + sum o'
            end) o)
  | _ => 1
  end.
(** The first character of a printed value: no white space, and not the
    end of an array or an object. *)
Definition value_start (a : ascii) : bool :=
  let n := N_of_ascii a in
  negb (is_ws a) && negb (n =? 93)%N && negb (n =? 125)%N.

Definition sum_weight (l : list jsval) : nat :=
  foldr (fun x n => S (weight x) + n) 0 l.

(** [v] prints as a text that reads back as [v], whatever follows. *)
Definition reads_back (v : jsval) : Prop :=
  exists text,
    serialize v = Some text /\
    (exists a s, text = String a s /\ value_start a = true) /\
    weight v <= String.length text /\
    forall fuel rest,
      weight v <= fuel -> delimited rest = true ->
      parse_value fuel (text +:+ rest) = Some (v, rest).

(** One member of a printed object. *)
Definition member_text (kv : string * jsval) : string :=
  quote kv.1 +:+ ":" +:+ default "null" (serialize kv.2).
End Json.
End Json.
Export Json.

(** The finite doubles as JSON texts. [Number::toString] prints a finite
    number as the shortest decimal that reads back as that number (ECMA-262,
    the note on Number::toString), and a decimal is a JSON number token;
    the one exception is [-0], which prints as [0]. *)
Class JsonNumbers `{Numbers} := {
  (** [Object.is(n, -0)] *)
  number_is_negative_zero : number -> bool;
  finite_reads_back :
    forall n : number,
      number_is_finite n = true -> number_is_negative_zero n = false ->
      json_number n;
}.

(** ** commands/similar.ts *)

(** chalk, figures and indent-string. *)
Class Terminal := {
  chalk_bold : string -> string;
  chalk_grey : string -> string;
  chalk_gray : string -> string;
  chalk_bgBlue_white : string -> string;
  figures_bullet : string;
  indent : string -> nat -> string;
}.

Module Similar.
Section Similar.
Context `{Numbers} `{Graphql} `{Terminal} `{!Runtime}.

(** [Rating], [BestMatch] and [SimilarMap] of the core package. *)
Record Target := {
  typeId : string;
  value : string;
}.

Record Rating := {
  target : Target;
  rating : number;
}.

Record BestMatch := {
  ratings : list Rating;
  bestMatch : Rating;
}.

Record SimilarRecord := {
  typename : string;
  record_rating : number;
}.

(** The similarity search of the core package, which returns the map or
    throws (for a type name the schema does not have, for one),
    [schema.getType] followed by [getTypePrefix], [ensureAbsolute] of the
    fs helpers, [extname] of the path module and the is-valid-path
    package. *)
Class SimilarLib := {
  findSimilar : GraphQLSchema -> jsval -> jsval -> exn + list (string * BestMatch);
  getTypePrefix : GraphQLSchema -> string -> string;
  ensureAbsolute : string -> string;
  extname : string -> string;
  isValidPath : string -> bool;
}.
Context `{SimilarLib}.

Definition trasformResult (record : Rating) : SimilarRecord :=
  {| typename := typeId (target record); record_rating := rating record |}.

(** [similarMap.hasOwnProperty(typeName)] for a key [typeName] the
    enumeration of [similarMap] has given. [hasOwnProperty] is looked up on
    the map: it is the method of [Object.prototype], which answers [true],
    unless the map has a type of that name, whose entry is then what the
    call is applied to. *)
Definition has_own_property (similarMap : list (string * BestMatch))
    (typeName : string) : exn + bool :=
  if bool_decide ("hasOwnProperty" ∈ JsObject.keys similarMap)
  then inl (not_a_function "similarMap.hasOwnProperty")
  else inr (bool_decide (typeName ∈ JsObject.keys similarMap)).

(** [results[typename]] is created empty, then receives the best match
    and the other ratings; both guards on [result] hold for a value of the
    declared type, an object and an array being truthy. *)
Definition transformMap (similarMap : list (string * BestMatch))
    : exn + JsObject.object (list SimilarRecord) :=
  foldl
    (fun results entry =>
       let typename := entry.1 in
       let result := entry.2 in
       match results with
       | inl e => inl e
       | inr results =>
           match has_own_property similarMap typename with
           | inl e => inl e
           | inr true =>
               inr (JsObject.obj_assign typename
                      ([] ++ [trasformResult (bestMatch result)]
                          ++ map trasformResult (ratings result))
                      results)
           | inr false => inr results
           end
       end)
    (inr JsObject.empty_object) similarMap.

(** The value [results] is as a JavaScript object. *)
Definition js_of_record (r : SimilarRecord) : jsval :=
  VObj (JsObject.obj_of_list
          [("typename", VStr (typename r)); ("rating", VNum (record_rating r))]).

Definition js_of_results (results : list (string * list SimilarRecord)) : jsval :=
  VObj (map (fun kv => (kv.1, VArr (map js_of_record kv.2))) results).

(** [JSON.stringify(results)] prints the own properties of [results]. *)
Definition outputJSON (results : JsObject.object (list SimilarRecord))
    : option string :=
  JSON_stringify (js_of_results (JsObject.own results)).

Definition formatRating (ratio : number) : number := floor_percent ratio.

Definition printScale (ratio : number) : string :=
  let percentage := floor_percent ratio in
  let levels := [0; 30; 50; 70; 90]%N in
  join ""
    (map (fun enabled : bool =>
            if enabled then figures_bullet else chalk_gray figures_bullet)
       (map (fun level => number_geb percentage level) levels)).

Definition printResult (name : string) (rating : number) : string :=
  let percentage :=
    chalk_grey ("(" +:+ number_to_string (formatRating rating) +:+ "%)") in
  indent (printScale rating +:+ " " +:+ percentage +:+ " " +:+ name) 0.

(** [s.replace('.', '')]: the first dot is dropped. *)
Fixpoint remove_first_dot (s : string) : string :=
  match s with
  | EmptyString => ""
  | String a s' => if bool_decide (a = "."%char) then s' else String a (remove_first_dot s')
  end.

(** [toLocaleLowerCase] on the letters A to Z. *)
Definition lower_char (a : ascii) : ascii :=
  let n := N_of_ascii a in
  if ((65 <=? n) && (n <=? 90))%N then ascii_of_N (n + 32) else a.

Fixpoint toLocaleLowerCase (s : string) : string :=
  match s with
  | EmptyString => ""
  | String a s' => String (lower_char a) (toLocaleLowerCase s')
  end.

(** The extension the write path is judged by. *)
Definition write_extension (absPath : string) : string :=
  toLocaleLowerCase (remove_first_dot (extname absPath)).

(** The loop of [runSimilar] over the similarity map. *)
Definition print_matches (schema : GraphQLSchema)
    (similarMap : list (string * BestMatch)) : M effect unit :=
  for_each
    (fun entry =>
       let typeName := entry.1 in
       guard ← await (has_own_property similarMap typeName);
       if (guard : bool) then
         let matches := entry.2 in
         let prefix := getTypePrefix schema typeName in
         let sourceType := chalk_bold typeName in
         let name := typeId (target (bestMatch matches)) in
         emit [] ;;
         emit [prefix +:+ " " +:+ sourceType] ;;
         emit [printResult name (rating (bestMatch matches))] ;;
         for_each
           (fun match_ => emit [printResult (typeId (target match_)) (rating match_)])
           (ratings matches)
       else ret tt)
    similarMap.

Definition runSimilar (schema : GraphQLSchema) (name threshold write : jsval)
    : M effect unit :=
  let shouldWrite := negb (bool_decide (typeof write = "undefined")) in
  similarMap ← await (findSimilar schema name threshold);
  if bool_decide (length (JsObject.keys similarMap) = 0)
  then emit [nl +:+ "No similar types found"]
  else
    print_matches schema similarMap ;;
    (if shouldWrite then
       match write with
       | VStr path =>
           if negb (isValidPath path)
           then throw (JsError ("--write is not valid file path: " +:+ path))
           else
             let absPath := ensureAbsolute path in
             let ext := write_extension absPath in
             results ← await (transformMap similarMap);
             let output :=
               if bool_decide (ext = "json") then outputJSON results else None in
             match output with
             | Some text =>
                 if bool_decide (text = "")
                 then throw (JsError ("Extension " +:+ ext +:+ " is not supported"))
                 else
                   writeFileSync (fs_writeFileSync absPath text) absPath text ;;
                   success ["Available at"; absPath; nl]
             | None => throw (JsError ("Extension " +:+ ext +:+ " is not supported"))
             end
       | _ => throw (JsError ("--write is not valid file path: " +:+ to_string write))
       end
     else ret tt) ;;
    emit [].
End Similar.
End Similar.
Export Similar.

(** ** The pipeline entry point *)

Module Pipeline.
Section Pipeline.
Context `{Numbers} `{Graphql} `{Terminal} `{!Runtime}.
Context `{!ValidateLib} `{!SimilarLib}.

(** [loadConfig] of graphql-config, and the diff and coverage commands,
    whose modules are not among the sources: each is given the renderer
    of its task, so its effects are calls on that renderer and file
    writes, and it resolves or rejects. *)
Class PipelineLib := {
  loadConfig : jsval -> exn + GraphQLConfig;
  runDiff : GraphQLSchema -> GraphQLSchema -> jsval -> M effect unit;
  runCoverage : GraphQLSchema -> list GSource -> jsval -> jsval -> M effect unit;
}.
Context `{PipelineLib}.

(** [findAndLoadConfig] of the config module. *)
Definition findAndLoadConfig (filepath : jsval) : exn + GraphQLConfig :=
  loadConfig filepath.

(** The options of [run] that the stages read. *)
Record Options := {
  options_config : jsval;
  options_project : jsval;
}.

(** The Listr context once the setup stages have run. *)
Record Ctx := {
  ctx_config : GraphQLConfig;
  ctx_project : GraphQLProjectConfig;
  ctx_schema : GraphQLSchema;
  ctx_documents : option (list Source);
}.

(** *** The five setup stages *)

Definition loading_config (options : Options) : exn + GraphQLConfig :=
  findAndLoadConfig (options_config options).

Definition picking_project (options : Options) (config : GraphQLConfig)
    : exn + GraphQLProjectConfig :=
  if truthy (options_project options)
  then getDefault config
  else getProject config (options_project options).

Definition checking_for_extension (config : GraphQLConfig)
    (project : GraphQLProjectConfig) : exn + unit :=
  if negb (hasExtension project "inspector")
  then inl (JsError ("You GraphQL Config has no 'inspector' extension: "
                       +:+ filepath config))
  else inr tt.

Definition loading_schema (project : GraphQLProjectConfig) : exn + GraphQLSchema :=
  getSchema project.

(** Skipped when [!ctx.project.documents]. *)
Definition loading_documents (project : GraphQLProjectConfig)
    : exn + option (list Source) :=
  if negb (truthy (project_documents project)) then inr None
  else match getDocuments project with
       | inl e => inl e
       | inr docs => inr (Some docs)
       end.

(** The stages in order; [exitOnError] stops at the first rejection. *)
Definition setup (options : Options) : exn + Ctx :=
  match loading_config options with
  | inl e => inl e
  | inr config =>
      match picking_project options config with
      | inl e => inl e
      | inr project =>
          match checking_for_extension config project with
          | inl e => inl e
          | inr _ =>
              match loading_schema project with
              | inl e => inl e
              | inr schema =>
                  match loading_documents project with
                  | inl e => inl e
                  | inr documents =>
                      inr {| ctx_config := config;
                             ctx_project := project;
                             ctx_schema := schema;
                             ctx_documents := documents |}
                  end
              end
          end
      end
  end.

(** *** One command task *)

(** What a task does to the run: an effect of its command, addressed to
    the task's own renderer, or the assignment [ctx.ok = false]. *)
Inductive action :=
| Effect (e : effect)
| SetOkFalse.

Definition lift {A} (m : M effect A) : M action A := (Effect <$> m.1, m.2).

Definition set_ok_false : M action unit := ([SetOkFalse], inr tt).

(** The entries a sequence of actions leaves in the renderer of its task,
    and whether it leaves [ctx.ok] alone. *)
Definition buffer_of (acts : list action) : list entry :=
  omap (fun a => match a with Effect (Render e) => Some e | _ => None end) acts.

Definition clean (acts : list action) : bool :=
  forallb (fun a => match a with SetOkFalse => false | _ => true end) acts.

(** [new GSource(print(source.document), source.location)]. *)
Definition to_source (source : Source) : GSource :=
  {| gs_body := print (document source); gs_name := location source |}.

Definition missing_documents (ctx : Ctx) (command : gmap string jsval) : bool :=
  negb (bool_decide (is_Some (ctx_documents ctx)))
  && negb (truthy (field command "documents")).

(** [ctx.documents || (await ctx.project.loadDocuments(command.documents!))]. *)
Definition resolve_documents (ctx : Ctx) (command : gmap string jsval)
    : M action (list Source) :=
  match ctx_documents ctx with
  | Some documents => ret documents
  | None => await (loadDocuments (ctx_project ctx) (field command "documents"))
  end.

(** The options object the validate branch builds. *)
Definition validate_task_options (command : gmap string jsval) : ValidateCliOptions :=
  {| opt_deprecated := pick (field command "deprecated") (VBool false);
     opt_noStrictFragments := pick (field command "noStrictFragments") (VBool false);
     opt_apollo := pick (field command "apollo") (VBool false);
     opt_keepClientFields := VUndefined;
     opt_maxDepth := VUndefined |}.

(** The line a task opens its buffer with. *)
Definition banner (taskName : string) : entry :=
  Emit [nl +:+ chalk_bgBlue_white " command "; chalk_bold taskName].

(** The [try] block of a task. *)
Definition task_body (ctx : Ctx) (taskName : string) (command : gmap string jsval)
    : M action unit :=
  lift (emit [nl +:+ chalk_bgBlue_white " command "; chalk_bold taskName]) ;;
  let schema := ctx_schema ctx in
  if isDiffCommand command then
    oldSchema ← await (loadSchema (ctx_project ctx) (field command "schema"));
    lift (runDiff schema oldSchema (field command "rule"))
  else if isCoverageCommand command then
    (if missing_documents ctx command
     then throw (JsError "Documents are missing") else ret tt) ;;
    documents ← resolve_documents ctx command;
    lift (runCoverage schema (map to_source documents)
            (field command "write")
            (pick (field command "silent") (VBool false)))
  else if isValidateCommand command then
    (if missing_documents ctx command
     then throw (JsError "Documents are missing") else ret tt) ;;
    documents ← resolve_documents ctx command;
    lift (runValidate (map to_source documents) schema
            (validate_task_options command))
  else if isSimilarCommand command then
    lift (runSimilar schema (field command "name")
            (field command "threshold") (field command "write"))
  else
    throw (JsError ("Command " +:+ to_string (field command "command")
                      +:+ " not supported")).

(** The task: its body inside [try], and the [catch] block. *)
Definition task (ctx : Ctx) (taskName : string) (command : gmap string jsval)
    : M action unit :=
  try_catch (task_body ctx taskName command)
    (fun error =>
       set_ok_false ;;
       lift (Render.error (message_or_error error))).

(** *** The fan-out stage *)

(** One task while it runs: what it still has to do, and what its promise
    settles with once that is done. *)
Record Running := {
  pending : list action;
  outcome : exn + unit;
}.

(** The part of the context the tasks write, and the files written. *)
Record Fanout := {
  ok : bool;
  renderers : list (list entry);
  files : list (string * string);
  tasks : list Running;
}.

(** The task of one entry, before it has run. A task reads the context,
    of which the tasks write the flag alone, and its collaborators are
    functions of what they are given: what it will do, and how its promise
    will settle, is fixed when it is created; the interleaving decides
    when. *)
Definition running (ctx : Ctx) (entry : string * gmap string jsval) : Running :=
  {| pending := (task ctx entry.1 entry.2).1;
     outcome := (task ctx entry.1 entry.2).2 |}.

(** The buffer each entry of the collection ends up with. *)
Definition buffers (ctx : Ctx) (commands : list (string * gmap string jsval))
    : list (list entry) :=
  (fun entry => buffer_of (task ctx entry.1 entry.2).1) <$> commands.

(** The loop over [config.inspector.commands]: a fresh buffered renderer
    is pushed and a task is created for each entry. *)
Definition create_tasks (ctx : Ctx) (commands : list (string * gmap string jsval))
    : Fanout :=
  foldl
    (fun st entry =>
       {| ok := ok st;
          renderers := renderers st ++ [[]];
          files := files st;
          tasks := tasks st ++ [running ctx entry] |})
    {| ok := true; renderers := []; files := []; tasks := [] |}
    commands.

Definition perform (i : nat) (a : action) (st : Fanout) : Fanout :=
  match a with
  | Effect (Render e) =>
      {| ok := ok st;
         renderers := alter (fun buffer => buffer ++ [e]) i (renderers st);
         files := files st;
         tasks := tasks st |}
  | Effect (WriteFile path content) =>
      {| ok := ok st;
         renderers := renderers st;
         files := files st ++ [(path, content)];
         tasks := tasks st |}
  | SetOkFalse =>
      {| ok := false;
         renderers := renderers st;
         files := files st;
         tasks := tasks st |}
  end.

(** Task [i] runs up to its next suspension: its next action happens. A
    settled task, or an index that names none, leaves the run as it is. *)
Definition advance (i : nat) (st : Fanout) : Fanout :=
  match tasks st !! i with
  | Some {| pending := a :: rest; outcome := o |} =>
      perform i a
        {| ok := ok st;
           renderers := renderers st;
           files := files st;
           tasks := <[i := {| pending := rest; outcome := o |}]> (tasks st) |}
  | _ => st
  end.

(** What the run will have shown once every task has settled: for each
    task the buffer so far followed by what is still to come, and the flag
    so far lowered by what is still to come. No step changes either. *)
Definition final_buffers (st : Fanout) : list (list entry) :=
  zip_with (fun buffer t => buffer ++ buffer_of (pending t)) (renderers st) (tasks st).

Definition final_ok (st : Fanout) : bool :=
  ok st && forallb id ((fun t => clean (pending t)) <$> tasks st).

(** The part of the run that no interleaving can change. *)
Record Fate := {
  fate_buffers : list (list entry);
  fate_ok : bool;
  fate_outcomes : list (exn + unit);
  fate_tasks : nat;
  fate_renderers : nat;
}.

Definition fate (st : Fanout) : Fate :=
  {| fate_buffers := final_buffers st;
     fate_ok := final_ok st;
     fate_outcomes := outcome <$> tasks st;
     fate_tasks := length (tasks st);
     fate_renderers := length (renderers st) |}.

(** The interleavings the event loop may choose. *)
Inductive step : Fanout -> Fanout -> Prop :=
| step_advance (i : nat) (a : action) (rest : list action) (o : exn + unit)
    (st : Fanout) :
    tasks st !! i = Some {| pending := a :: rest; outcome := o |} ->
    step st (advance i st).

Definition settled (st : Fanout) : Prop :=
  Forall (fun t => pending t = []) (tasks st).

Definition done_at (st : Fanout) (j : nat) : Prop :=
  exists t, tasks st !! j = Some t /\ pending t = [].

(** A schedule names the task that runs next, one action at a time. When
    it ends, the tasks that are still pending are awaited in turn. *)
Definition await_task (st : Fanout) (i : nat) : Fanout :=
  Nat.iter (length (default [] (pending <$> tasks st !! i))) (advance i) st.

Definition drain (st : Fanout) : Fanout :=
  foldl await_task st (seq 0 (length (tasks st))).

Definition settle (schedule : list nat) (st : Fanout) : Fanout :=
  drain (foldl (fun st i => advance i st) st schedule).

(** The concurrent Listr rejects when one of its tasks does. *)
Definition rejection (st : Fanout) : option exn :=
  head (omap (fun t => match outcome t with inl e => Some e | inr _ => None end)
          (tasks st)).

(** *** The loop over the collection *)

(** The keys [for (const taskName in config.inspector.commands)] visits
    after the own ones: the fields of the prototype that no own property
    shadows. *)
Definition inherited_keys (commands : JsObject.object (gmap string jsval))
    : list string :=
  match JsObject.proto commands with
  | Some prototype =>
      filter (fun k => k ∉ JsObject.keys (JsObject.own commands))
        (fields_in_order prototype)
  | None => []
  end.

(** The value [config.inspector.commands[taskName]] under an inherited
    key, a field of the prototype, as the command of a task. Already the
    title of the task reads [command.command], which throws on [null] and
    [undefined]. An object is read field by field; a string, a number, a
    boolean or an array has none of the fields a task reads. *)
Definition as_command (value : jsval) : exn + gmap string jsval :=
  match value with
  | VUndefined | VNull => inl (cannot_read_property "command" value)
  | VObj fields => inr (list_to_map fields)
  | _ => inr ∅
  end.

Fixpoint inherited_commands (prototype : gmap string jsval) (ks : list string)
    : exn + list (string * gmap string jsval) :=
  match ks with
  | [] => inr []
  | k :: ks' =>
      match as_command (field prototype k) with
      | inl e => inl e
      | inr command =>
          match inherited_commands prototype ks' with
          | inl e => inl e
          | inr rest => inr ((k, command) :: rest)
          end
      end
  end.

(** The entries the loop creates a renderer and a task for, in the order
    it visits them: the own properties of the collection, then the
    inherited ones. The loop throws, and the stage with it, at the first
    value it cannot read. *)
Definition entries (commands : JsObject.object (gmap string jsval))
    : exn + list (string * gmap string jsval) :=
  match JsObject.proto commands with
  | Some prototype =>
      match inherited_commands prototype (inherited_keys commands) with
      | inl e => inl e
      | inr inherited => inr (JsObject.own commands ++ inherited)
      end
  | None => inr (JsObject.own commands)
  end.

(** *** [run] *)

Record Outcome := {
  (** the buffers [print()] flushed, one per call, in call order *)
  printed : list (list entry);
  (** the calls on the command renderer *)
  reported : list entry;
  written : list (string * string);
  (** the argument of [process.exit], when it is called *)
  exit_code : option N;
}.

Definition report_failure (error : exn) (printed : list (list entry))
    (written : list (string * string)) : Outcome :=
  {| printed := printed;
     reported := [Error (message_or_error error); Emit [nl]];
     written := written;
     exit_code := Some 1%N |}.

(** [run]: the stages, the flush of the buffers in the order of
    [ctx.renderers], and the report on the command renderer (the one of
    [options.renderer], or the console). The progress lines Listr draws on
    its own are left out. [schedule] is the interleaving the event loop
    happens to choose. *)
Definition run (options : Options) (schedule : list nat) : Outcome :=
  match setup options with
  | inl error => report_failure error [] []
  | inr ctx =>
      let config := transformProject (ctx_project ctx) in
      match entries (commands (inspector config)) with
      | inl error => report_failure error [] []
      | inr commands =>
          let st := settle schedule (create_tasks ctx commands) in
          match rejection st with
          | Some error => report_failure error [] (files st)
          | None =>
              if negb (ok st)
              then report_failure
                     (JsError "Something went wrong - check the above report")
                     (renderers st) (files st)
              else {| printed := renderers st;
                      reported := [];
                      written := files st;
                      exit_code := None |}
          end
      end
  end.
End Pipeline.
End Pipeline.
Export Pipeline.

(** ** The command-line entry points [validate] and [similar] *)

Module Cli.
Section Cli.
Context `{Numbers} `{Graphql} `{Terminal} `{!Runtime}.
Context `{!ValidateLib} `{!SimilarLib}.

(** [loadSchema] and [loadDocuments] of the load package, which is not
    among the sources. The first is given the pointer and the headers, the
    second the pointer; each resolves or rejects. *)
Class LoadLib := {
  loadSchema : string -> jsval -> exn + GraphQLSchema;
  loadDocuments : string -> exn + list GSource;
}.
Context `{LoadLib}.

(** What an entry point leaves behind: the calls on its renderer and the
    files written, and the argument of [process.exit] when it is called. *)
Record Exit := {
  shown : list effect;
  status : option N;
}.

(** [try { body } catch (e) { renderer.error(e.message || e); process.exit(1) }] *)
Definition or_exit (body : M effect unit) : Exit :=
  match body.2 with
  | inl e =>
      {| shown := body.1 ++ [Render (Error (message_or_error e))];
         status := Some 1%N |}
  | inr _ => {| shown := body.1; status := None |}
  end.

Definition validate (documentsPointer schemaPointer : string) (headers : jsval)
    (options : ValidateCliOptions) : Exit :=
  or_exit
    (schema ← await (loadSchema schemaPointer headers);
     documents ← await (loadDocuments documentsPointer);
     runValidate documents schema options).

Definition similar (schemaPointer : string) (name threshold : jsval)
    (headers write : jsval) : Exit :=
  or_exit
    (schema ← await (loadSchema schemaPointer headers);
     runSimilar schema name threshold write).
End Cli.
End Cli.

(** ** What a trace reads and writes *)

Module Trace.
Section Trace.
Context `{Numbers} `{Graphql} `{Terminal} `{!Runtime}.
Context `{!ValidateLib} `{!SimilarLib} `{!PipelineLib}.

(** The fields of a command that some branch of the dispatch in [run]
    reads: [command.command] by the four guards, then [schema] and [rule],
    [documents], [write] and [silent], [deprecated], [noStrictFragments]
    and [apollo], [name] and [threshold]. *)
Definition fields_read : list string :=
  ["command"; "schema"; "rule"; "documents"; "write"; "silent"; "deprecated";
   "noStrictFragments"; "apollo"; "name"; "threshold"].

(** The calls to [writeFileSync] in the effects of a command, as pairs of
    path and content, in call order. *)
Definition file_writes (log : list effect) : list (string * string) :=
  omap (fun e => match e with
                 | WriteFile path content => Some (path, content)
                 | Render _ => None
                 end) log.

(** The same for the actions of a task. *)
Definition writes_of (acts : list action) : list (string * string) :=
  omap (fun a => match a with
                 | Effect (WriteFile path content) => Some (path, content)
                 | _ => None
                 end) acts.

(** The files a run has written, followed by those its tasks have yet to
    write. *)
Definition owed (st : Fanout) : list (string * string) :=
  files st ++ concat ((fun t => writes_of (pending t)) <$> tasks st).

(** The lines [runSimilar] emits for one type of the similarity map: an
    empty line, the type, its best match, then its other ratings. *)
Definition listing_of (schema : GraphQLSchema) (entry : string * BestMatch)
    : list effect :=
  Render (Emit [])
    :: Render (Emit [getTypePrefix schema entry.1 +:+ " " +:+ chalk_bold entry.1])
    :: Render (Emit [printResult (typeId (target (bestMatch entry.2)))
                       (rating (bestMatch entry.2))])
    :: ((fun r => Render (Emit [printResult (typeId (target r)) (rating r)]))
          <$> ratings entry.2).

(** The values of [write] that make [runSimilar] throw once it has listed
    the similar types: [typeof write !== 'string' || !isValidPath(write)]
    for a [write] that is not [undefined], or an extension other than
    [json]. *)
Definition write_refused (write : jsval) : Prop :=
  match write with
  | VUndefined => False
  | VStr path =>
      isValidPath path = false \/ write_extension (ensureAbsolute path) <> "json"
  | _ => True
  end.

#[global] Instance write_refused_dec (write : jsval) : Decision (write_refused write).
Proof. destruct write; cbn; apply _. Defined.

(** The write that the file system refuses: [writeFileSync] throws for
    the absolute path and the text of the results. *)
Definition write_fails (similarMap : list (string * BestMatch)) (write : jsval)
    : Prop :=
  exists path results error,
    write = VStr path /\
    transformMap similarMap = inr results /\
    fs_writeFileSync (ensureAbsolute path) (default "" (outputJSON results))
    = inl error.
End Trace.
End Trace.
Export Trace.

(** ** A small installation, for concrete runs

    Numbers are the naturals (the doubles that are whole and not negative),
    a schema and a document are their source text, the terminal adds no
    styling, and the collaborators are small functions. *)

Module Demo.

Fixpoint scan_digits (acc : N) (s : string) : N * string :=
  match s with
  | EmptyString => (acc, s)
  | String a s' =>
      match JsObject.digit_of a with
      | Some d => scan_digits (acc * 10 + d)%N s'
      | None => (acc, s)
      end
  end.

Definition scan_number (s : string) : option (N * string) :=
  match s with
  | EmptyString => None
  | String a _ =>
      match JsObject.digit_of a with
      | Some _ => Some (scan_digits 0 s)
      | None => None
      end
  end.

(** The decimal that [pretty] prints for a natural number is read back
    as that number. *)
Lemma digit_of_pretty_char (d : N) :
  (d < 10)%N -> JsObject.digit_of (pretty_N_char d) = Some d.
Proof.
  intros Hd.
  assert (d = 0 \/ d = 1 \/ d = 2 \/ d = 3 \/ d = 4 \/ d = 5 \/ d = 6 \/ d = 7
          \/ d = 8 \/ d = 9)%N as Hcases by lia.
  repeat (destruct Hcases as [->|Hcases]; [reflexivity|]). by subst.
Qed.

Lemma pretty_N_go_append (x : N) (s rest : string) :
  pretty_N_go x s +:+ rest = pretty_N_go x (s +:+ rest).
Proof.
  revert s. induction (N.lt_wf_0 x) as [x _ IH]; intros s.
  destruct (decide (x = 0)%N) as [->|Hx]; [by rewrite !pretty_N_go_0|].
  rewrite (pretty_N_go_step x s), (pretty_N_go_step x (s +:+ rest)) by lia.
  rewrite IH by (apply N.div_lt; lia). reflexivity.
Qed.

Lemma scan_pretty_N_go (x : N) :
  exists scale : N,
    forall (acc : N) (s : string),
      scan_digits acc (pretty_N_go x s) = scan_digits (acc * scale + x) s.
Proof.
  induction (N.lt_wf_0 x) as [x _ IH].
  destruct (decide (x = 0)%N) as [->|Hx].
  { exists 1%N. intros acc s. rewrite pretty_N_go_0. f_equal. lia. }
  destruct (IH (x `div` 10)%N) as [scale Hscale]; [apply N.div_lt; lia|].
  exists (scale * 10)%N. intros acc s.
  rewrite pretty_N_go_step by lia. rewrite Hscale.
  cbn [scan_digits]. rewrite digit_of_pretty_char by (apply N.mod_lt; lia).
  f_equal. pose proof (N.div_mod x 10 ltac:(lia)). lia.
Qed.

Lemma pretty_N_go_starts (x : N) (s : string) :
  (0 < x)%N ->
  exists a s', pretty_N_go x s = String a s' /\ JsObject.digit_of a <> None.
Proof.
  revert s. induction (N.lt_wf_0 x) as [x _ IH]; intros s Hx.
  rewrite pretty_N_go_step by done.
  destruct (decide (x `div` 10 = 0)%N) as [Hdiv|Hdiv].
  - rewrite Hdiv, pretty_N_go_0. eexists _, _. split; [reflexivity|].
    by rewrite digit_of_pretty_char by (apply N.mod_lt; lia).
  - apply IH; [apply N.div_lt; lia|by apply N.neq_0_lt_0].
Qed.

Lemma pretty_starts (n : N) :
  exists a s, pretty n = String a s /\ JsObject.digit_of a <> None.
Proof.
  unfold pretty, pretty_N. destruct (decide (n = 0)%N); [by eexists _, _|].
  apply pretty_N_go_starts. lia.
Qed.

Lemma digit_is_number_start (a : ascii) :
  JsObject.digit_of a <> None -> number_start a = true.
Proof.
  destruct a as [[|] [|] [|] [|] [|] [|] [|] [|]]; vm_compute; congruence.
Qed.

Lemma delimited_not_digit (a : ascii) (rest : string) :
  delimited (String a rest) = true -> JsObject.digit_of a = None.
Proof.
  destruct a as [[|] [|] [|] [|] [|] [|] [|] [|]]; vm_compute; congruence.
Qed.

Lemma scan_digits_delimited (n : N) (rest : string) :
  delimited rest = true -> scan_digits n rest = (n, rest).
Proof.
  intros Hrest. destruct rest as [|a rest]; [done|].
  cbn [scan_digits]. by rewrite (delimited_not_digit a rest).
Qed.

Lemma scan_number_pretty (n : N) (rest : string) :
  delimited rest = true -> scan_number (pretty n +:+ rest) = Some (n, rest).
Proof.
  intros Hrest.
  destruct (pretty_starts n) as (a & s & Hpretty & Ha).
  unfold scan_number.
  assert (pretty n +:+ rest = String a (s +:+ rest)) as Htext by by rewrite Hpretty.
  rewrite Htext. destruct (JsObject.digit_of a) as [d|] eqn:Hd; [|done].
  rewrite <- Htext. f_equal.
  unfold pretty, pretty_N. destruct (decide (n = 0)%N) as [->|Hn].
  - change ("0" +:+ rest) with (String "0" rest). cbn [scan_digits].
    change (JsObject.digit_of "0") with (Some 0%N). cbn beta iota.
    by rewrite (scan_digits_delimited _ rest).
  - rewrite pretty_N_go_append.
    destruct (scan_pretty_N_go n) as [scale ->].
    change ("" +:+ rest) with rest. by rewrite scan_digits_delimited.
Qed.

Definition numbers : Numbers :=
  {| number := N;
     number_truthy n := negb (n =? 0)%N;
     number_to_string n := pretty n;
     floor_percent n := (n * 100)%N;
     number_geb n level := (level <=? n)%N;
     number_is_finite _ := true;
     parse_json_number := scan_number |}.

Lemma naturals_read_back (n : N) : json_number (H := numbers) n.
Proof.
  split; [done|]. split.
  - destruct (pretty_starts n) as (a & s & Hpretty & Ha).
    exists a, s. split; [done|]. by apply digit_is_number_start.
  - intros rest Hrest. by apply scan_number_pretty.
Qed.

Definition json_numbers : JsonNumbers (H := numbers) :=
  Build_JsonNumbers numbers (fun _ => false) (fun n _ _ => naturals_read_back n).

(** A second kind of numbers, with two of the doubles that are no natural
    number: [-0], which is falsy and prints as [0], and [NaN], which is
    falsy, not finite and below every level. *)
Inductive double :=
  | Whole (n : N)
  | NegativeZero
  | NotANumber.

Definition doubles : Numbers :=
  {| number := double;
     number_truthy x :=
       match x with
       | Whole n => negb (n =? 0)%N
       | NegativeZero | NotANumber => false
       end;
     number_to_string x :=
       match x with
       | Whole n => pretty n
       | NegativeZero => "0"
       | NotANumber => "NaN"
       end;
     floor_percent x :=
       match x with
       | Whole n => Whole (n * 100)
       | NegativeZero | NotANumber => x
       end;
     number_geb x level :=
       match x with
       | Whole n => (level <=? n)%N
       | NegativeZero => (level <=? 0)%N
       | NotANumber => false
       end;
     number_is_finite x :=
       match x with
       | NotANumber => false
       | Whole _ | NegativeZero => true
       end;
     parse_json_number s := prod_map Whole id <$> scan_number s |}.

Definition double_is_negative_zero (x : double) : bool :=
  match x with
  | NegativeZero => true
  | Whole _ | NotANumber => false
  end.

Lemma doubles_read_back (x : double) :
  number_is_finite (Numbers := doubles) x = true ->
  double_is_negative_zero x = false ->
  json_number (H := doubles) x.
Proof.
  destruct x as [n| |]; [intros _ _|done..].
  split; [done|]. split.
  - destruct (pretty_starts n) as (a & s & Hpretty & Ha).
    exists a, s. split; [done|]. by apply digit_is_number_start.
  - intros rest Hrest.
    change (prod_map Whole id <$> scan_number (pretty n +:+ rest)
            = Some (Whole n, rest)).
    by rewrite scan_number_pretty.
Qed.

Definition json_doubles : JsonNumbers (H := doubles) :=
  Build_JsonNumbers doubles double_is_negative_zero doubles_read_back.

#[local] Existing Instance numbers.

(** The fields of a body are visited in the order of the map; a call of
    what is no function and a read on [null] fail with the messages of
    Node 10; every path can be written but the one whose directory is
    missing. *)
Lemma fields_elem `{Numbers} (b : gmap string jsval) (k : string) :
  k ∈ (map_to_list b).*1 <-> is_Some (b !! k).
Proof.
  rewrite list_elem_of_fmap. split.
  - intros ([k' v] & -> & Hin). apply elem_of_map_to_list in Hin. by exists v.
  - intros [v Hv]. exists (k, v). split; [done|]. by apply elem_of_map_to_list.
Qed.

Definition runtime `{Numbers} : Runtime :=
  {| fields_in_order b := (map_to_list b).*1;
     fields_in_order_elem := fields_elem;
     fields_in_order_NoDup := NoDup_fst_map_to_list;
     not_a_function callee := JsError (callee +:+ " is not a function");
     cannot_read_property property value :=
       JsError ("Cannot read property '" +:+ property +:+ "' of " +:+ to_string value);
     fs_writeFileSync path _ :=
       if bool_decide (path = "/missing/similar.json")
       then inl (JsError "ENOENT: no such file or directory, open '/missing/similar.json'")
       else inr tt |}.
#[local] Existing Instance runtime.

Definition graphql : Graphql :=
  {| GraphQLSchema := string;
     DocumentNode := string;
     GraphQLError := string;
     print document := document |}.
#[local] Existing Instance graphql.

Definition terminal : Terminal :=
  {| chalk_bold s := s;
     chalk_grey s := s;
     chalk_gray s := s;
     chalk_bgBlue_white s := s;
     figures_bullet := "*";
     indent s _ := s |}.
#[local] Existing Instance terminal.

(** A document that selects [missing] has a hard error, one that selects
    [old] uses a deprecated field. *)
Definition validate_document (source : GSource) : option InvalidDocument :=
  let errs :=
    if bool_decide (gs_body source = "{ missing }") then ["Cannot query field missing"]
    else [] in
  let deps :=
    if bool_decide (gs_body source = "{ old }") then ["The field old is deprecated"]
    else [] in
  if nonempty errs || nonempty deps
  then Some {| source := source; errors := errs; deprecated := deps |}
  else None.

Definition validate_lib : ValidateLib :=
  {| validateDocuments _ documents _ := omap validate_document documents;
     renderInvalidDocument doc := errors doc;
     renderDeprecatedUsageInDocument doc _ := deprecated doc |}.
#[local] Existing Instance validate_lib.

Fixpoint extname_from (s found : string) : string :=
  match s with
  | EmptyString => found
  | String a s' =>
      if bool_decide (a = "/"%char) then extname_from s' ""
      else if bool_decide (a = "."%char) then extname_from s' s
      else extname_from s' found
  end.

Definition similar_types : list (string * BestMatch) :=
  [("User",
    {| ratings := [{| target := {| typeId := "Account"; value := "id name" |};
                      rating := 0%N |}];
       bestMatch := {| target := {| typeId := "Person"; value := "id name" |};
                       rating := 1%N |} |})].

(** A schema with a type named as a method of [Object.prototype]. *)
Definition similar_shadow : list (string * BestMatch) :=
  [("hasOwnProperty",
    {| ratings := [];
       bestMatch := {| target := {| typeId := "Person"; value := "id name" |};
                       rating := 1%N |} |})].

(** A schema with a type named [__proto__]. *)
Definition similar_proto : list (string * BestMatch) :=
  [("__proto__",
    {| ratings := [];
       bestMatch := {| target := {| typeId := "Person"; value := "id name" |};
                       rating := 1%N |} |})].

(** The search throws for the type name [Nope], which no schema here
    has. *)
Definition similar_lib : SimilarLib :=
  {| findSimilar schema name _ :=
       if is_string name "Nope" then inl (JsError "Type 'Nope' doesn't exist")
       else if bool_decide (schema = "type User type Person type Account")
       then inr similar_types
       else if bool_decide (schema = "type hasOwnProperty type Person")
       then inr similar_shadow
       else if bool_decide (schema = "type __proto__ type Person")
       then inr similar_proto
       else inr [];
     getTypePrefix _ _ := "type";
     ensureAbsolute path :=
       match path with
       | String "/" _ => path
       | _ => "/cwd/" +:+ path
       end;
     extname path := extname_from path "";
     isValidPath path :=
       negb (bool_decide (path = "")) && negb (bool_decide ("*"%char ∈ list_ascii_of_string path)) |}.
#[local] Existing Instance similar_lib.

(** The same helpers over the second kind of numbers, with a search that
    rates one pair of types [NaN] and another [-0]. *)
Definition similar_nan : list (string * BestMatch (H := doubles)) :=
  [("User",
    @Build_BestMatch doubles []
      (@Build_Rating doubles {| typeId := "Person"; value := "id name" |} NotANumber))].

Definition similar_negative_zero : list (string * BestMatch (H := doubles)) :=
  [("User",
    @Build_BestMatch doubles
      [@Build_Rating doubles {| typeId := "Account"; value := "id name" |} NegativeZero]
      (@Build_Rating doubles {| typeId := "Person"; value := "id name" |} (Whole 1)))].

Definition similar_lib_doubles : SimilarLib (H := doubles) :=
  @Build_SimilarLib doubles graphql
    (fun schema _ _ =>
       if bool_decide (schema = "type User type Person")
       then inr similar_nan
       else if bool_decide (schema = "type User type Person type Account")
       then inr similar_negative_zero
       else inr [])
    (fun _ _ => "type")
    (ensureAbsolute (SimilarLib := similar_lib))
    (extname (SimilarLib := similar_lib))
    (isValidPath (SimilarLib := similar_lib)).

Definition documents : list Source :=
  [{| document := "{ user }"; location := Some "docs/user.graphql" |}].

(** A project whose extension block holds [raw] and that declares
    documents or not. *)
Definition project (schema_file : string) (declared : jsval)
    (raw : list (string * gmap string jsval)) : GraphQLProjectConfig :=
  {| project_schema := VStr schema_file;
     project_documents := declared;
     hasExtension name := bool_decide (name = "inspector");
     extension _ := {| raw_commands := raw |};
     getSchema := inr "type User type Person type Account";
     getDocuments := inr documents;
     loadSchema pointer :=
       match pointer with
       | VStr "old.graphql" => inr "type User"
       | _ => inl (JsError "Unable to find any GraphQL type definitions")
       end;
     loadDocuments pointer :=
       match pointer with
       | VStr _ => inr documents
       | _ => inl (JsError "Unable to find any GraphQL documents")
       end |}.

(** Four commands: a diff in shorthand, a validate and a coverage under
    labels of their own, and one of a kind the pipeline does not know. *)
Definition raw_commands_default : list (string * gmap string jsval) :=
  [("diff", {[ "schema" := VStr "old.graphql" ]});
   ("docs", {[ "command" := VStr "validate" ]});
   ("cov", <[ "command" := VStr "coverage" ]> {[ "documents" := VStr "docs/*.graphql" ]});
   ("lint", {[ "command" := VStr "lint" ]})].

Definition project_default : GraphQLProjectConfig :=
  project "schema.graphql" VUndefined raw_commands_default.

Definition project_api : GraphQLProjectConfig :=
  project "api.graphql" (VStr "api/*.graphql")
    [("similar", {[ "write" := VStr "similar.json" ]})].

(** [getProject] of graphql-config: the default project when no name is
    given, the named one when it exists. *)
Definition config : GraphQLConfig :=
  {| filepath := "/cwd/.graphqlrc.yml";
     getDefault := inr project_default;
     getProject name :=
       if negb (truthy name) then inr project_default
       else if is_string name "api" then inr project_api
       else inl (JsError ("Project " +:+ to_string name +:+ " not found")) |}.

Definition pipeline_lib : PipelineLib :=
  {| loadConfig _ := inr config;
     runDiff newSchema oldSchema _ :=
       if bool_decide (newSchema = oldSchema) then success ["No changes detected"]
       else (emit ["Detected the following changes (1) between schemas:"] ;;
             throw (JsError "Detected 1 breaking change"));
     runCoverage _ documents _ _ :=
       emit ["Documents covered: " +:+ pretty (length documents)] |}.
#[local] Existing Instance pipeline_lib.

(** The context the setup stages leave for the default project. *)
Definition ctx_default : Ctx :=
  {| ctx_config := config;
     ctx_project := project_default;
     ctx_schema := "type User type Person type Account";
     ctx_documents := None |}.

Definition options_default : Options :=
  {| options_config := VUndefined; options_project := VUndefined |}.

Definition options_api : Options :=
  {| options_config := VUndefined; options_project := VStr "api" |}.

(** A project whose config file has no [inspector] block, and an
    installation whose config file declares that project alone. *)
Definition project_bare : GraphQLProjectConfig :=
  {| project_schema := VStr "schema.graphql";
     project_documents := VUndefined;
     hasExtension _ := false;
     extension _ := {| raw_commands := [] |};
     getSchema := inr "type User";
     getDocuments := inr [];
     Config.loadSchema _ := inl (JsError "Unable to find any GraphQL type definitions");
     Config.loadDocuments _ := inl (JsError "Unable to find any GraphQL documents") |}.

Definition config_bare : GraphQLConfig :=
  {| filepath := "/cwd/.graphqlrc.yml";
     getDefault := inr project_bare;
     getProject _ := inr project_bare |}.

Definition pipeline_lib_bare : PipelineLib :=
  {| loadConfig _ := inr config_bare;
     runDiff := runDiff (PipelineLib := pipeline_lib);
     runCoverage := runCoverage (PipelineLib := pipeline_lib) |}.

(** An installation whose config file declares the [api] project alone. *)
Definition config_api : GraphQLConfig :=
  {| filepath := "/cwd/.graphqlrc.yml";
     getDefault := inr project_api;
     getProject _ := inr project_api |}.

Definition pipeline_lib_api : PipelineLib :=
  {| loadConfig _ := inr config_api;
     runDiff := runDiff (PipelineLib := pipeline_lib);
     runCoverage := runCoverage (PipelineLib := pipeline_lib) |}.

(** The context the setup stages leave for the [api] project. *)
Definition ctx_api : Ctx :=
  {| ctx_config := config_api;
     ctx_project := project_api;
     ctx_schema := "type User type Person type Account";
     ctx_documents := Some documents |}.

(** A project whose config file has an entry labelled [__proto__], and
    its installation. *)
Definition raw_commands_proto : list (string * gmap string jsval) :=
  [("__proto__", <[ "command" := VStr "lint" ]> {[ "rules" := VStr "strict" ]});
   ("docs", <[ "command" := VStr "validate" ]> {[ "documents" := VStr "docs/*.graphql" ]})].

Definition project_proto : GraphQLProjectConfig :=
  project "schema.graphql" VUndefined raw_commands_proto.

Definition config_proto : GraphQLConfig :=
  {| filepath := "/cwd/.graphqlrc.yml";
     getDefault := inr project_proto;
     getProject _ := inr project_proto |}.

Definition pipeline_lib_proto : PipelineLib :=
  {| loadConfig _ := inr config_proto;
     runDiff := runDiff (PipelineLib := pipeline_lib);
     runCoverage := runCoverage (PipelineLib := pipeline_lib) |}.

Definition ctx_proto : Ctx :=
  {| ctx_config := config_proto;
     ctx_project := project_proto;
     ctx_schema := "type User type Person type Account";
     ctx_documents := None |}.

(** The load package: one schema file and two documents globs exist. *)
Definition load_lib : Cli.LoadLib :=
  {| Cli.loadSchema pointer _ :=
       if bool_decide (pointer = "schema.graphql")
       then inr "type User type Person type Account"
       else inl (JsError ("Unable to find any GraphQL type definitions for the following pointers: " +:+ pointer));
     Cli.loadDocuments pointer :=
       if bool_decide (pointer = "docs/*.graphql")
       then inr [{| gs_body := "{ user }"; gs_name := Some "docs/user.graphql" |};
                 {| gs_body := "{ missing }"; gs_name := Some "docs/missing.graphql" |}]
       else if bool_decide (pointer = "ok/*.graphql")
       then inr [{| gs_body := "{ user }"; gs_name := Some "ok/user.graphql" |}]
       else inl (JsError ("Unable to find any GraphQL documents for the following pointers: " +:+ pointer)) |}.

(** Options of [validate] with every flag left out. *)
Definition validate_options_none : ValidateCliOptions :=
  {| opt_deprecated := VUndefined;
     opt_noStrictFragments := VUndefined;
     opt_apollo := VUndefined;
     opt_keepClientFields := VUndefined;
     opt_maxDepth := VUndefined |}.

End Demo.

(** * Properties *)

(** A closed equation is decided by evaluating its left side. *)
Ltac evaluate :=
  lazymatch goal with
  | |- @eq ?T _ ?y => vm_cast_no_check (@eq_refl T y)
  end.

(** ** Enumeration order of objects *)

Section JsObjectFacts.
Import JsObject.
Context {V : Type}.
Implicit Types (o l acc : list (string * V)) (k : string).

Lemma js_ordered_cons k ks :
  js_ordered (k :: ks) = true ->
  js_ordered ks = true /\
  forall k', k' ∈ ks -> k <> k' /\ key_before k' k = false.
Proof.
  simpl. intros [Hall Hks]%andb_true_iff. split; [done|].
  intros k' Hin. rewrite forallb_forall in Hall.
  apply list_elem_of_In, Hall in Hin.
  apply andb_true_iff in Hin as [Hne Hkb].
  apply negb_true_iff in Hne, Hkb.
  by apply bool_decide_eq_false in Hne.
Qed.

Lemma js_ordered_app_l ks1 ks2 :
  js_ordered (ks1 ++ ks2) = true -> js_ordered ks1 = true.
Proof.
  induction ks1 as [|k ks1 IH]; [done|].
  simpl. intros [Hall Hks]%andb_true_iff.
  rewrite forallb_app in Hall. apply andb_true_iff in Hall as [Hall _].
  rewrite Hall. simpl. by apply IH.
Qed.

Lemma js_ordered_app_r ks1 ks2 :
  js_ordered (ks1 ++ ks2) = true -> js_ordered ks2 = true.
Proof.
  induction ks1 as [|k ks1 IH]; [done|].
  simpl. intros [_ Hks]%andb_true_iff. by apply IH.
Qed.

(** Assigning a key that the enumeration order puts last appends it. *)
Lemma obj_set_last o k v :
  js_ordered (keys o ++ [k]) = true ->
  obj_set k v o = o ++ [(k, v)].
Proof.
  induction o as [|[k' v'] o IH]; [done|].
  unfold keys. cbn [fmap list_fmap fst app]. intros Hord.
  pose proof (js_ordered_cons _ _ Hord) as [Hord' Hlater].
  assert (k ∈ o.*1 ++ [k]) as Hin.
  { apply elem_of_app. right. apply list_elem_of_singleton. done. }
  destruct (Hlater k Hin) as [Hne Hkb].
  cbn [obj_set]. rewrite decide_False by done. rewrite Hkb.
  cbn [app]. f_equal. by apply IH.
Qed.

(** Building an object property by property, in an order that already
    is an enumeration order, gives the properties in that order. *)
Lemma obj_set_fold {W} (f : string -> W -> V) acc (l : list (string * W)) :
  js_ordered (keys acc ++ keys l) = true ->
  foldl (fun o kv => obj_set kv.1 (f kv.1 kv.2) o) acc l
  = acc ++ map (fun kv => (kv.1, f kv.1 kv.2)) l.
Proof.
  revert acc. induction l as [|[k v] l IH]; intros acc Hord.
  - by rewrite app_nil_r.
  - cbn [foldl map fst snd]. unfold keys in *. cbn [fmap list_fmap fst] in Hord.
    rewrite obj_set_last.
    + rewrite IH.
      * by rewrite <- app_assoc.
      * rewrite fmap_app. cbn [fmap list_fmap fst]. by rewrite <- app_assoc.
    + apply (js_ordered_app_l _ (l.*1)). by rewrite <- app_assoc.
Qed.

Lemma obj_of_list_ordered l :
  js_ordered (keys l) = true -> obj_of_list l = l.
Proof.
  intros Hord. unfold obj_of_list.
  rewrite (obj_set_fold (fun _ v => v) [] l) by done.
  cbn [app]. induction l as [|[k v] l IH]; [done|].
  cbn [map fst snd]. f_equal. apply IH.
  by apply js_ordered_cons in Hord as [? _].
Qed.

Lemma obj_get_elem_of o k v :
  js_ordered (keys o) = true -> (k, v) ∈ o -> obj_get k o = Some v.
Proof.
  induction o as [|[k' v'] o IH]; intros Hord Hin; [by apply elem_of_nil in Hin|].
  unfold keys in Hord. cbn [fmap list_fmap fst] in Hord.
  destruct (js_ordered_cons _ _ Hord) as [Hord' Hk'].
  cbn [obj_get]. apply elem_of_cons in Hin as [Heq|Hin].
  - injection Heq as -> ->. by rewrite decide_True.
  - destruct (Hk' k) as [Hne _].
    { apply list_elem_of_fmap. by exists (k, v). }
    rewrite decide_False by done. by apply IH.
Qed.

Lemma js_ordered_remove ks1 k ks2 :
  js_ordered (ks1 ++ k :: ks2) = true -> js_ordered (ks1 ++ ks2) = true.
Proof.
  induction ks1 as [|k1 ks1 IH].
  - cbn [app]. intros Hord. by apply js_ordered_cons in Hord as [? _].
  - simpl. intros [Hall Hks]%andb_true_iff.
    rewrite forallb_app in Hall. apply andb_true_iff in Hall as [Hall1 Hall2].
    simpl in Hall2. apply andb_true_iff in Hall2 as [_ Hall2].
    rewrite forallb_app, Hall1, Hall2. simpl. by apply IH.
Qed.

Lemma obj_get_None {W} (entries : list (string * W)) k :
  k ∉ keys entries -> obj_get k entries = None.
Proof.
  induction entries as [|[k' v'] entries IH]; [done|].
  unfold keys. cbn [fmap list_fmap fst obj_get]. intros Hnot.
  apply not_elem_of_cons in Hnot as [Hne Hnot].
  rewrite decide_False by done. by apply IH.
Qed.

Lemma obj_get_keys {W} (entries : list (string * W)) k (w : W) :
  obj_get k entries = Some w -> k ∈ keys entries.
Proof.
  induction entries as [|[k' v'] entries IH]; [done|].
  unfold keys. cbn [fmap list_fmap fst obj_get].
  destruct (decide (k = k')) as [->|Hne]; [intros _; apply list_elem_of_here|].
  intros Hget. apply list_elem_of_further. by apply IH.
Qed.

(** An object filled by assignments, in an order that already is an
    enumeration order: the entries stand in that order, but for the one
    labelled [__proto__], which has become the prototype. *)
Lemma obj_assign_fold {W} (f : string -> W -> V) (start : object V)
    (l : list (string * W)) :
  js_ordered (keys (own start) ++ keys l) = true ->
  foldl (fun (filled : object V) kv => obj_assign kv.1 (f kv.1 kv.2) filled) start l
  = {| own := own start
              ++ map (fun kv => (kv.1, f kv.1 kv.2))
                   (filter (fun kv => kv.1 <> "__proto__") l);
       proto := match obj_get "__proto__" l with
                | Some w => Some (f "__proto__" w)
                | None => proto start
                end |}.
Proof.
  revert start. induction l as [|[k w] l IH]; intros start Hord.
  - cbn. rewrite app_nil_r. by destruct start.
  - cbn [foldl fst snd]. unfold keys in *. cbn [fmap list_fmap fst] in Hord.
    unfold obj_assign at 2. destruct (bool_decide_reflect (k = "__proto__")) as [->|Hne].
    + rewrite IH by (cbn [own]; by apply js_ordered_remove in Hord).
      cbn [own proto obj_get]. rewrite decide_True by done.
      rewrite filter_cons_False by (cbn; tauto).
      rewrite obj_get_None; [done|].
      apply js_ordered_app_r in Hord. apply js_ordered_cons in Hord as [_ Hlater].
      intros Hin. by destruct (Hlater _ Hin).
    + rewrite IH; cycle 1.
      { cbn [own]. rewrite obj_set_last.
        - rewrite fmap_app. cbn [fmap list_fmap fst]. by rewrite <- app_assoc.
        - apply (js_ordered_app_l _ (l.*1)). by rewrite <- app_assoc. }
      cbn [own proto obj_get]. rewrite decide_False by done.
      rewrite filter_cons_True by done. cbn [map fst snd].
      rewrite obj_set_last.
      * by rewrite <- app_assoc.
      * apply (js_ordered_app_l _ (l.*1)). by rewrite <- app_assoc.
Qed.

Lemma js_ordered_filter {W} (P : string * W -> Prop) `{forall x, Decision (P x)}
    (l : list (string * W)) :
  js_ordered (keys l) = true -> js_ordered (keys (filter P l)) = true.
Proof.
  induction l as [|kv l IH]; [done|].
  unfold keys in *. cbn [fmap list_fmap]. intros Hord.
  destruct (decide (P kv)).
  - rewrite filter_cons_True by done. cbn [fmap list_fmap].
    pose proof Hord as Hord'. simpl in Hord'.
    apply andb_true_iff in Hord' as [Hall Hks].
    simpl. rewrite IH by done. rewrite andb_true_r.
    apply forallb_forall. intros k' Hin. rewrite forallb_forall in Hall.
    apply Hall. apply list_elem_of_In. apply list_elem_of_In in Hin.
    apply list_elem_of_fmap in Hin as (x & -> & Hx).
    apply list_elem_of_fmap. exists x. split; [done|].
    by apply list_elem_of_filter in Hx as [_ ?].
  - rewrite filter_cons_False by done. apply IH.
    by apply js_ordered_cons in Hord as [? _].
Qed.

(** Array indices overtake the string keys, which keep their order. *)
Example obj_of_list_enumeration :
  obj_of_list [("b", 1); ("10", 2); ("a", 3); ("2", 4); ("01", 5)]
  = [("2", 4); ("10", 2); ("b", 1); ("a", 3); ("01", 5)].
Proof. reflexivity. Qed.
End JsObjectFacts.

(** ** [JSON.parse] after [JSON.stringify] *)

Section JsonFacts.
Context `{Numbers}.

Lemma append_cons (a : ascii) (s t : string) : String a s +:+ t = String a (s +:+ t).
Proof. reflexivity. Qed.

Lemma append_nil (t : string) : "" +:+ t = t.
Proof. reflexivity. Qed.

Lemma append_assoc (s t u : string) : (s +:+ t) +:+ u = s +:+ (t +:+ u).
Proof. induction s as [|a s IH]; [done|]. by rewrite !append_cons, IH. Qed.

Lemma length_append (s t : string) :
  String.length (s +:+ t) = String.length s + String.length t.
Proof. induction s as [|a s IH]; [done|]. rewrite append_cons. cbn. by rewrite IH. Qed.

Ltac norm_append :=
  repeat (rewrite append_assoc || rewrite append_cons || rewrite append_nil).

(** *** Strings *)

Lemma parse_chars_escape_char (a : ascii) (s2 r rest : string) :
  parse_chars s2 = Some (r, rest) ->
  parse_chars (escape_char a +:+ s2) = Some (String a r, rest).
Proof.
  intros Hs2.
  destruct a as [[|] [|] [|] [|] [|] [|] [|] [|]];
    vm_compute escape_char; rewrite ?append_cons, ?append_nil;
    simpl; rewrite Hs2; reflexivity.
Qed.

Lemma parse_chars_escape (s rest : string) :
  parse_chars (escape s +:+ String quote_char rest) = Some (s, rest).
Proof.
  induction s as [|a s IH]; [done|].
  cbn [escape]. rewrite append_assoc. by apply parse_chars_escape_char.
Qed.

Lemma quote_append (s rest : string) :
  quote s +:+ rest = String quote_char (escape s +:+ String quote_char rest).
Proof. unfold quote. by rewrite append_cons, append_assoc, append_cons, append_nil. Qed.

Lemma quote_length (s : string) : 2 <= String.length (quote s).
Proof. unfold quote. cbn. rewrite length_append. cbn. lia. Qed.

(** *** The first character of a value *)

Lemma number_start_value_start (a : ascii) :
  number_start a = true -> value_start a = true.
Proof.
  destruct a as [[|] [|] [|] [|] [|] [|] [|] [|]]; vm_compute; congruence.
Qed.

Lemma skip_ws_value_start (a : ascii) (s : string) :
  value_start a = true -> skip_ws (String a s) = String a s.
Proof.
  unfold value_start. intros Hv. cbn [skip_ws].
  by destruct (is_ws a).
Qed.

Lemma skip_ws_delimited (rest : string) :
  delimited rest = true -> skip_ws rest = rest.
Proof.
  destruct rest as [|a rest]; [done|].
  destruct a as [[|] [|] [|] [|] [|] [|] [|] [|]]; vm_compute; congruence.
Qed.

Lemma parse_value_number (fuel : nat) (a : ascii) (s : string) :
  number_start a = true ->
  parse_value (S fuel) (String a s)
  = (fun nr => (VNum nr.1, nr.2)) <$> parse_json_number (String a s).
Proof.
  destruct a as [[|] [|] [|] [|] [|] [|] [|] [|]];
    (intros Hstart; vm_compute in Hstart; try discriminate Hstart); reflexivity.
Qed.

Lemma parse_value_string (fuel : nat) (s : string) :
  parse_value (S fuel) (String quote_char s)
  = (fun kr => (VStr kr.1, kr.2)) <$> parse_chars s.
Proof. reflexivity. Qed.

Lemma parse_value_array (fuel : nat) (r : string) :
  parse_value (S fuel) (String "[" r)
  = match skip_ws r with
    | String b r' =>
        if (N_of_ascii b =? 93)%N then Some (VArr [], r')
        else (fun lr => (VArr lr.1, lr.2)) <$> parse_elements fuel r
    | EmptyString => None
    end.
Proof. reflexivity. Qed.

Lemma parse_value_object (fuel : nat) (r : string) :
  parse_value (S fuel) (String "{" r)
  = match skip_ws r with
    | String b r' =>
        if (N_of_ascii b =? 125)%N then Some (VObj [], r')
        else (fun mr => (VObj (JsObject.obj_of_list mr.1), mr.2)) <$> parse_members fuel r
    | EmptyString => None
    end.
Proof. reflexivity. Qed.

Lemma weight_arr (l : list jsval) : weight (VArr l) = S (sum_weight l).
Proof.
  induction l as [|x l IH]; [done|].
  assert (weight (VArr (x :: l)) = S (weight x) + weight (VArr l)) as ->
    by (simpl; lia).
  rewrite IH. unfold sum_weight. cbn [foldr]. lia.
Qed.

Lemma weight_obj (o : list (string * jsval)) : weight (VObj o) = S (sum_weight o.*2).
Proof.
  induction o as [|[k x] o IH]; [done|].
  assert (weight (VObj ((k, x) :: o)) = S (weight x) + weight (VObj o)) as ->
    by (simpl; lia).
  rewrite IH. unfold sum_weight. rewrite fmap_cons. cbn [foldr snd]. lia.
Qed.

Lemma json_safe_arr (l : list jsval) : json_safe (VArr l) <-> Forall json_safe l.
Proof.
  cbn. induction l as [|x l IH]; [by split|].
  rewrite Forall_cons, <- IH. done.
Qed.

Lemma json_safe_obj (o : list (string * jsval)) :
  json_safe (VObj o)
  <-> JsObject.js_ordered (JsObject.keys o) = true /\ Forall json_safe o.*2.
Proof.
  cbn. apply and_iff_compat_l.
  induction o as [|kv o IH]; [by split|].
  cbn [fmap list_fmap]. rewrite Forall_cons, <- IH. done.
Qed.

Lemma reads_back_null : reads_back VNull.
Proof.
  exists "null". split; [done|]. split; [by eexists _, _|]. split; [cbn; lia|].
  intros [|fuel] rest Hfuel _; [cbn in Hfuel; lia|]. reflexivity.
Qed.

Lemma reads_back_bool b : reads_back (VBool b).
Proof.
  destruct b.
  - exists "true". split; [done|]. split; [by eexists _, _|]. split; [cbn; lia|].
    intros [|fuel] rest Hfuel _; [cbn in Hfuel; lia|]. reflexivity.
  - exists "false". split; [done|]. split; [by eexists _, _|]. split; [cbn; lia|].
    intros [|fuel] rest Hfuel _; [cbn in Hfuel; lia|]. reflexivity.
Qed.

Lemma reads_back_str s : reads_back (VStr s).
Proof.
  exists (quote s). split; [done|]. split; [by eexists _, _|].
  split; [pose proof (quote_length s); cbn; lia|].
  intros [|fuel] rest Hfuel _; [cbn in Hfuel; lia|].
  by rewrite quote_append, parse_value_string, parse_chars_escape.
Qed.

Lemma reads_back_num n : json_number n -> reads_back (VNum n).
Proof.
  intros (Hfinite & (a & s & Htext & Hstart) & Hparse).
  exists (number_to_string n). cbn. rewrite Hfinite. split; [done|].
  split; [exists a, s; split; [done|by apply number_start_value_start]|].
  split; [rewrite Htext; cbn; lia|].
  intros [|fuel] rest Hfuel Hrest; [lia|].
  pose proof (Hparse rest Hrest) as Hp. rewrite Htext, append_cons in Hp |- *.
  rewrite parse_value_number by done. by rewrite Hp.
Qed.

Lemma append_nil_r (s : string) : s +:+ "" = s.
Proof. induction s as [|a s IH]; [done|]. by rewrite append_cons, IH. Qed.

Lemma parse_elements_step (fuel : nat) (s : string) :
  parse_elements (S fuel) s
  = match parse_value fuel s with
    | Some (v, r1) =>
        match skip_ws r1 with
        | String b r2 =>
            if (N_of_ascii b =? 44)%N then
              (fun lr => (v :: lr.1, lr.2)) <$> parse_elements fuel r2
            else if (N_of_ascii b =? 93)%N then Some ([v], r2)
            else None
        | EmptyString => None
        end
    | None => None
    end.
Proof. reflexivity. Qed.

Lemma parse_members_step (fuel : nat) (r0 : string) :
  parse_members (S fuel) (String quote_char r0)
  = match parse_chars r0 with
    | Some (k, r1) =>
        match skip_ws r1 with
        | String c r2 =>
            if (N_of_ascii c =? 58)%N then
              match parse_value fuel r2 with
              | Some (v, r3) =>
                  match skip_ws r3 with
                  | String b r4 =>
                      if (N_of_ascii b =? 44)%N then
                        (fun mr => ((k, v) :: mr.1, mr.2)) <$> parse_members fuel r4
                      else if (N_of_ascii b =? 125)%N then Some ([(k, v)], r4)
                      else None
                  | EmptyString => None
                  end
              | None => None
              end
            else None
        | EmptyString => None
        end
    | None => None
    end.
Proof. reflexivity. Qed.

Lemma serialize_arr (l : list jsval) :
  serialize (VArr l)
  = Some ("[" +:+ join "," (map (fun x => default "null" (serialize x)) l) +:+ "]").
Proof. reflexivity. Qed.

Lemma serialize_obj (o : list (string * jsval)) :
  serialize (VObj o)
  = Some ("{" +:+
          join ","
            (omap (fun kv => (fun t => quote kv.1 +:+ ":" +:+ t) <$> serialize kv.2) o)
          +:+ "}").
Proof. reflexivity. Qed.

Lemma join_cons_cons (sep s t : string) (l : list string) :
  join sep (s :: t :: l) = s +:+ sep +:+ join sep (t :: l).
Proof. reflexivity. Qed.

(** The elements of a non-empty array, up to the closing bracket. *)
Lemma reads_back_elements (l : list jsval) :
  l <> [] -> Forall reads_back l ->
  (exists a s,
     join "," (map (fun x => default "null" (serialize x)) l) = String a s
     /\ value_start a = true) /\
  sum_weight l
  <= String.length (join "," (map (fun x => default "null" (serialize x)) l)) + 1 /\
  forall fuel rest,
    sum_weight l <= fuel ->
    parse_elements fuel
      (join "," (map (fun x => default "null" (serialize x)) l) +:+ String "]" rest)
    = Some (l, rest).
Proof.
  intros Hne Hall. induction Hall as [|x l Hx Hall IH]; [done|]. clear Hne.
  destruct Hx as (tx & Hser & (a & s & Htx & Hstart) & Hlen & Hparse).
  cbn [map]. rewrite Hser. change (default "null" (Some tx)) with tx.
  destruct l as [|y l].
  - cbn [map join]. split; [by exists a, s|]. split; [cbn; lia|].
    intros [|fuel] rest Hfuel; [cbn in Hfuel; lia|].
    rewrite parse_elements_step, Hparse by (done || cbn in Hfuel; lia).
    reflexivity.
  - destruct IH as ((b & t & Hjoin & Hb) & Hlen' & Hparse'); [done|].
    cbn [map] in *. rewrite join_cons_cons.
    split; [exists a, (s +:+ "," +:+ join "," (default "null" (serialize y)
                                         :: map (fun x => default "null" (serialize x)) l));
            by rewrite Htx, append_cons|].
    split.
    { rewrite !length_append. cbn [sum_weight foldr] in *. cbn [String.length]. lia. }
    intros [|fuel] rest Hfuel; [cbn in Hfuel; lia|].
    rewrite !append_assoc, append_cons, append_nil.
    cbn [sum_weight foldr] in Hfuel.
    rewrite parse_elements_step, Hparse by (done || lia).
    cbn [skip_ws is_ws]. simpl.
    rewrite Hparse' by (unfold sum_weight; cbn [foldr]; lia). reflexivity.
Qed.

Lemma reads_back_arr (l : list jsval) : Forall reads_back l -> reads_back (VArr l).
Proof.
  intros Hall. eexists. split; [apply serialize_arr|].
  split; [by eexists _, _|].
  rewrite weight_arr. destruct l as [|x l].
  - split; [vm_compute; lia|].
    intros [|fuel] rest Hfuel _; [cbn in Hfuel; lia|]. reflexivity.
  - destruct (reads_back_elements (x :: l)) as ((a & s & Hjoin & Ha) & Hlen & Hparse);
      [done..|].
    split.
    { norm_append. cbn [String.length].
      rewrite length_append. cbn [String.length]. lia. }
    intros [|fuel] rest Hfuel _; [lia|].
    norm_append. rewrite parse_value_array, Hjoin, append_cons.
    rewrite skip_ws_value_start by done.
    assert ((N_of_ascii a =? 93)%N = false) as ->.
    { unfold value_start in Ha. by destruct (is_ws a), (N_of_ascii a =? 93)%N. }
    rewrite <- append_cons, <- Hjoin, Hparse by lia. reflexivity.
Qed.

Lemma members_texts (o : list (string * jsval)) :
  Forall (fun kv => reads_back kv.2) o ->
  omap (fun kv => (fun t => quote kv.1 +:+ ":" +:+ t) <$> serialize kv.2) o
  = map member_text o.
Proof.
  induction 1 as [|kv o (t & Hser & _) Hall IH]; [done|].
  cbn [omap list_omap map]. unfold member_text at 1. rewrite Hser. cbn. by rewrite IH.
Qed.

(** The members of a non-empty object, up to the closing brace. *)
Lemma reads_back_members (o : list (string * jsval)) :
  o <> [] -> Forall (fun kv => reads_back kv.2) o ->
  (exists s, join "," (map member_text o) = String quote_char s) /\
  sum_weight o.*2 <= String.length (join "," (map member_text o)) + 1 /\
  forall fuel rest,
    sum_weight o.*2 <= fuel ->
    parse_members fuel (join "," (map member_text o) +:+ String "}" rest)
    = Some (o, rest).
Proof.
  intros Hne Hall. induction Hall as [|[k x] o Hx Hall IH]; [done|]. clear Hne.
  destruct Hx as (tx & Hser & (a & s & Htx & Hstart) & Hlen & Hparse).
  cbn [snd] in *. cbn [map].
  assert (member_text (k, x) = quote k +:+ ":" +:+ tx) as ->.
  { unfold member_text. cbn [fst snd]. by rewrite Hser. }
  pose proof (quote_length k) as Hquote.
  destruct o as [|kv o].
  - cbn [map join]. split; [eexists; by rewrite quote_append|].
    split.
    { rewrite !length_append. cbn. lia. }
    intros [|fuel] rest Hfuel; [cbn in Hfuel; lia|].
    rewrite !append_assoc, quote_append. norm_append.
    rewrite parse_members_step, parse_chars_escape.
    simpl.
    rewrite Hparse by (done || cbn in Hfuel; lia).
    reflexivity.
  - destruct IH as ((t & Hjoin) & Hlen' & Hparse'); [done|].
    cbn [map] in *. rewrite join_cons_cons.
    split; [eexists; rewrite !append_assoc; by rewrite quote_append|].
    split.
    { rewrite !length_append. rewrite fmap_cons. cbn [sum_weight foldr fmap] in *.
      cbn [String.length snd]. lia. }
    intros [|fuel] rest Hfuel; [cbn in Hfuel; lia|].
    rewrite fmap_cons in Hfuel. cbn [sum_weight foldr snd] in Hfuel.
    rewrite !append_assoc, quote_append. norm_append.
    rewrite parse_members_step, parse_chars_escape.
    simpl.
    rewrite Hparse by (done || lia).
    simpl.
    rewrite Hparse' by (unfold sum_weight; lia). reflexivity.
Qed.

Lemma reads_back_obj (o : list (string * jsval)) :
  JsObject.js_ordered (JsObject.keys o) = true ->
  Forall (fun kv => reads_back kv.2) o -> reads_back (VObj o).
Proof.
  intros Hord Hall. eexists. split; [apply serialize_obj|].
  rewrite members_texts by done.
  split; [by eexists _, _|].
  rewrite weight_obj. destruct o as [|kv o].
  - split; [vm_compute; lia|].
    intros [|fuel] rest Hfuel _; [cbn in Hfuel; lia|]. reflexivity.
  - destruct (reads_back_members (kv :: o)) as ((s & Hjoin) & Hlen & Hparse);
      [done..|].
    split.
    { norm_append. cbn [String.length].
      rewrite length_append. cbn [String.length]. lia. }
    intros [|fuel] rest Hfuel _; [lia|].
    norm_append. rewrite parse_value_object, Hjoin, append_cons.
    simpl.
    rewrite <- append_cons, <- Hjoin, Hparse by lia.
    cbn -[JsObject.obj_of_list]. by rewrite obj_of_list_ordered.
Qed.

(** Every value that JSON carries prints as a text that reads back. *)
Lemma json_safe_reads_back (v : jsval) : json_safe v -> reads_back v.
Proof.
  induction v as [| |b|n|s|l IH|o IH] using jsval_nested_ind.
  - done.
  - intros _. apply reads_back_null.
  - intros _. apply reads_back_bool.
  - apply reads_back_num.
  - intros _. apply reads_back_str.
  - intros Hsafe%json_safe_arr. apply reads_back_arr.
    induction IH as [|x l Hx _ IHl]; [done|].
    apply Forall_cons in Hsafe as [? ?]. apply Forall_cons. split; [by apply Hx|by apply IHl].
  - intros [Hord Hsafe]%json_safe_obj. apply reads_back_obj; [done|].
    clear Hord. induction IH as [|kv o Hx _ IHo]; [done|].
    rewrite fmap_cons in Hsafe.
    apply Forall_cons in Hsafe as [? ?]. apply Forall_cons. split; [by apply Hx|by apply IHo].
Qed.

(** [JSON.parse(JSON.stringify(v))] is [v]. *)
Lemma JSON_roundtrip (v : jsval) :
  json_safe v ->
  exists text,
    JSON_stringify v = Some text /\ text <> "" /\ JSON_parse text = Some v.
Proof.
  intros (text & Hser & (a & s & Htext & _) & Hlen & Hparse)%json_safe_reads_back.
  exists text. split; [done|]. split; [by rewrite Htext|].
  unfold JSON_parse. rewrite <- (append_nil_r text) at 2.
  rewrite Hparse by (done || lia). reflexivity.
Qed.
End JsonFacts.

(** ** The monad of effects *)

Section MonadFacts.
Context {E : Type}.

Lemma bind_log {A B} (m : M E A) (k : A -> M E B) a :
  m.2 = inr a -> bind m k = (m.1 ++ (k a).1, (k a).2).
Proof. unfold bind. by intros ->. Qed.

Lemma bind_throw {A B} (m : M E A) (k : A -> M E B) e :
  m.2 = inl e -> bind m k = (m.1, inl e).
Proof. unfold bind. by intros ->. Qed.

(** A handler that resolves makes the whole [try ... catch] resolve. *)
Lemma try_catch_resolves (m : M E unit) (h : exn -> M E unit) :
  (forall e, (h e).2 = inr tt) -> (try_catch m h).2 = inr tt.
Proof.
  intros Hh. unfold try_catch. destruct m as [log [e|[]]]; simpl; [apply Hh|done].
Qed.

Lemma try_catch_caught (m : M E unit) (h : exn -> M E unit) e :
  m.2 = inl e -> try_catch m h = (m.1 ++ (h e).1, (h e).2).
Proof. unfold try_catch. by intros ->. Qed.

Lemma try_catch_passed (m : M E unit) (h : exn -> M E unit) a :
  m.2 = inr a -> try_catch m h = m.
Proof. unfold try_catch. by intros ->. Qed.
End MonadFacts.

(** ** The fan-out stage under any interleaving *)

Section FanoutFacts.
Implicit Types (st : Fanout) (i : nat).

Lemma advance_lengths i st :
  length (renderers (advance i st)) = length (renderers st) /\
  length (tasks (advance i st)) = length (tasks st).
Proof.
  unfold advance. destruct (tasks st !! i) as [[[|a rest] o]|]; [done| |done].
  destruct a as [[e|path content]|]; cbn; rewrite ?length_alter, ?length_insert; done.
Qed.

Lemma forallb_id_lookup_false (l : list bool) i :
  l !! i = Some false -> forallb id l = false.
Proof.
  revert i. induction l as [|b l IH]; intros [|i]; cbn; try done.
  - by intros [= ->].
  - intros Hi. rewrite (IH i Hi). apply andb_false_r.
Qed.

Lemma advance_outcomes i st :
  outcome <$> tasks (advance i st) = outcome <$> tasks st.
Proof.
  unfold advance. destruct (tasks st !! i) as [[[|a rest] o]|] eqn:Hi; [done| |done].
  assert (outcome <$> <[i:={| pending := rest; outcome := o |}]> (tasks st)
          = outcome <$> tasks st) as Hout.
  { rewrite list_fmap_insert. apply list_insert_id.
    by rewrite list_lookup_fmap, Hi. }
  destruct a as [[e|path content]|]; cbn; exact Hout.
Qed.

Lemma advance_final_ok i st : final_ok (advance i st) = final_ok st.
Proof.
  unfold advance. destruct (tasks st !! i) as [[[|a rest] o]|] eqn:Hi; [done| |done].
  unfold final_ok.
  destruct a as [[e|path content]|]; cbn [perform ok tasks].
  1,2: f_equal; f_equal; rewrite list_fmap_insert; apply list_insert_id;
       by rewrite list_lookup_fmap, Hi.
  cbn. symmetry. apply andb_false_intro2.
  apply (forallb_id_lookup_false _ i). by rewrite list_lookup_fmap, Hi.
Qed.

Lemma advance_final_buffers i st :
  final_buffers (advance i st) = final_buffers st.
Proof.
  unfold advance. destruct (tasks st !! i) as [[[|a rest] o]|] eqn:Hi; [done| |done].
  unfold final_buffers. apply list_eq. intros j.
  destruct a as [[e|path content]|]; cbn [perform renderers tasks];
    rewrite !lookup_zip_with.
  - destruct (decide (i = j)) as [->|Hne].
    + rewrite list_lookup_alter_eq, Hi.
      rewrite list_lookup_insert_eq by (by eapply lookup_lt_Some).
      destruct (renderers st !! j) as [buffer|]; cbn; [|done].
      by rewrite <- app_assoc.
    + by rewrite list_lookup_alter_ne, list_lookup_insert_ne.
  - destruct (decide (i = j)) as [->|Hne].
    + rewrite Hi, list_lookup_insert_eq by (by eapply lookup_lt_Some). done.
    + by rewrite list_lookup_insert_ne.
  - destruct (decide (i = j)) as [->|Hne].
    + rewrite Hi, list_lookup_insert_eq by (by eapply lookup_lt_Some). done.
    + by rewrite list_lookup_insert_ne.
Qed.

(** A step touches the pending actions of its own task only, and takes
    the first of them away. *)
Lemma advance_lookup_ne i j st :
  i <> j -> tasks (advance i st) !! j = tasks st !! j.
Proof.
  intros Hne. unfold advance.
  destruct (tasks st !! i) as [[[|a rest] o]|] eqn:Hi; [done| |done].
  destruct a as [[e|path content]|]; cbn; by rewrite list_lookup_insert_ne.
Qed.

Lemma advance_lookup_eq i st t :
  tasks st !! i = Some t ->
  tasks (advance i st) !! i
  = Some {| pending := drop 1 (pending t); outcome := outcome t |}.
Proof.
  intros Hi. unfold advance. rewrite Hi.
  destruct t as [[|a rest] o]; [done|].
  assert (i < length (tasks st)) by (by eapply lookup_lt_Some).
  destruct a as [[e|path content]|]; cbn; by rewrite list_lookup_insert_eq.
Qed.

Lemma advance_done i j st : done_at st j -> done_at (advance i st) j.
Proof.
  intros (t & Hj & Hp). destruct (decide (i = j)) as [->|Hne].
  - eexists. split; [by apply advance_lookup_eq|]. cbn. by rewrite Hp.
  - exists t. by rewrite advance_lookup_ne.
Qed.

Lemma iter_advance_lengths n i st :
  length (tasks (Nat.iter n (advance i) st)) = length (tasks st).
Proof.
  induction n as [|n IH]; [done|]. cbn.
  by rewrite (proj2 (advance_lengths _ _)).
Qed.

Lemma iter_advance_done n i j st :
  done_at st j -> done_at (Nat.iter n (advance i) st) j.
Proof. intros Hd. induction n as [|n IH]; [done|]. cbn. by apply advance_done. Qed.

Lemma iter_advance_eq n i st t :
  tasks st !! i = Some t ->
  tasks (Nat.iter n (advance i) st) !! i
  = Some {| pending := drop n (pending t); outcome := outcome t |}.
Proof.
  intros Hi. induction n as [|n IH].
  - cbn. rewrite drop_0. by destruct t.
  - rewrite Nat.iter_succ, (advance_lookup_eq _ _ _ IH). cbn.
    by rewrite drop_drop, Nat.add_1_r.
Qed.

Lemma await_task_done i st : i < length (tasks st) -> done_at (await_task st i) i.
Proof.
  intros Hlt. destruct (lookup_lt_is_Some_2 _ _ Hlt) as [t Hi].
  unfold await_task. rewrite Hi. cbn.
  eexists. split; [by apply iter_advance_eq|]. cbn. apply drop_all.
Qed.

Lemma await_tasks_done (l : list nat) st j :
  j < length (tasks st) ->
  j ∈ l \/ done_at st j ->
  done_at (foldl await_task st l) j.
Proof.
  revert st. induction l as [|i l IH]; intros st Hlt Hj.
  - destruct Hj as [Hj|Hj]; [by apply elem_of_nil in Hj|done].
  - cbn [foldl]. apply IH.
    + unfold await_task. by rewrite iter_advance_lengths.
    + destruct Hj as [[->|Hj]%elem_of_cons|Hj].
      * right. by apply await_task_done.
      * by left.
      * right. by apply iter_advance_done.
Qed.

Lemma await_tasks_lengths (l : list nat) st :
  length (tasks (foldl await_task st l)) = length (tasks st).
Proof.
  revert st. induction l as [|i l IH]; intros st; [done|].
  cbn [foldl]. rewrite IH. apply iter_advance_lengths.
Qed.

Lemma drain_settled st : settled (drain st).
Proof.
  unfold settled, drain. apply Forall_lookup. intros j t Hj.
  assert (j < length (tasks st)) as Hlt.
  { apply lookup_lt_Some in Hj.
    by rewrite (await_tasks_lengths (seq 0 (length (tasks st))) st) in Hj. }
  destruct (await_tasks_done (seq 0 (length (tasks st))) st j Hlt) as (t' & Hj' & Hp).
  { left. apply elem_of_seq. lia. }
  rewrite Hj in Hj'. by injection Hj' as <-.
Qed.

(** Once every task has settled, the buffers and the flag are what they
    were always going to be. *)
Lemma settled_final_buffers st :
  settled st -> length (renderers st) = length (tasks st) ->
  final_buffers st = renderers st.
Proof.
  unfold settled, final_buffers.
  generalize (renderers st) (tasks st). intros rs ts Hall.
  revert rs. induction Hall as [|t ts Ht Hall IH]; intros [|r rs] Hlen; try done.
  cbn. rewrite Ht. cbn. rewrite app_nil_r. f_equal. apply IH.
  by injection Hlen.
Qed.

Lemma settled_final_ok st : settled st -> final_ok st = ok st.
Proof.
  unfold settled, final_ok. intros Hall.
  replace (forallb id ((fun t => clean (pending t)) <$> tasks st)) with true;
    [apply andb_true_r|].
  symmetry. induction Hall as [|t ts Ht Hall IH]; [done|].
  cbn. by rewrite Ht, IH.
Qed.

Lemma advance_fate i st : fate (advance i st) = fate st.
Proof.
  unfold fate.
  rewrite advance_final_buffers, advance_final_ok, advance_outcomes.
  by destruct (advance_lengths i st) as [-> ->].
Qed.

Lemma step_fate st st' : step st st' -> fate st' = fate st.
Proof. intros []. apply advance_fate. Qed.

Lemma steps_fate st st' : rtc step st st' -> fate st' = fate st.
Proof.
  induction 1 as [|st1 st2 st3 Hstep _ IH]; [done|].
  rewrite IH. by apply step_fate.
Qed.

Lemma schedule_fate (schedule : list nat) st :
  fate (foldl (fun st i => advance i st) st schedule) = fate st.
Proof.
  revert st. induction schedule as [|i schedule IH]; intros st; [done|].
  cbn [foldl]. rewrite IH. apply advance_fate.
Qed.

Lemma await_task_fate i st : fate (await_task st i) = fate st.
Proof.
  unfold await_task. generalize (length (default [] (pending <$> tasks st !! i))).
  intros n. induction n as [|n IH]; [done|].
  rewrite Nat.iter_succ, advance_fate. exact IH.
Qed.

Lemma drain_fate st : fate (drain st) = fate st.
Proof.
  unfold drain. generalize (seq 0 (length (tasks st))). intros l.
  revert st. induction l as [|i l IH]; intros st; [done|].
  cbn [foldl]. rewrite IH. apply await_task_fate.
Qed.

Lemma settle_fate schedule st : fate (settle schedule st) = fate st.
Proof. unfold settle. rewrite drain_fate. apply schedule_fate. Qed.

(** A settled run shows its fate. *)
Lemma settled_fate st st0 :
  fate st = fate st0 -> settled st ->
  length (renderers st0) = length (tasks st0) ->
  renderers st = final_buffers st0 /\
  ok st = final_ok st0 /\
  outcome <$> tasks st = outcome <$> tasks st0.
Proof.
  intros Hfate Hsettled Hlen. unfold fate in Hfate.
  injection Hfate as Hb Ho Hout Hlt Hlr.
  rewrite <- Hb, <- Ho.
  rewrite settled_final_buffers, settled_final_ok by (done || congruence).
  done.
Qed.
End FanoutFacts.

(** ** The tasks the pipeline creates *)

Section TaskFacts.
Context `{Numbers} `{Graphql} `{Terminal} `{!Runtime}.
Context `{!ValidateLib} `{!SimilarLib} `{!PipelineLib}.
Implicit Types (ctx : Ctx) (command : gmap string jsval).
Implicit Types (commands : list (string * gmap string jsval)).

Lemma create_tasks_from ctx commands (st : Fanout) :
  foldl
    (fun st entry =>
       {| ok := ok st;
          renderers := renderers st ++ [[]];
          files := files st;
          tasks := tasks st ++ [running ctx entry] |})
    st commands
  = {| ok := ok st;
       renderers := renderers st ++ ((fun _ => []) <$> commands);
       files := files st;
       tasks := tasks st ++ (running ctx <$> commands) |}.
Proof.
  revert st. induction commands as [|entry commands IH]; intros st.
  - cbn. rewrite !app_nil_r. by destruct st.
  - cbn [foldl fmap list_fmap]. rewrite IH. cbn. by rewrite <- !app_assoc.
Qed.

Lemma create_tasks_eq ctx commands :
  create_tasks ctx commands
  = {| ok := true;
       renderers := (fun _ => []) <$> commands;
       files := [];
       tasks := running ctx <$> commands |}.
Proof. unfold create_tasks. apply (create_tasks_from ctx commands). Qed.

(** The [catch] block resolves, so a task never rejects. *)
Lemma task_resolves ctx taskName command : (task ctx taskName command).2 = inr tt.
Proof. unfold task. by apply try_catch_resolves. Qed.

Lemma create_tasks_lengths ctx commands :
  length (renderers (create_tasks ctx commands))
  = length (tasks (create_tasks ctx commands)).
Proof. rewrite create_tasks_eq. cbn. by rewrite !length_fmap. Qed.

Lemma create_tasks_final_buffers ctx commands :
  final_buffers (create_tasks ctx commands)
  = (fun entry => buffer_of (task ctx entry.1 entry.2).1) <$> commands.
Proof.
  rewrite create_tasks_eq. unfold final_buffers. cbn.
  induction commands as [|entry commands IH]; [done|].
  cbn. by rewrite IH.
Qed.

Lemma create_tasks_final_ok ctx commands :
  final_ok (create_tasks ctx commands)
  = forallb (fun entry => clean (task ctx entry.1 entry.2).1) commands.
Proof.
  rewrite create_tasks_eq. unfold final_ok. cbn.
  induction commands as [|entry commands IH]; [done|].
  cbn. by rewrite IH.
Qed.

Lemma create_tasks_outcomes ctx commands :
  outcome <$> tasks (create_tasks ctx commands) = (fun _ => inr tt) <$> commands.
Proof.
  rewrite create_tasks_eq. cbn. rewrite <- list_fmap_compose.
  apply list_fmap_ext. intros i entry _. cbn. apply task_resolves.
Qed.

Lemma rejection_none (st : Fanout) :
  Forall (fun o => o = inr tt) (outcome <$> tasks st) -> rejection st = None.
Proof.
  unfold rejection. induction (tasks st) as [|t ts IH]; [done|].
  cbn [fmap list_fmap]. intros [Ht Hall]%Forall_cons.
  cbn. rewrite Ht. by apply IH.
Qed.

(** Whatever the interleaving, a run that has settled shows, for each
    command in the order of the collection, the whole buffer of its task;
    the flag is up exactly when no task lowered it; no task rejected. *)
Lemma fanout_settled ctx commands (st : Fanout) :
  fate st = fate (create_tasks ctx commands) -> settled st ->
  renderers st = (fun entry => buffer_of (task ctx entry.1 entry.2).1) <$> commands /\
  ok st = forallb (fun entry => clean (task ctx entry.1 entry.2).1) commands /\
  rejection st = None.
Proof.
  intros Hfate Hsettled.
  destruct (settled_fate _ _ Hfate Hsettled (create_tasks_lengths ctx commands))
    as (Hb & Ho & Hout).
  rewrite create_tasks_final_buffers in Hb. rewrite create_tasks_final_ok in Ho.
  rewrite create_tasks_outcomes in Hout.
  split; [done|]. split; [done|].
  apply rejection_none. rewrite Hout. apply Forall_fmap, Forall_true. done.
Qed.

Lemma fanout_settle ctx commands schedule :
  let st := settle schedule (create_tasks ctx commands) in
  settled st /\
  renderers st = (fun entry => buffer_of (task ctx entry.1 entry.2).1) <$> commands /\
  ok st = forallb (fun entry => clean (task ctx entry.1 entry.2).1) commands /\
  rejection st = None.
Proof.
  intros st. assert (settled st) as Hs by apply drain_settled.
  split; [done|]. apply fanout_settled; [apply settle_fate|done].
Qed.
End TaskFacts.

(** ** The setup stages *)

Section SetupFacts.
Context `{Numbers} `{Graphql} `{Terminal} `{!Runtime}.
Context `{!ValidateLib} `{!SimilarLib} `{!PipelineLib}.

(** Which project the second stage stores, for any options and config:
    the default one when a project name is given, and whatever
    [getProject] answers to the missing name otherwise. *)
Lemma picking_project_cases (options : Options) (config : GraphQLConfig) :
  (truthy (options_project options) = true ->
   picking_project options config = getDefault config) /\
  (truthy (options_project options) = false ->
   picking_project options config = getProject config (options_project options)).
Proof. unfold picking_project. split; by intros ->. Qed.

Lemma setup_project (options : Options) (ctx : Ctx) :
  setup options = inr ctx ->
  exists config,
    loading_config options = inr config /\
    picking_project options config = inr (ctx_project ctx).
Proof.
  unfold setup. intros Hsetup.
  destruct (loading_config options) as [e|config]; [done|].
  exists config. split; [done|].
  destruct (picking_project options config) as [e|project]; [done|].
  destruct (checking_for_extension config project); [done|].
  destruct (loading_schema project); [done|].
  destruct (loading_documents project); [done|].
  by injection Hsetup as <-.
Qed.
End SetupFacts.

Section DemoSetup.
#[local] Existing Instance Demo.numbers.
#[local] Existing Instance Demo.runtime.
#[local] Existing Instance Demo.graphql.
#[local] Existing Instance Demo.terminal.
#[local] Existing Instance Demo.validate_lib.
#[local] Existing Instance Demo.similar_lib.
#[local] Existing Instance Demo.pipeline_lib.

(** C1, at the failing input: the config holds a default project (schema
    [schema.graphql]) and a project named [api] (schema [api.graphql]),
    and the entry point is run with the project name [api]. The project
    the second stage stores in the context is the default one, not the
    one the name selects. *)
Theorem picking_project_ignores_name :
  (exists ctx,
     setup Demo.options_api = inr ctx /\
     project_schema (ctx_project ctx) = VStr "schema.graphql") /\
  (exists named,
     getProject Demo.config (options_project Demo.options_api) = inr named /\
     project_schema named = VStr "api.graphql") /\
  picking_project Demo.options_api Demo.config = getDefault Demo.config.
Proof.
  split; [|split].
  - eexists. split; [reflexivity|]. reflexivity.
  - eexists. split; [reflexivity|]. reflexivity.
  - reflexivity.
Qed.
End DemoSetup.

(** ** [runValidate] *)

Section ValidateFacts.
Context `{Numbers} `{Graphql} `{!ValidateLib}.
Implicit Types (invalid : list InvalidDocument) (options : ValidateCliOptions).

Lemma bind_outcome {E A B} (m : M E A) (k : A -> M E B) :
  (bind m k).2 = match m.2 with inl e => inl e | inr a => (k a).2 end.
Proof. unfold bind. by destruct (m.2). Qed.

Lemma for_each_resolves {E A} (f : A -> M E unit) (l : list A) :
  (forall x, (f x).2 = inr tt) -> (for_each f l).2 = inr tt.
Proof.
  intros Hf. induction l as [|x l IH]; [done|].
  cbn [for_each]. by rewrite bind_outcome, Hf.
Qed.

Lemma nonempty_true {A} (l : list A) : nonempty l = true <-> l <> [].
Proof. by destruct l. Qed.

Lemma count_nonempty {A B} (f : A -> list B) (l : list A) :
  (0 <? length (filter (fun x => nonempty (f x) = true) l))%nat = true
  <-> Exists (fun x => f x <> []) l.
Proof.
  rewrite Nat.ltb_lt. induction l as [|x l IH].
  - cbn. rewrite Exists_nil. lia.
  - rewrite filter_cons, Exists_cons, <- nonempty_true.
    destruct (decide (nonempty (f x) = true)) as [Hx|Hx]; cbn; [|tauto].
    split; [by left|lia].
Qed.

Lemma countErrors_positive invalid :
  (0 <? countErrors invalid)%nat = true <-> Exists (fun doc => errors doc <> []) invalid.
Proof.
  unfold countErrors. destruct invalid as [|doc invalid].
  - cbn. rewrite Exists_nil. split; [done|tauto].
  - cbn [nonempty]. apply count_nonempty.
Qed.

Lemma countDeprecated_positive invalid :
  (0 <? countDeprecated invalid)%nat = true
  <-> Exists (fun doc => deprecated doc <> []) invalid.
Proof.
  unfold countDeprecated. destruct invalid as [|doc invalid].
  - cbn. rewrite Exists_nil. split; [done|tauto].
  - cbn [nonempty]. apply count_nonempty.
Qed.

(** How [runValidate] ends once the validator has answered. *)
Lemma report_outcome invalid options :
  (report invalid options).2
  = if (0 <? countErrors invalid)%nat
       || ((0 <? countDeprecated invalid)%nat && truthy (opt_deprecated options))
    then inl (JsError "Some documents are invalid")
    else inr tt.
Proof.
  unfold report. destruct invalid as [|doc invalid]; [done|].
  cbn [nonempty negb]. unfold mbind, M_bind.
  set (errorsCount := countErrors (doc :: invalid)).
  set (deprecated_ := countDeprecated (doc :: invalid)).
  rewrite bind_outcome.
  assert (forall (b : bool) (m1 m2 : M effect unit),
            m1.2 = inr tt -> m2.2 = inr tt -> (if b then m1 else m2).2 = inr tt)
    as Hif by (by intros []).
  assert (forall args, (emit args).2 = inr tt) as Hemit by done.
  rewrite Hif; cycle 1.
  { rewrite bind_outcome, Hemit. apply for_each_resolves. intros d. by apply Hif. }
  { by apply Hif. }
  rewrite bind_outcome. rewrite Hif; cycle 1.
  { rewrite bind_outcome, Hemit. apply for_each_resolves. intros d. by apply Hif. }
  { done. }
  by destruct (_ || _).
Qed.

(** C4. [runValidate] throws exactly when the validator reports a document
    with hard errors, or it reports a document with deprecated usages and
    the [deprecated] option is on (for the boolean the option is declared
    as, [truthy (VBool b) = b]); in every other case it returns. *)
Theorem runValidate_throws_iff (documents : list GSource) (schema : GraphQLSchema)
    options :
  let invalid := validateDocuments schema documents (validator_options options) in
  (throws (runValidate documents schema options) <->
     Exists (fun doc => errors doc <> []) invalid
     \/ (Exists (fun doc => deprecated doc <> []) invalid
         /\ truthy (opt_deprecated options) = true))
  /\ (returns (runValidate documents schema options) <->
      ~ (Exists (fun doc => errors doc <> []) invalid
         \/ (Exists (fun doc => deprecated doc <> []) invalid
             /\ truthy (opt_deprecated options) = true))).
Proof.
  intros invalid. unfold runValidate. fold invalid.
  unfold throws, returns. rewrite report_outcome.
  assert ((Exists (fun doc => errors doc <> []) invalid
           \/ (Exists (fun doc => deprecated doc <> []) invalid
               /\ truthy (opt_deprecated options) = true))
          <-> (0 <? countErrors invalid)%nat
              || ((0 <? countDeprecated invalid)%nat && truthy (opt_deprecated options))
              = true) as ->.
  { by rewrite orb_true_iff, andb_true_iff, countErrors_positive,
      countDeprecated_positive. }
  destruct (_ || _); split; split.
  - done.
  - intros _. by eexists.
  - by intros [[] ?].
  - intros Hno. by destruct Hno.
  - by intros [? ?].
  - done.
  - done.
  - intros _. by exists tt.
Qed.
End ValidateFacts.

(** ** One task *)

Section DispatchFacts.
Context `{Numbers} `{Graphql} `{Terminal} `{!Runtime}.
Context `{!ValidateLib} `{!SimilarLib} `{!PipelineLib}.
Implicit Types (ctx : Ctx) (command : gmap string jsval) (taskName : string).

Lemma buffer_of_app (acts1 acts2 : list action) :
  buffer_of (acts1 ++ acts2) = buffer_of acts1 ++ buffer_of acts2.
Proof. unfold buffer_of. apply omap_app. Qed.

Lemma clean_app (acts1 acts2 : list action) :
  clean (acts1 ++ acts2) = clean acts1 && clean acts2.
Proof. unfold clean. apply forallb_app. Qed.

Lemma buffer_of_lift (log : list effect) :
  buffer_of (Effect <$> log)
  = omap (fun e => match e with Render e => Some e | WriteFile _ _ => None end) log.
Proof.
  unfold buffer_of. induction log as [|[e|path content] log IH]; cbn; by rewrite ?IH.
Qed.

Lemma clean_lift (log : list effect) : clean (Effect <$> log) = true.
Proof. unfold clean. induction log as [|e log IH]; [done|]. by cbn. Qed.

(** The body starts with the banner, whatever the command. *)
Lemma task_body_banner ctx taskName command :
  exists rest,
    (task_body ctx taskName command).1 = Effect (Render (banner taskName)) :: rest.
Proof.
  unfold task_body, mbind, M_bind, bind at 1. cbn [lift emit fst snd fmap list_fmap].
  eexists. reflexivity.
Qed.

(** The body performs effects only: [ctx.ok] is written by the [catch]
    block alone. *)
Lemma task_body_clean ctx taskName command :
  clean (task_body ctx taskName command).1 = true.
Proof.
  assert (forall {A B} (m : M action A) (k : A -> M action B),
            clean m.1 = true -> (forall a, clean (k a).1 = true) ->
            clean (bind m k).1 = true) as Hbind.
  { intros A B m k Hm Hk. unfold bind. destruct (m.2); [done|].
    cbn. by rewrite clean_app, Hm, Hk. }
  assert (forall {A} (m : M effect A), clean (lift m).1 = true) as Hlift.
  { intros A m. apply clean_lift. }
  unfold task_body, mbind, M_bind.
  apply Hbind; [apply Hlift|]. intros _.
  repeat case_match; repeat (apply Hbind || intros _ || apply Hlift || done).
  all: unfold resolve_documents; by case_match.
Qed.

(** A task whose body returns is its body; a task whose body throws is its
    body, then [ctx.ok = false], then one error line; either way the task
    resolves. *)
Lemma task_returned ctx taskName command :
  (task_body ctx taskName command).2 = inr tt ->
  task ctx taskName command = task_body ctx taskName command.
Proof. intros Hbody. unfold task. by apply try_catch_passed with tt. Qed.

Lemma task_caught ctx taskName command e :
  (task_body ctx taskName command).2 = inl e ->
  task ctx taskName command
  = ((task_body ctx taskName command).1
       ++ [SetOkFalse; Effect (Render (Error (message_or_error e)))],
     inr tt).
Proof. intros Hbody. unfold task. by rewrite (try_catch_caught _ _ e). Qed.

Lemma task_caught_buffer ctx taskName command e :
  (task_body ctx taskName command).2 = inl e ->
  buffer_of (task ctx taskName command).1
  = buffer_of (task_body ctx taskName command).1 ++ [Error (message_or_error e)].
Proof. intros Hbody. rewrite (task_caught _ _ _ e Hbody). cbn. by rewrite buffer_of_app. Qed.

Lemma task_caught_clean ctx taskName command e :
  (task_body ctx taskName command).2 = inl e ->
  clean (task ctx taskName command).1 = false.
Proof.
  intros Hbody. rewrite (task_caught _ _ _ e Hbody). cbn.
  rewrite clean_app. cbn. apply andb_false_r.
Qed.

Lemma task_returned_clean ctx taskName command :
  (task_body ctx taskName command).2 = inr tt ->
  clean (task ctx taskName command).1 = true.
Proof. intros Hbody. rewrite task_returned by done. apply task_body_clean. Qed.
End DispatchFacts.

(** ** The run as a whole *)

Section RunFacts.
Context `{Numbers} `{Graphql} `{Terminal} `{!Runtime}.
Context `{!ValidateLib} `{!SimilarLib} `{!PipelineLib}.
Implicit Types (ctx : Ctx) (command : gmap string jsval) (taskName : string).
Implicit Types (commands : list (string * gmap string jsval)).

Lemma buffers_lookup ctx commands i taskName command :
  commands !! i = Some (taskName, command) ->
  buffers ctx commands !! i = Some (buffer_of (task ctx taskName command).1).
Proof. intros Hi. unfold buffers. by rewrite list_lookup_fmap, Hi. Qed.

(** One task that lowers the flag lowers it for the run. *)
Lemma one_failure ctx commands i taskName command :
  commands !! i = Some (taskName, command) ->
  clean (task ctx taskName command).1 = false ->
  forallb (fun entry => clean (task ctx entry.1 entry.2).1) commands = false.
Proof.
  intros Hi Hdirty. apply not_true_iff_false. intros Hall.
  rewrite forallb_forall in Hall.
  specialize (Hall (taskName, command)). cbn in Hall. rewrite Hdirty in Hall.
  assert (false = true) as Habs; [|done].
  apply Hall. apply list_elem_of_In. by eapply list_elem_of_lookup_2.
Qed.

(** Once the setup stages have passed, [run] flushes the whole buffer of
    every task, in the order of the collection, before it reports. *)
Lemma run_after_setup (options : Options) ctx commands (schedule : list nat) :
  setup options = inr ctx ->
  entries (Config.commands (inspector (transformProject (ctx_project ctx))))
  = inr commands ->
  let st := settle schedule (create_tasks ctx commands) in
  printed (run options schedule) = buffers ctx commands /\
  written (run options schedule) = files st /\
  exit_code (run options schedule)
  = (if forallb (fun entry => clean (task ctx entry.1 entry.2).1) commands
     then None else Some 1%N) /\
  reported (run options schedule)
  = (if forallb (fun entry => clean (task ctx entry.1 entry.2).1) commands
     then []
     else [Error (RStr "Something went wrong - check the above report"); Emit [nl]]).
Proof.
  intros Hsetup Hentries st. unfold run. rewrite Hsetup. cbv zeta.
  rewrite Hentries. fold st.
  destruct (fanout_settle ctx commands schedule) as (_ & Hb & Ho & Hr).
  fold st in Hb, Ho, Hr. rewrite Hr, Ho. fold (buffers ctx commands) in Hb.
  by destruct (forallb _ commands); cbn; rewrite Hb.
Qed.

(** When the loop over the collection throws, no task has started:
    nothing is flushed or written, and [run] reports what was thrown. *)
Lemma run_loop_throws (options : Options) ctx (error : exn) (schedule : list nat) :
  setup options = inr ctx ->
  entries (Config.commands (inspector (transformProject (ctx_project ctx))))
  = inl error ->
  run options schedule = report_failure error [] [].
Proof. intros Hsetup Hentries. unfold run. rewrite Hsetup. cbv zeta. by rewrite Hentries. Qed.
End RunFacts.

(** ** Failures stay inside their task *)

Section IsolationFacts.
Context `{Numbers} `{Graphql} `{Terminal} `{!Runtime}.
Context `{!ValidateLib} `{!SimilarLib} `{!PipelineLib}.
Implicit Types (ctx : Ctx) (command : gmap string jsval) (taskName : string).
Implicit Types (commands : list (string * gmap string jsval)).

(** What a task that lowers the flag does to a run, and what it leaves
    alone: every task, the failing one included, settles with its whole
    buffer, under any interleaving. *)
Lemma failure_is_local ctx commands i taskName command :
  commands !! i = Some (taskName, command) ->
  clean (task ctx taskName command).1 = false ->
  forall st,
    fate st = fate (create_tasks ctx commands) -> settled st ->
    ok st = false /\
    rejection st = None /\
    renderers st = buffers ctx commands /\
    forall j name' command',
      commands !! j = Some (name', command') ->
      renderers st !! j = Some (buffer_of (task ctx name' command').1).
Proof.
  intros Hi Hdirty st Hfate Hsettled.
  destruct (fanout_settled ctx commands st Hfate Hsettled) as (Hb & Ho & Hr).
  rewrite Ho, Hb, (one_failure ctx commands i taskName command Hi Hdirty).
  repeat split; try done.
  intros j name' command' Hj. by apply buffers_lookup.
Qed.

(** The same for a task whose body throws. *)
Lemma thrown_is_local ctx commands (schedule : list nat) i taskName command e :
  commands !! i = Some (taskName, command) ->
  (task_body ctx taskName command).2 = inl e ->
  (forall st,
     st = settle schedule (create_tasks ctx commands)
     \/ (rtc step (create_tasks ctx commands) st /\ settled st) ->
     settled st /\
     ok st = false /\
     rejection st = None /\
     renderers st !! i
     = Some (buffer_of (task_body ctx taskName command).1 ++ [Error (message_or_error e)]) /\
     forall j name' command',
       commands !! j = Some (name', command') ->
       renderers st !! j = Some (buffer_of (task ctx name' command').1)) /\
  (forall options : Options,
     setup options = inr ctx ->
     entries (Config.commands (inspector (transformProject (ctx_project ctx))))
     = inr commands ->
     printed (run options schedule) = buffers ctx commands /\
     exit_code (run options schedule) = Some 1%N).
Proof.
  intros Hi Hbody.
  pose proof (task_caught_clean ctx taskName command e Hbody) as Hdirty.
  split.
  - intros st Hst.
    assert (fate st = fate (create_tasks ctx commands) /\ settled st) as [Hfate Hs].
    { destruct Hst as [->|[Hsteps Hs]].
      - split; [apply settle_fate|apply drain_settled].
      - split; [by apply steps_fate|done]. }
    destruct (failure_is_local ctx commands i taskName command Hi Hdirty st Hfate Hs)
      as (Ho & Hr & Hb & Hall).
    repeat split; try done.
    rewrite (Hall i taskName command Hi). f_equal.
    by apply task_caught_buffer.
  - intros options Hsetup Hentries.
    destruct (run_after_setup options ctx commands schedule Hsetup Hentries)
      as (Hp & _ & Hx & _).
    cbv zeta in Hp, Hx. rewrite Hp, Hx.
    by rewrite (one_failure ctx _ i taskName command Hi Hdirty).
Qed.

(** C2. A task whose body throws catches the error itself: the task
    resolves, having set [ctx.ok] to false and appended one error line to
    its own buffer after whatever its body had emitted. Under every
    schedule, and under every interleaving of the tasks' steps, the run
    settles with no rejection, with the flag down, and with the complete
    buffer of every task of the collection; and [run] flushes them all. *)
Theorem task_failure_is_caught ctx commands (schedule : list nat) i taskName command e :
  commands !! i = Some (taskName, command) ->
  (task_body ctx taskName command).2 = inl e ->
  (task ctx taskName command).2 = inr tt /\
  (task ctx taskName command).1
  = (task_body ctx taskName command).1
      ++ [SetOkFalse; Effect (Render (Error (message_or_error e)))] /\
  (forall st,
     st = settle schedule (create_tasks ctx commands)
     \/ (rtc step (create_tasks ctx commands) st /\ settled st) ->
     settled st /\
     ok st = false /\
     rejection st = None /\
     renderers st !! i
     = Some (buffer_of (task_body ctx taskName command).1 ++ [Error (message_or_error e)]) /\
     forall j name' command',
       commands !! j = Some (name', command') ->
       renderers st !! j = Some (buffer_of (task ctx name' command').1)) /\
  (forall options : Options,
     setup options = inr ctx ->
     entries (Config.commands (inspector (transformProject (ctx_project ctx))))
     = inr commands ->
     printed (run options schedule) = buffers ctx commands /\
     exit_code (run options schedule) = Some 1%N).
Proof.
  intros Hi Hbody.
  split; [apply task_resolves|]. split; [by rewrite (task_caught _ _ _ e Hbody)|].
  by apply thrown_is_local.
Qed.
End IsolationFacts.

Section DemoIsolation.
#[local] Existing Instance Demo.numbers.
#[local] Existing Instance Demo.runtime.
#[local] Existing Instance Demo.graphql.
#[local] Existing Instance Demo.terminal.
#[local] Existing Instance Demo.validate_lib.
#[local] Existing Instance Demo.similar_lib.
#[local] Existing Instance Demo.pipeline_lib.

(** The default project of the small installation: its second task, a
    validate command without documents, throws; its buffer ends with the
    error line, and the three other buffers are flushed whole. *)
Lemma task_failure_is_caught_witness :
  setup Demo.options_default = inr Demo.ctx_default /\
  (task_body Demo.ctx_default "docs" {[ "command" := VStr "validate" ]}).2
  = inl (JsError "Documents are missing") /\
  ok (settle [3; 1; 0; 1]
        (create_tasks Demo.ctx_default
           (JsObject.own (transform_commands Demo.raw_commands_default)))) = false /\
  length (printed (run Demo.options_default [3; 1; 0; 1])) = 4 /\
  exit_code (run Demo.options_default [3; 1; 0; 1]) = Some 1%N.
Proof.
  split; [reflexivity|]. split; [reflexivity|].
  destruct (task_failure_is_caught Demo.ctx_default
              (JsObject.own (transform_commands Demo.raw_commands_default)) [3; 1; 0; 1]
              1 "docs" {[ "command" := VStr "validate" ]}
              (JsError "Documents are missing") eq_refl eq_refl)
    as (_ & _ & Hst & Hrun).
  destruct (Hst _ (or_introl eq_refl)) as (_ & Hok & _).
  destruct (Hrun Demo.options_default eq_refl eq_refl) as [Hp Hx].
  split; [exact Hok|]. split; [|exact Hx].
  rewrite Hp. reflexivity.
Defined.

(** Two schedules of the same run: the tasks complete in another order,
    and the report is the same. *)
Example run_schedules_agree :
  run Demo.options_default [3; 2; 1; 0; 3; 2; 1; 0] = run Demo.options_default [0; 0; 0].
Proof. reflexivity. Qed.

Example run_default_buffers :
  printed (run Demo.options_default [])
  = [[banner "diff";
      Emit ["Detected the following changes (1) between schemas:"];
      Error (RStr "Detected 1 breaking change")];
     [banner "docs"; Error (RStr "Documents are missing")];
     [banner "cov"; Emit ["Documents covered: 1"]];
     [banner "lint"; Error (RStr "Command lint not supported")]].
Proof. reflexivity. Qed.
End DemoIsolation.

(** ** Buffers are created and flushed in the order of the collection *)

Section OrderFacts.
Context `{Numbers} `{Graphql} `{Terminal} `{!Runtime}.
Context `{!ValidateLib} `{!SimilarLib} `{!PipelineLib}.
Implicit Types (ctx : Ctx) (command : gmap string jsval) (taskName : string).
Implicit Types (commands raw : list (string * gmap string jsval)).

(** Normalization keeps the entries in their order, each under its
    label, but for the entry labelled [__proto__]: that one is no entry of
    the collection it builds, it is its prototype. *)
Lemma transform_commands_map raw :
  JsObject.js_ordered (JsObject.keys raw) = true ->
  transform_commands raw
  = {| JsObject.own :=
         map (fun entry => (entry.1, normalized entry.1 entry.2))
           (filter (fun entry => entry.1 <> "__proto__") raw);
       JsObject.proto := JsObject.obj_get "__proto__" raw |}.
Proof.
  intros Hord. unfold transform_commands.
  etrans;
    [|etrans;
      [exact (obj_assign_fold normalized JsObject.empty_object raw Hord)|]].
  - generalize (@JsObject.empty_object (gmap string jsval)).
    induction raw as [|[name config] raw IH]; intros commands; [done|].
    cbn [foldl fst snd]. rewrite <- IH by (by apply js_ordered_cons in Hord as [? _]).
    unfold normalized. by destruct (isCommandName name).
  - cbn [JsObject.own JsObject.proto app]. f_equal.
    by destruct (JsObject.obj_get "__proto__" raw).
Qed.

Lemma filter_no_proto raw :
  "__proto__" ∉ JsObject.keys raw ->
  filter (fun entry : string * gmap string jsval => entry.1 <> "__proto__") raw = raw.
Proof.
  induction raw as [|[name config] raw IH]; [done|].
  unfold JsObject.keys. cbn [fmap list_fmap fst].
  intros [Hne Hnot]%not_elem_of_cons.
  rewrite filter_cons_True by (cbn; congruence). f_equal. by apply IH.
Qed.

(** Without a label [__proto__] the collection has no prototype of its
    own making, and the loop of [run] visits the normalized entries, in
    the order of the raw collection. *)
Lemma transform_commands_plain raw :
  JsObject.js_ordered (JsObject.keys raw) = true ->
  "__proto__" ∉ JsObject.keys raw ->
  transform_commands raw
  = {| JsObject.own := map (fun entry => (entry.1, normalized entry.1 entry.2)) raw;
       JsObject.proto := None |}.
Proof.
  intros Hord Hnot. rewrite transform_commands_map by done.
  by rewrite filter_no_proto, obj_get_None.
Qed.

(** What [commands[name]] holds after normalization, for a label of the
    raw collection. *)
Lemma transform_commands_read raw (name : string) (config : gmap string jsval) :
  JsObject.js_ordered (JsObject.keys raw) = true ->
  (name, config) ∈ raw ->
  JsObject.obj_read name (transform_commands raw) = Some (normalized name config).
Proof.
  intros Hord Hin. rewrite transform_commands_map by done.
  unfold JsObject.obj_read. cbn [JsObject.own JsObject.proto].
  destruct (bool_decide_reflect (name = "__proto__")) as [->|Hne].
  - by apply obj_get_elem_of.
  - apply obj_get_elem_of.
    + unfold JsObject.keys. rewrite <- list_fmap_compose.
      by apply (js_ordered_filter (fun entry => entry.1 <> "__proto__")).
    + apply list_elem_of_fmap. exists (name, config). split; [done|].
      by apply list_elem_of_filter.
Qed.

Lemma entries_plain raw :
  JsObject.js_ordered (JsObject.keys raw) = true ->
  "__proto__" ∉ JsObject.keys raw ->
  entries (transform_commands raw)
  = inr (map (fun entry => (entry.1, normalized entry.1 entry.2)) raw).
Proof. intros Hord Hnot. by rewrite transform_commands_plain. Qed.

End OrderFacts.

(** ** The branches of the dispatch *)

Section BranchFacts.
Context `{Numbers} `{Graphql} `{Terminal} `{!Runtime}.
Context `{!ValidateLib} `{!SimilarLib} `{!PipelineLib}.
Implicit Types (ctx : Ctx) (command config : gmap string jsval) (taskName : string).
Implicit Types (commands raw : list (string * gmap string jsval)).

Lemma is_string_true (v : jsval) (s : string) : is_string v s = true <-> v = VStr s.
Proof.
  destruct v; cbn; try (split; done).
  rewrite bool_decide_eq_true. split; [by intros ->|by intros [= ->]].
Qed.

Lemma field_unset command (k : string) : command !! k = None -> field command k = VUndefined.
Proof. unfold field. by intros ->. Qed.

Lemma truthy_pick_false (v : jsval) : truthy (pick v (VBool false)) = truthy v.
Proof. by destruct v. Qed.

(** The kind tag after [{command: name, ...config}]. *)
Lemma with_command_tag taskName config :
  field (with_command taskName config) "command"
  = match config !! "command" with
    | Some v => v
    | None => VStr taskName
    end.
Proof.
  unfold field, with_command.
  destruct (config !! "command") as [v|] eqn:Hc.
  - by rewrite (lookup_union_Some_l _ _ _ _ Hc).
  - by rewrite lookup_union_r, lookup_singleton_eq.
Qed.

Lemma with_command_tagged taskName config (v : jsval) :
  config !! "command" = Some v -> with_command taskName config = config.
Proof.
  intros Hc. unfold with_command. apply map_eq. intros k.
  destruct (config !! k) as [x|] eqn:Hk.
  - by rewrite (lookup_union_Some_l _ _ _ _ Hk).
  - rewrite lookup_union_r by done. apply lookup_singleton_ne. congruence.
Qed.

(** A coverage or validate task without documents from either side: the
    banner, then the failure. *)
Lemma task_without_documents ctx taskName command :
  isCoverageCommand command = true \/ isValidateCommand command = true ->
  ctx_documents ctx = None ->
  command !! "documents" = None ->
  task_body ctx taskName command
  = ([Effect (Render (banner taskName))], inl (JsError "Documents are missing")).
Proof.
  intros Hkind Hctx Hcmd.
  assert (missing_documents ctx command = true) as Hmissing.
  { unfold missing_documents. by rewrite Hctx, (field_unset _ _ Hcmd). }
  unfold task_body, isDiffCommand, isCoverageCommand, isValidateCommand in *.
  rewrite Hmissing.
  destruct Hkind as [Hk|Hk]; apply is_string_true in Hk; rewrite Hk; reflexivity.
Qed.

(** A task of a kind that is none of the four: the banner, then the
    failure that names the kind. *)
Lemma task_of_unknown_kind ctx taskName command :
  isDiffCommand command = false ->
  isCoverageCommand command = false ->
  isValidateCommand command = false ->
  isSimilarCommand command = false ->
  task_body ctx taskName command
  = ([Effect (Render (banner taskName))],
     inl (JsError ("Command " +:+ to_string (field command "command")
                     +:+ " not supported"))).
Proof. intros Hd Hc Hv Hs. unfold task_body. rewrite Hd, Hc, Hv, Hs. reflexivity. Qed.

(** C8. A coverage or validate task for which the context holds no
    documents and the command names none fails with [Documents are
    missing], and the failure stays in the task: its buffer is the banner
    and that one error line, the flag goes down, and under every schedule
    and interleaving each task of the collection settles with its whole
    buffer, which [run] flushes. *)
Theorem missing_documents_is_local ctx commands (schedule : list nat) i taskName command :
  commands !! i = Some (taskName, command) ->
  isCoverageCommand command = true \/ isValidateCommand command = true ->
  ctx_documents ctx = None ->
  command !! "documents" = None ->
  task ctx taskName command
  = ([Effect (Render (banner taskName)); SetOkFalse;
      Effect (Render (Error (RStr "Documents are missing")))],
     inr tt) /\
  (forall st,
     st = settle schedule (create_tasks ctx commands)
     \/ (rtc step (create_tasks ctx commands) st /\ settled st) ->
     settled st /\
     ok st = false /\
     rejection st = None /\
     renderers st !! i = Some [banner taskName; Error (RStr "Documents are missing")] /\
     forall j name' command',
       commands !! j = Some (name', command') ->
       renderers st !! j = Some (buffer_of (task ctx name' command').1)) /\
  (forall options : Options,
     setup options = inr ctx ->
     entries (Config.commands (inspector (transformProject (ctx_project ctx))))
     = inr commands ->
     printed (run options schedule) = buffers ctx commands /\
     exit_code (run options schedule) = Some 1%N).
Proof.
  intros Hi Hkind Hctx Hcmd.
  pose proof (task_without_documents ctx taskName command Hkind Hctx Hcmd) as Hbody.
  assert ((task_body ctx taskName command).2 = inl (JsError "Documents are missing"))
    as Hthrown by (by rewrite Hbody).
  split; [by rewrite (task_caught _ _ _ _ Hthrown), Hbody|].
  destruct (thrown_is_local ctx commands schedule i taskName command _ Hi Hthrown)
    as [Hst Hrun].
  split; [|done].
  intros st Hcase. destruct (Hst st Hcase) as (? & ? & ? & Hbuf & ?).
  rewrite Hbody in Hbuf. done.
Qed.

(** When what normalization assigns is of none of the four kinds, it is
    the body as the config file gives it. *)
Lemma normalized_unknown_kind taskName config :
  isDiffCommand (normalized taskName config) = false ->
  isCoverageCommand (normalized taskName config) = false ->
  isValidateCommand (normalized taskName config) = false ->
  isSimilarCommand (normalized taskName config) = false ->
  normalized taskName config = config.
Proof.
  unfold normalized. destruct (isCommandName taskName) eqn:Hname; [|done].
  destruct (config !! "command") as [v|] eqn:Htag.
  { intros _ _ _ _. by apply (with_command_tagged _ _ v). }
  unfold isDiffCommand, isCoverageCommand, isValidateCommand, isSimilarCommand.
  rewrite with_command_tag, Htag. intros Hd Hc Hv Hs. exfalso.
  apply bool_decide_eq_true in Hname. unfold supportedCommands in Hname.
  cbn in Hd, Hc, Hv, Hs.
  repeat (apply elem_of_cons in Hname as [->|Hname]; [done|]).
  by apply elem_of_nil in Hname.
Qed.

End BranchFacts.

Section ValidateDispatch.
Context `{Numbers} `{Graphql} `{Terminal} `{!Runtime}.
Context `{!ValidateLib} `{!SimilarLib} `{!PipelineLib}.
Implicit Types (ctx : Ctx) (command : gmap string jsval) (taskName : string).

(** The validate branch, once the documents are there. *)
Lemma task_validate ctx taskName command (documents : list Source) :
  isValidateCommand command = true ->
  missing_documents ctx command = false ->
  (resolve_documents ctx command).2 = inr documents ->
  task_body ctx taskName command
  = (lift (emit [nl +:+ chalk_bgBlue_white " command "; chalk_bold taskName]) ;;
     lift (report
             (validateDocuments (ctx_schema ctx) (map to_source documents)
                (validator_options (validate_task_options command)))
             (validate_task_options command))).
Proof.
  intros Hv Hmissing Hdocs.
  unfold task_body, isDiffCommand, isCoverageCommand, isValidateCommand in *.
  apply is_string_true in Hv. rewrite Hv, Hmissing. cbn [is_string].
  rewrite !bool_decide_eq_false_2 by done.
  unfold mbind, M_bind. f_equal.
  assert (resolve_documents ctx command = ([], inr documents)) as ->.
  { unfold resolve_documents in *. destruct (ctx_documents ctx); cbn in *.
    - by injection Hdocs as ->.
    - unfold await in *. cbn in Hdocs. by rewrite Hdocs. }
  reflexivity.
Qed.

(** C7. A validate task hands [runValidate] the flags of its command with
    [false] for the ones left out, and [runValidate] hands the document
    validator: [strictFragments], the negation of [noStrictFragments], so
    true when that is left out; [apollo], false when left out;
    [keepClientFields], false, and [maxDepth], undefined (no limit), as the
    task passes neither. The same defaults hold for every options object
    [runValidate] is called with. *)
Theorem validate_options_defaults ctx taskName command (documents : list Source) :
  isValidateCommand command = true ->
  missing_documents ctx command = false ->
  (resolve_documents ctx command).2 = inr documents ->
  let handed := validator_options (validate_task_options command) in
  task_body ctx taskName command
  = (lift (emit [nl +:+ chalk_bgBlue_white " command "; chalk_bold taskName]) ;;
     lift (report
             (validateDocuments (ctx_schema ctx) (map to_source documents) handed)
             (validate_task_options command))) /\
  strictFragments handed = negb (truthy (field command "noStrictFragments")) /\
  (command !! "noStrictFragments" = None -> strictFragments handed = true) /\
  (command !! "apollo" = None -> apollo handed = VBool false) /\
  keepClientFields handed = VBool false /\
  maxDepth handed = VUndefined /\
  (forall options : ValidateCliOptions,
     strictFragments (validator_options options)
     = negb (truthy (opt_noStrictFragments options)) /\
     (opt_noStrictFragments options = VUndefined ->
      strictFragments (validator_options options) = true) /\
     (opt_apollo options = VUndefined ->
      apollo (validator_options options) = VBool false) /\
     (opt_keepClientFields options = VUndefined ->
      keepClientFields (validator_options options) = VBool false) /\
     (opt_maxDepth options = VUndefined ->
      maxDepth (validator_options options) = VUndefined)).
Proof.
  intros Hv Hmissing Hdocs handed.
  split; [by apply task_validate|].
  unfold handed, validator_options, validate_task_options. cbn.
  split; [by rewrite truthy_pick_false|].
  split; [intros Hunset; by rewrite (field_unset _ _ Hunset)|].
  split; [intros Hunset; by rewrite (field_unset _ _ Hunset)|].
  split; [done|]. split; [done|].
  intros options. split; [done|].
  repeat split; by intros ->.
Qed.
End ValidateDispatch.

Section DemoBranches.
#[local] Existing Instance Demo.numbers.
#[local] Existing Instance Demo.runtime.
#[local] Existing Instance Demo.graphql.
#[local] Existing Instance Demo.terminal.
#[local] Existing Instance Demo.validate_lib.
#[local] Existing Instance Demo.similar_lib.
#[local] Existing Instance Demo.pipeline_lib.

(** The validate command [docs] of the default project, which declares no
    documents: the task fails on its own and the run goes on. *)
Lemma missing_documents_is_local_witness :
  task Demo.ctx_default "docs" {[ "command" := VStr "validate" ]}
  = ([Effect (Render (banner "docs")); SetOkFalse;
      Effect (Render (Error (RStr "Documents are missing")))],
     inr tt) /\
  printed (run Demo.options_default [0; 1; 2; 3])
  = buffers Demo.ctx_default
      (JsObject.own (transform_commands Demo.raw_commands_default)) /\
  exit_code (run Demo.options_default [0; 1; 2; 3]) = Some 1%N.
Proof.
  destruct (missing_documents_is_local Demo.ctx_default
              (JsObject.own (transform_commands Demo.raw_commands_default)) [0; 1; 2; 3]
              1 "docs" {[ "command" := VStr "validate" ]}
              eq_refl (or_intror eq_refl) eq_refl eq_refl)
    as (Htask & _ & Hrun).
  split; [exact Htask|]. exact (Hrun Demo.options_default eq_refl eq_refl).
Defined.


(** A validate command with documents named by the command itself and
    [noStrictFragments] switched on. *)
Lemma validate_options_defaults_witness :
  strictFragments
    (validator_options
       (validate_task_options
          (<[ "command" := VStr "validate" ]>
             (<[ "documents" := VStr "docs/*.graphql" ]>
                {[ "noStrictFragments" := VBool true ]}))))
  = false /\
  apollo
    (validator_options
       (validate_task_options
          (<[ "command" := VStr "validate" ]>
             (<[ "documents" := VStr "docs/*.graphql" ]>
                {[ "noStrictFragments" := VBool true ]}))))
  = VBool false.
Proof.
  set (command := <[ "command" := VStr "validate" ]>
                    (<[ "documents" := VStr "docs/*.graphql" ]>
                       {[ "noStrictFragments" := VBool true ]})).
  assert (isValidateCommand command = true) as Hv by (vm_compute; reflexivity).
  assert (missing_documents Demo.ctx_default command = false) as Hmissing
    by (vm_compute; reflexivity).
  assert ((resolve_documents Demo.ctx_default command).2 = inr Demo.documents) as Hdocs
    by (vm_compute; reflexivity).
  assert (command !! "apollo" = None) as Hunset by (vm_compute; reflexivity).
  destruct (validate_options_defaults Demo.ctx_default "docs" command
              Demo.documents Hv Hmissing Hdocs)
    as (_ & Hstrict & _ & Hapollo & _).
  split; [rewrite Hstrict; vm_compute; reflexivity|]. exact (Hapollo Hunset).
Defined.
End DemoBranches.

(** ** [runSimilar] *)

Section SimilarFacts.
Context `{Numbers} `{Graphql} `{Terminal} `{!Runtime} `{!SimilarLib}.

(** C10. When the similarity search finds nothing, [runSimilar] emits the
    one line [No similar types found] and returns: nothing is written and
    nothing is thrown, whatever [write] is, so neither the check of the
    path nor the check of the extension is reached. *)
Theorem runSimilar_nothing_found (schema : GraphQLSchema) (name threshold write : jsval) :
  findSimilar schema name threshold = inr [] ->
  runSimilar schema name threshold write
  = ([Render (Emit [nl +:+ "No similar types found"])], inr tt).
Proof. intros Hempty. unfold runSimilar. by rewrite Hempty. Qed.
End SimilarFacts.

Section DemoSimilar.
#[local] Existing Instance Demo.numbers.
#[local] Existing Instance Demo.runtime.
#[local] Existing Instance Demo.graphql.
#[local] Existing Instance Demo.terminal.
#[local] Existing Instance Demo.similar_lib.

(** A schema without similar types, and a write path that is neither a
    valid path nor of a supported extension. *)
Lemma runSimilar_nothing_found_witness :
  findSimilar "type Query" VUndefined VUndefined = inr [] /\
  isValidPath "out/*.txt" = false /\
  runSimilar "type Query" VUndefined VUndefined (VStr "out/*.txt")
  = ([Render (Emit [nl +:+ "No similar types found"])], inr tt).
Proof.
  split; [reflexivity|]. split; [reflexivity|].
  exact (runSimilar_nothing_found "type Query" VUndefined VUndefined
           (VStr "out/*.txt") eq_refl).
Defined.
End DemoSimilar.

(** ** Shorthand and explicit entries *)

Section NormalizationFacts.
Context `{Numbers}.
Implicit Types (B spec : gmap string jsval) (K L : string).
Implicit Types (raw : list (string * gmap string jsval)).

(** The tag written by the shorthand form lands exactly when the body has
    none of its own, or has the same one. *)
Lemma with_command_insert K B :
  B !! "command" = None \/ B !! "command" = Some (VStr K) ->
  with_command K B = <[ "command" := VStr K ]> B.
Proof.
  intros Htag. unfold with_command. apply map_eq. intros k.
  destruct (decide (k = "command")) as [->|Hne].
  - rewrite lookup_insert_eq. destruct Htag as [Htag|Htag].
    + by rewrite lookup_union_r, lookup_singleton_eq.
    + by rewrite (lookup_union_Some_l _ _ _ _ Htag).
  - rewrite lookup_insert_ne by done.
    destruct (B !! k) as [x|] eqn:Hk.
    + by rewrite (lookup_union_Some_l _ _ _ _ Hk).
    + rewrite lookup_union_r by done. by apply lookup_singleton_ne.
Qed.

End NormalizationFacts.

Section DemoNormalization.
#[local] Existing Instance Demo.numbers.
#[local] Existing Instance Demo.runtime.


End DemoNormalization.

(** ** Writing the similarity results *)

Section SimilarWriteFacts.
Context `{Numbers} `{Graphql} `{Terminal} `{!Runtime} `{!SimilarLib}.
Implicit Types (similarMap : list (string * BestMatch)).

Lemma for_each_emit {A} (f : A -> list string) (l : list A) :
  for_each (fun x => emit (f x)) l = ((fun x => Render (Emit (f x))) <$> l, inr tt).
Proof.
  induction l as [|x l IH]; [done|]. cbn [for_each]. by rewrite IH.
Qed.

Lemma for_each_concat {A} (f : A -> M effect unit) (g : A -> list effect) (l : list A) :
  (forall x, x ∈ l -> f x = (g x, inr tt)) ->
  for_each f l = (concat (g <$> l), inr tt).
Proof.
  intros Hf. induction l as [|x l IH]; [done|].
  cbn [for_each]. rewrite IH, Hf.
  - reflexivity.
  - apply list_elem_of_here.
  - intros y Hy. apply Hf. by apply list_elem_of_further.
Qed.

Lemma bind_await {E A B} (a : A) (k : A -> M E B) : bind (await (inr a)) k = k a.
Proof. unfold bind, await. cbn. by destruct (k a). Qed.

Lemma bind_await_throw {E A B} (e : exn) (k : A -> M E B) :
  bind (await (inl e)) k = ([], inl e).
Proof. reflexivity. Qed.

Lemma file_writes_app (log1 log2 : list effect) :
  file_writes (log1 ++ log2) = file_writes log1 ++ file_writes log2.
Proof. unfold file_writes. by rewrite omap_app. Qed.

Lemma listing_writes_nothing (schema : GraphQLSchema) similarMap :
  file_writes (concat (listing_of schema <$> similarMap)) = [].
Proof.
  induction similarMap as [|entry similarMap IH]; [done|].
  cbn [fmap list_fmap concat]. rewrite file_writes_app, IH, app_nil_r.
  unfold listing_of, file_writes. cbn [omap]. by induction (ratings entry.2).
Qed.

(** The guard of the two loops holds at every key of a map in which no
    type is named [hasOwnProperty], and the call throws at every key of a
    map in which one is. *)
Lemma has_own_property_plain similarMap (typeName : string) :
  "hasOwnProperty" ∉ JsObject.keys similarMap ->
  typeName ∈ JsObject.keys similarMap ->
  has_own_property similarMap typeName = inr true.
Proof.
  intros Hplain Hin. unfold has_own_property.
  by rewrite bool_decide_eq_false_2, bool_decide_eq_true_2.
Qed.

Lemma has_own_property_shadowed similarMap (typeName : string) :
  "hasOwnProperty" ∈ JsObject.keys similarMap ->
  has_own_property similarMap typeName
  = inl (not_a_function "similarMap.hasOwnProperty").
Proof. intros Hin. unfold has_own_property. by rewrite bool_decide_eq_true_2. Qed.

Lemma key_of_entry similarMap (entry : string * BestMatch) :
  entry ∈ similarMap -> entry.1 ∈ JsObject.keys similarMap.
Proof. intros Hin. apply list_elem_of_fmap. by exists entry. Qed.

(** The loop of [runSimilar] lists every type and comes to its end, or
    throws at the first key. *)
Lemma print_matches_listing (schema : GraphQLSchema) similarMap :
  "hasOwnProperty" ∉ JsObject.keys similarMap ->
  print_matches schema similarMap
  = (concat (listing_of schema <$> similarMap), inr tt).
Proof.
  intros Hplain. unfold print_matches. apply for_each_concat.
  intros [typeName matches] Hin. cbn [fst snd].
  rewrite has_own_property_plain by (done || by apply (key_of_entry _ _ Hin)).
  unfold mbind, M_bind. rewrite for_each_emit. reflexivity.
Qed.

Lemma print_matches_shadowed (schema : GraphQLSchema) similarMap :
  similarMap <> [] ->
  "hasOwnProperty" ∈ JsObject.keys similarMap ->
  print_matches schema similarMap
  = ([], inl (not_a_function "similarMap.hasOwnProperty")).
Proof.
  intros Hne Hshadow. destruct similarMap as [|entry rest]; [done|].
  unfold print_matches. cbn [for_each].
  by rewrite (has_own_property_shadowed _ entry.1 Hshadow).
Qed.

(** [transformMap] keeps the keys and their order, and turns each entry
    into the list of its best match followed by its other ratings; the
    entry of a type named [__proto__] becomes the prototype of the
    results. *)
Lemma transformMap_guarded similarMap (l : list (string * BestMatch))
    (start : JsObject.object (list SimilarRecord)) :
  (forall entry, entry ∈ l -> has_own_property similarMap entry.1 = inr true) ->
  foldl
    (fun results entry =>
       match results with
       | inl e => inl e
       | inr results =>
           match has_own_property similarMap entry.1 with
           | inl e => inl e
           | inr true =>
               inr (JsObject.obj_assign entry.1
                      ([] ++ [trasformResult (bestMatch entry.2)]
                          ++ map trasformResult (ratings entry.2))
                      results)
           | inr false => inr results
           end
       end)
    (inr start) l
  = inr (foldl
           (fun results entry =>
              JsObject.obj_assign entry.1
                (trasformResult (bestMatch entry.2)
                   :: map trasformResult (ratings entry.2))
                results)
           start l).
Proof.
  revert start. induction l as [|entry l IH]; intros start Hguard; [done|].
  cbn [foldl]. rewrite (Hguard entry) by apply list_elem_of_here.
  apply IH. intros entry' Hin. apply Hguard. by apply list_elem_of_further.
Qed.

Lemma transformMap_map similarMap :
  JsObject.js_ordered (JsObject.keys similarMap) = true ->
  "hasOwnProperty" ∉ JsObject.keys similarMap ->
  transformMap similarMap
  = inr {| JsObject.own :=
             map (fun entry =>
                    (entry.1,
                     trasformResult (bestMatch entry.2)
                       :: map trasformResult (ratings entry.2)))
               (filter (fun entry => entry.1 <> "__proto__") similarMap);
           JsObject.proto :=
             match JsObject.obj_get "__proto__" similarMap with
             | Some result =>
                 Some (trasformResult (bestMatch result)
                         :: map trasformResult (ratings result))
             | None => None
             end |}.
Proof.
  intros Hord Hplain. unfold transformMap.
  rewrite (transformMap_guarded similarMap similarMap JsObject.empty_object).
  - f_equal.
    exact (obj_assign_fold
             (fun _ result =>
                trasformResult (bestMatch result) :: map trasformResult (ratings result))
             JsObject.empty_object similarMap Hord).
  - intros entry Hin. apply has_own_property_plain; [done|by apply key_of_entry].
Qed.

Lemma filter_plain_keys {W} (l : list (string * W)) :
  "__proto__" ∉ JsObject.keys l ->
  filter (fun entry => entry.1 <> "__proto__") l = l.
Proof.
  induction l as [|entry l IH]; [done|].
  unfold JsObject.keys. cbn [fmap list_fmap]. intros Hnot.
  apply not_elem_of_cons in Hnot as [Hne Hnot].
  rewrite filter_cons_True by (by intros Heq; apply Hne). f_equal. by apply IH.
Qed.

Lemma js_of_record_eq (r : SimilarRecord) :
  js_of_record r
  = VObj [("typename", VStr (typename r)); ("rating", VNum (record_rating r))].
Proof. reflexivity. Qed.

(** The result map is a value that JSON carries, when its ratings are. *)
Lemma js_of_results_safe similarMap :
  JsObject.js_ordered (JsObject.keys similarMap) = true ->
  (forall typeName matches r,
     (typeName, matches) ∈ similarMap ->
     r ∈ bestMatch matches :: ratings matches ->
     json_number (rating r)) ->
  json_safe
    (js_of_results
       (map (fun entry =>
               (entry.1,
                trasformResult (bestMatch entry.2)
                  :: map trasformResult (ratings entry.2)))
          similarMap)).
Proof.
  intros Hord Hratings.
  unfold js_of_results. apply json_safe_obj. split.
  - unfold JsObject.keys in *. rewrite <- !list_fmap_compose.
    erewrite list_fmap_ext; [exact Hord|]. by intros i [k v] _.
  - apply Forall_forall. intros v Hv.
    apply list_elem_of_fmap in Hv as ([k v'] & -> & Hv).
    apply list_elem_of_fmap in Hv as (kv & [= -> ->] & Hv).
    apply list_elem_of_fmap in Hv as ([typeName matches] & -> & Hin).
    cbn [fst snd]. apply json_safe_arr, Forall_forall. intros x Hx.
    change (trasformResult (bestMatch matches) :: map trasformResult (ratings matches))
      with (map trasformResult (bestMatch matches :: ratings matches)) in Hx.
    apply list_elem_of_fmap in Hx as (record & -> & Hx).
    apply list_elem_of_fmap in Hx as (r & -> & Hr).
    rewrite js_of_record_eq. apply json_safe_obj. split; [reflexivity|].
    cbn [fmap list_fmap snd].
    repeat (apply List.Forall_cons || apply List.Forall_nil); [done|].
    by apply (Hratings typeName matches r).
Qed.

End SimilarWriteFacts.

Section DemoSimilarWrite.
#[local] Existing Instance Demo.numbers.
#[local] Existing Instance Demo.runtime.
#[local] Existing Instance Demo.graphql.
#[local] Existing Instance Demo.terminal.
#[local] Existing Instance Demo.similar_lib.
#[local] Existing Instance Demo.similar_lib_doubles.


End DemoSimilarWrite.

(** ** How a run ends *)

Section RunShape.
Context `{Numbers} `{Graphql} `{Terminal} `{!Runtime}.
Context `{!ValidateLib} `{!SimilarLib} `{!PipelineLib}.
Implicit Types (ctx : Ctx) (command : gmap string jsval) (taskName : string).
Implicit Types (commands : list (string * gmap string jsval)).

Lemma clean_task_iff ctx taskName command :
  clean (task ctx taskName command).1 = true
  <-> (task_body ctx taskName command).2 = inr tt.
Proof.
  destruct (task_body ctx taskName command).2 as [e|[]] eqn:Hbody.
  - rewrite (task_caught_clean _ _ _ e Hbody). split; discriminate.
  - by rewrite (task_returned_clean _ _ _ Hbody).
Qed.

Lemma all_clean_iff ctx commands :
  forallb (fun entry => clean (task ctx entry.1 entry.2).1) commands = true
  <-> Forall (fun entry => (task_body ctx entry.1 entry.2).2 = inr tt) commands.
Proof.
  induction commands as [|entry commands IH]; cbn [forallb].
  - split; [intros _; constructor|done].
  - rewrite andb_true_iff, IH, clean_task_iff. split.
    + intros [? ?]. by constructor.
    + intros Hall. by inversion Hall.
Qed.

(** X1. [run] returns without calling [process.exit] exactly when every
    setup stage passes, the loop over the command collection creates its
    tasks, and the body of every command task returns; in every other case
    it exits with status 1. *)
Theorem run_succeeds_iff (options : Options) (schedule : list nat) :
  (exit_code (run options schedule) = None
   <-> exists ctx commands,
         setup options = inr ctx /\
         entries (Config.commands (inspector (transformProject (ctx_project ctx))))
         = inr commands /\
         Forall (fun entry => (task_body ctx entry.1 entry.2).2 = inr tt) commands) /\
  (exit_code (run options schedule) = None
   \/ exit_code (run options schedule) = Some 1%N).
Proof.
  destruct (setup options) as [e|ctx] eqn:Hsetup.
  { unfold run. rewrite Hsetup. cbn. split; [|by right].
    split; [discriminate|]. by intros (ctx & commands & Hctx & _). }
  destruct (entries (Config.commands (inspector (transformProject (ctx_project ctx)))))
    as [e|commands] eqn:Hentries.
  { rewrite (run_loop_throws options ctx e schedule Hsetup Hentries).
    cbn [report_failure exit_code].
    split; [|by right]. split; [discriminate|].
    intros (ctx' & commands & Hctx' & Hentries' & _).
    assert (ctx' = ctx) as -> by congruence. congruence. }
  destruct (run_after_setup options ctx commands schedule Hsetup Hentries)
    as (_ & _ & Hexit & _).
  rewrite Hexit. split; [|destruct (forallb _ _); [by left|by right]].
  split.
  - intros Hnone. exists ctx, commands. split; [done|]. split; [done|].
    apply all_clean_iff. by destruct (forallb _ _).
  - intros (ctx' & commands' & Hctx' & Hentries' & Hall).
    assert (ctx' = ctx) as -> by congruence.
    assert (commands' = commands) as -> by congruence.
    apply all_clean_iff in Hall. by rewrite Hall.
Qed.

(** X2. The flushed buffers, the final report and the exit status of
    [run] are the same whatever interleaving the event loop chooses. *)
Theorem run_report_is_schedule_independent (options : Options)
    (schedule schedule' : list nat) :
  printed (run options schedule) = printed (run options schedule') /\
  reported (run options schedule) = reported (run options schedule') /\
  exit_code (run options schedule) = exit_code (run options schedule').
Proof.
  destruct (setup options) as [e|ctx] eqn:Hsetup.
  { unfold run. by rewrite Hsetup. }
  destruct (entries (Config.commands (inspector (transformProject (ctx_project ctx)))))
    as [e|commands] eqn:Hentries.
  { by rewrite !(run_loop_throws options ctx e _ Hsetup Hentries). }
  destruct (run_after_setup options ctx commands schedule Hsetup Hentries)
    as (Hp & _ & He & Hr).
  destruct (run_after_setup options ctx commands schedule' Hsetup Hentries)
    as (Hp' & _ & He' & Hr').
  by rewrite Hp, Hp', He, He', Hr, Hr'.
Qed.

(** X3. A project whose config has no [inspector] extension stops the run
    at the third stage: no task is created, nothing is flushed or written,
    the failure names the config file and the process exits with 1,
    whether or not the schema and the documents could have been loaded. *)
Theorem run_without_extension (options : Options) (schedule : list nat)
    (config : GraphQLConfig) (project : GraphQLProjectConfig) :
  loading_config options = inr config ->
  picking_project options config = inr project ->
  hasExtension project "inspector" = false ->
  run options schedule
  = {| printed := [];
       reported :=
         [Error (RStr ("You GraphQL Config has no 'inspector' extension: "
                         +:+ filepath config));
          Emit [nl]];
       written := [];
       exit_code := Some 1%N |}.
Proof.
  intros Hconfig Hproject Hext.
  unfold run, setup. rewrite Hconfig, Hproject.
  unfold checking_for_extension. rewrite Hext. reflexivity.
Qed.
End RunShape.

(** ** What the interleaving can and cannot change *)

Section FanoutOrder.
Context `{Numbers} `{Graphql} `{Terminal} `{!Runtime}.
Context `{!ValidateLib} `{!SimilarLib} `{!PipelineLib}.
Implicit Types (st : Fanout).

Lemma concat_insert_cons {A} (ls : list (list A)) i (x : A) (l : list A) :
  ls !! i = Some (x :: l) -> concat ls ≡ₚ x :: concat (<[i := l]> ls).
Proof.
  revert i. induction ls as [|l0 ls IH]; intros [|i] Hi; try done.
  - cbn in Hi. injection Hi as ->. done.
  - cbn in *. rewrite (IH i Hi). by rewrite Permutation_middle.
Qed.

Lemma advance_owed i st : owed (advance i st) ≡ₚ owed st.
Proof.
  unfold advance.
  destruct (tasks st !! i) as [[[|a rest] o]|] eqn:Hi; try done.
  assert (((fun t => writes_of (pending t)) <$> tasks st) !! i
          = Some (writes_of (a :: rest))) as Hlook.
  { by rewrite list_lookup_fmap, Hi. }
  assert ((fun t => writes_of (pending t))
            <$> <[i := {| pending := rest; outcome := o |}]> (tasks st)
          = <[i := writes_of rest]> ((fun t => writes_of (pending t)) <$> tasks st))
    as Hins.
  { by rewrite list_fmap_insert. }
  unfold owed.
  destruct a as [[e|path content]|]; cbn [perform files tasks]; rewrite Hins.
  - by rewrite list_insert_id.
  - rewrite (concat_insert_cons _ i (path, content) (writes_of rest) Hlook).
    by rewrite <- app_assoc.
  - by rewrite list_insert_id.
Qed.

Lemma schedule_owed (schedule : list nat) st :
  owed (foldl (fun st i => advance i st) st schedule) ≡ₚ owed st.
Proof.
  revert st. induction schedule as [|i schedule IH]; intros st; [done|].
  cbn [foldl]. rewrite IH. apply advance_owed.
Qed.

Lemma await_task_owed i st : owed (await_task st i) ≡ₚ owed st.
Proof.
  unfold await_task. generalize (length (default [] (pending <$> tasks st !! i))).
  intros n. induction n as [|n IH]; [done|].
  rewrite Nat.iter_succ, advance_owed. exact IH.
Qed.

Lemma drain_owed st : owed (drain st) ≡ₚ owed st.
Proof.
  unfold drain. generalize (seq 0 (length (tasks st))). intros l.
  revert st. induction l as [|i l IH]; intros st; [done|].
  cbn [foldl]. rewrite IH. apply await_task_owed.
Qed.

Lemma settled_owed st : settled st -> owed st = files st.
Proof.
  intros Hsettled. unfold owed.
  assert (concat ((fun t => writes_of (pending t)) <$> tasks st) = []) as ->.
  { induction Hsettled as [|t ts Ht _ IH]; [done|]. cbn. by rewrite Ht, IH. }
  by rewrite app_nil_r.
Qed.

Lemma owed_create_tasks ctx commands :
  owed (create_tasks ctx commands)
  = concat ((fun entry => writes_of (task ctx entry.1 entry.2).1) <$> commands).
Proof.
  rewrite create_tasks_eq. unfold owed. cbn [files tasks app].
  by rewrite <- list_fmap_compose.
Qed.

Lemma run_written (options : Options) ctx commands (schedule : list nat) :
  setup options = inr ctx ->
  entries (Config.commands (inspector (transformProject (ctx_project ctx))))
  = inr commands ->
  written (run options schedule) ≡ₚ owed (create_tasks ctx commands).
Proof.
  intros Hsetup Hentries.
  destruct (run_after_setup options ctx commands schedule Hsetup Hentries)
    as (_ & Hw & _).
  rewrite Hw.
  rewrite <- (settled_owed (settle schedule (create_tasks ctx commands)))
    by apply drain_settled.
  unfold settle. by rewrite drain_owed, schedule_owed.
Qed.

(** X5. Whatever the interleaving, [run] writes the files its tasks
    write, each as often as the tasks write it: no write is lost or
    repeated, and the order alone is the event loop's. When the loop over
    the command collection throws, no task has run and nothing is
    written. *)
Theorem run_writes_each_file_once (options : Options) ctx (schedule : list nat) :
  setup options = inr ctx ->
  match entries (Config.commands (inspector (transformProject (ctx_project ctx)))) with
  | inr commands =>
      written (run options schedule)
      ≡ₚ concat ((fun entry => writes_of (task ctx entry.1 entry.2).1) <$> commands)
  | inl _ => written (run options schedule) = []
  end.
Proof.
  intros Hsetup.
  destruct (entries (Config.commands (inspector (transformProject (ctx_project ctx)))))
    as [e|commands] eqn:Hentries.
  - by rewrite (run_loop_throws options ctx e schedule Hsetup Hentries).
  - rewrite (run_written options ctx commands schedule Hsetup Hentries).
    by rewrite owed_create_tasks.
Qed.
End FanoutOrder.

(** ** What the dispatch reads *)

Section DispatchGuards.
Context `{Numbers} `{Graphql} `{Terminal} `{!Runtime}.
Context `{!ValidateLib} `{!SimilarLib} `{!PipelineLib}.
Implicit Types (ctx : Ctx) (command config spec : gmap string jsval) (taskName : string).

Lemma is_string_differ (v : jsval) (s t : string) :
  s <> t -> is_string v s = true -> is_string v t = false.
Proof.
  intros Hne Hs. apply is_string_true in Hs. subst v.
  cbn. by apply bool_decide_eq_false_2.
Qed.

(** X6. The four guards of the dispatch exclude one another: a command is
    of one kind at most, so the order in which [run] tries the guards
    never decides which command a task runs. *)
Theorem dispatch_guards_exclusive command :
  (isDiffCommand command = true ->
   isCoverageCommand command = false /\ isValidateCommand command = false
   /\ isSimilarCommand command = false) /\
  (isCoverageCommand command = true ->
   isDiffCommand command = false /\ isValidateCommand command = false
   /\ isSimilarCommand command = false) /\
  (isValidateCommand command = true ->
   isDiffCommand command = false /\ isCoverageCommand command = false
   /\ isSimilarCommand command = false) /\
  (isSimilarCommand command = true ->
   isDiffCommand command = false /\ isCoverageCommand command = false
   /\ isValidateCommand command = false).
Proof.
  unfold isDiffCommand, isCoverageCommand, isValidateCommand, isSimilarCommand.
  repeat split; eapply is_string_differ; try eassumption; discriminate.
Qed.

Lemma field_insert_ne command (k k' : string) (v : jsval) :
  k <> k' -> field (<[k := v]> command) k' = field command k'.
Proof. intros Hne. unfold field. by rewrite lookup_insert_ne. Qed.

(** X7. A task depends on its command through the fields the dispatch
    reads and through no other: setting any other field, [maxDepth] and
    [keepClientFields] of a validate command among them, changes nothing
    of what the task does. *)
Theorem task_ignores_other_fields ctx taskName command (k : string) (v : jsval) :
  k ∉ fields_read ->
  task ctx taskName (<[k := v]> command) = task ctx taskName command.
Proof.
  intros Hk.
  assert (forall k', k' ∈ fields_read -> field (<[k := v]> command) k' = field command k')
    as Hfield.
  { intros k' Hk'. apply field_insert_ne. intros ->. by apply Hk. }
  unfold task. f_equal.
  unfold task_body, isDiffCommand, isCoverageCommand, isValidateCommand,
    isSimilarCommand, missing_documents, resolve_documents, validate_task_options.
  rewrite !Hfield by (unfold fields_read; set_solver).
  reflexivity.
Qed.

(** X8. When the project declares documents, the context holds them and
    they are the ones every task uses: the [documents] pointer of a
    command is never read, whatever it is. *)
Theorem context_documents_win ctx taskName command (docs : list Source) (v : jsval) :
  ctx_documents ctx = Some docs ->
  task ctx taskName (<["documents" := v]> command) = task ctx taskName command.
Proof.
  intros Hdocs.
  assert (forall k', k' <> "documents" ->
            field (<["documents" := v]> command) k' = field command k') as Hfield.
  { intros k' Hk'. by apply field_insert_ne. }
  assert (forall c, missing_documents ctx c = false) as Hmissing.
  { intros c. unfold missing_documents. rewrite Hdocs.
    by rewrite (bool_decide_eq_true_2 (is_Some (Some docs))) by eauto. }
  unfold task. f_equal.
  unfold task_body, isDiffCommand, isCoverageCommand, isValidateCommand,
    isSimilarCommand, resolve_documents, validate_task_options.
  rewrite !Hmissing, Hdocs.
  rewrite !Hfield by discriminate.
  reflexivity.
Qed.

(** X9. A diff task whose old schema cannot be loaded never reaches
    [runDiff]: its buffer holds the banner and the loader's failure, the
    flag is lowered, and the task resolves. *)
Theorem diff_load_failure_is_local ctx taskName command (e : exn) :
  isDiffCommand command = true ->
  loadSchema (ctx_project ctx) (field command "schema") = inl e ->
  task ctx taskName command
  = ([Effect (Render (banner taskName)); SetOkFalse;
      Effect (Render (Error (message_or_error e)))],
     inr tt).
Proof.
  intros Hdiff Hload.
  assert (task_body ctx taskName command
          = ([Effect (Render (banner taskName))], inl e)) as Hbody.
  { unfold task_body. rewrite Hdiff, Hload. reflexivity. }
  rewrite (task_caught ctx taskName command e) by by rewrite Hbody.
  by rewrite Hbody.
Qed.
End DispatchGuards.

(** ** The shape of the normalized commands *)

Section NormalizationShape.
Context `{Numbers} `{!Runtime}.
Implicit Types (config spec : gmap string jsval) (name : string).
Implicit Types (raw : list (string * gmap string jsval)).

Lemma with_command_lookup_ne name config (k : string) :
  k <> "command" -> with_command name config !! k = config !! k.
Proof.
  intros Hk. unfold with_command.
  rewrite lookup_union, lookup_singleton_ne by done.
  by destruct (config !! k).
Qed.

Lemma with_command_has_tag name config :
  is_Some (with_command name config !! "command").
Proof.
  unfold with_command. rewrite lookup_union, lookup_singleton.
  destruct (config !! "command"); eauto.
Qed.

Lemma with_command_idemp name config :
  with_command name (with_command name config) = with_command name config.
Proof.
  destruct (with_command_has_tag name config) as [v Hv].
  by apply (with_command_tagged _ _ v).
Qed.


Lemma normalized_idemp name config :
  normalized name (normalized name config) = normalized name config.
Proof.
  unfold normalized. destruct (isCommandName name) eqn:Hname; [|done].
  by rewrite with_command_idemp.
Qed.

(** X11. For a collection without the label [__proto__], normalizing the
    entries that the loop of [run] visits, the normalized ones, gives the
    normalized collection again: normalizing twice is normalizing once. *)
Theorem normalization_idempotent raw :
  JsObject.js_ordered (JsObject.keys raw) = true ->
  "__proto__" ∉ JsObject.keys raw ->
  exists normal,
    entries (transform_commands raw) = inr normal /\
    transform_commands normal = transform_commands raw.
Proof.
  intros Hord Hnot.
  exists (map (fun entry => (entry.1, normalized entry.1 entry.2)) raw).
  split; [by apply entries_plain|].
  assert (JsObject.keys (map (fun entry => (entry.1, normalized entry.1 entry.2)) raw)
          = JsObject.keys raw) as Hkeys.
  { unfold JsObject.keys. rewrite <- list_fmap_compose. by apply list_fmap_ext. }
  rewrite !transform_commands_plain by (by rewrite ?Hkeys).
  f_equal. rewrite <- list_fmap_compose. apply list_fmap_ext.
  intros i [name config] _. unfold compose. cbn [fst snd].
  by rewrite normalized_idemp.
Qed.
End NormalizationShape.

(** ** What [runValidate] shows *)

Section ValidateReport.
Context `{Numbers} `{Graphql} `{!ValidateLib}.
Implicit Types (invalid : list InvalidDocument) (options : ValidateCliOptions).

Lemma for_each_listing {A} (p : A -> bool) (r : A -> list string) (l : list A) :
  for_each (fun x => if p x then emit (r x) else ret tt) l
  = ((fun x => Render (Emit (r x))) <$> filter (fun x => p x = true) l, inr tt).
Proof.
  induction l as [|x l IH]; [done|].
  cbn [for_each]. rewrite IH. unfold bind.
  destruct (p x) eqn:Hp.
  - rewrite filter_cons_True by done. reflexivity.
  - rewrite filter_cons_False by congruence. reflexivity.
Qed.

Lemma countErrors_length invalid :
  countErrors invalid
  = length (filter (fun doc => nonempty (errors doc) = true) invalid).
Proof. by destruct invalid. Qed.

Lemma countDeprecated_length invalid :
  countDeprecated invalid
  = length (filter (fun doc => nonempty (deprecated doc) = true) invalid).
Proof. by destruct invalid. Qed.

(** What [report] shows, part by part. *)
Lemma report_listing invalid options :
  let withErrors := filter (fun doc => nonempty (errors doc) = true) invalid in
  let withDeprecated := filter (fun doc => nonempty (deprecated doc) = true) invalid in
  (report invalid options).1
  = match withErrors with
    | [] =>
        if nonempty invalid && truthy (opt_deprecated options) then []
        else [Render (Success ["All documents are valid"])]
    | _ =>
        Render (Emit [nl +:+ "Detected " +:+ pretty (length withErrors)
                        +:+ " invalid document" +:+ plural (length withErrors)
                        +:+ ":" +:+ nl])
          :: ((fun doc => Render (Emit (renderInvalidDocument doc))) <$> withErrors)
    end
    ++ match withDeprecated with
       | [] => []
       | _ =>
           Render (Emit [nl +:+ "Detected " +:+ pretty (length withDeprecated)
                           +:+ " document" +:+ plural (length withDeprecated)
                           +:+ " with deprecated fields:" +:+ nl])
             :: ((fun doc =>
                    Render (Emit (renderDeprecatedUsageInDocument doc
                                    (opt_deprecated options))))
                   <$> withDeprecated)
       end.
Proof.
  cbn zeta. unfold report. destruct (nonempty invalid) eqn:Hne; cycle 1.
  { by destruct invalid. }
  cbn [negb andb].
  rewrite countErrors_length, countDeprecated_length, !for_each_listing.
  generalize (filter (fun doc => nonempty (errors doc) = true) invalid).
  generalize (filter (fun doc => nonempty (deprecated doc) = true) invalid).
  intros wd we. unfold mbind, M_bind.
  destruct we as [|e1 we]; destruct wd as [|d1 wd];
    destruct (truthy (opt_deprecated options));
    unfold bind; cbn -[pretty plural nl String.append];
    rewrite ?app_nil_r; reflexivity.
Qed.

(** X12. What [runValidate] shows: the documents with errors, each once
    and in the validator's order, under a heading that carries their
    number; then likewise the documents with deprecated usages. The line
    [All documents are valid] takes the place of the first part when no
    document has an error, unless documents were reported with
    [deprecated] on. *)
Theorem runValidate_listing (documents : list GSource) (schema : GraphQLSchema)
    options :
  let invalid := validateDocuments schema documents (validator_options options) in
  let withErrors := filter (fun doc => nonempty (errors doc) = true) invalid in
  let withDeprecated := filter (fun doc => nonempty (deprecated doc) = true) invalid in
  (runValidate documents schema options).1
  = match withErrors with
    | [] =>
        if nonempty invalid && truthy (opt_deprecated options) then []
        else [Render (Success ["All documents are valid"])]
    | _ =>
        Render (Emit [nl +:+ "Detected " +:+ pretty (length withErrors)
                        +:+ " invalid document" +:+ plural (length withErrors)
                        +:+ ":" +:+ nl])
          :: ((fun doc => Render (Emit (renderInvalidDocument doc))) <$> withErrors)
    end
    ++ match withDeprecated with
       | [] => []
       | _ =>
           Render (Emit [nl +:+ "Detected " +:+ pretty (length withDeprecated)
                           +:+ " document" +:+ plural (length withDeprecated)
                           +:+ " with deprecated fields:" +:+ nl])
             :: ((fun doc =>
                    Render (Emit (renderDeprecatedUsageInDocument doc
                                    (opt_deprecated options))))
                   <$> withDeprecated)
       end.
Proof. cbn zeta. unfold runValidate. apply report_listing. Qed.

Lemma emit_listing_only_emits {A} (h : string) (r : A -> list string) (l : list A)
    (e : effect) :
  e ∈ Render (Emit [h]) :: ((fun x => Render (Emit (r x))) <$> l) ->
  exists args, e = Render (Emit args).
Proof.
  intros [->|Hin]%elem_of_cons; [by eexists|].
  apply list_elem_of_fmap in Hin as (x & -> & _). by eexists.
Qed.

(** The calls [report] makes, and how it ends once it has reported
    success. *)
Lemma report_entries invalid options :
  (forall e, e ∈ (report invalid options).1 ->
     (exists args, e = Render (Emit args))
     \/ e = Render (Success ["All documents are valid"])) /\
  (Render (Success ["All documents are valid"]) ∈ (report invalid options).1 ->
   (report invalid options).2 = inr tt).
Proof.
  pose proof (report_listing invalid options) as Hlog. cbn zeta in Hlog.
  pose proof (report_outcome invalid options) as Hout.
  rewrite countErrors_length, countDeprecated_length in Hout.
  revert Hlog Hout.
  destruct (filter (fun doc => nonempty (errors doc) = true) invalid)
    as [|e1 we] eqn:Hwe;
    destruct (filter (fun doc => nonempty (deprecated doc) = true) invalid)
      as [|d1 wd] eqn:Hwd;
    intros Hlog Hout; rewrite Hlog; split.
  - intros e He. rewrite app_nil_r in He.
    destruct (nonempty invalid && truthy (opt_deprecated options)).
    + by apply elem_of_nil in He.
    + apply list_elem_of_singleton in He. by right.
  - intros _. by rewrite Hout.
  - intros e [He|He]%elem_of_app.
    + destruct (nonempty invalid && truthy (opt_deprecated options)).
      * by apply elem_of_nil in He.
      * apply list_elem_of_singleton in He. by right.
    + left. exact (emit_listing_only_emits _ _ _ _ He).
  - intros [He|He]%elem_of_app.
    + rewrite Hout. cbn [length Nat.ltb Nat.leb orb andb].
      destruct (truthy (opt_deprecated options)); [|done].
      assert (nonempty invalid = true) as Hne.
      { destruct invalid; [done|done]. }
      rewrite Hne in He. by apply elem_of_nil in He.
    + apply emit_listing_only_emits in He as [args He]. discriminate.
  - intros e He. rewrite app_nil_r in He. left.
    exact (emit_listing_only_emits _ _ _ _ He).
  - intros He. rewrite app_nil_r in He.
    apply emit_listing_only_emits in He as [args He]. discriminate.
  - intros e [He|He]%elem_of_app; left; exact (emit_listing_only_emits _ _ _ _ He).
  - intros [He|He]%elem_of_app;
      apply emit_listing_only_emits in He as [args He]; discriminate.
Qed.

Lemma report_file_writes invalid options :
  file_writes (report invalid options).1 = [].
Proof.
  destruct (report_entries invalid options) as [Hentries _].
  induction (report invalid options).1 as [|e log IH]; [done|].
  destruct (Hentries e (list_elem_of_here _ _)) as [[args ->]| ->];
    cbn; apply IH; intros e' He'; apply Hentries; by apply list_elem_of_further.
Qed.

(** X13. [runValidate] calls [emit] and [success] alone: it shows no
    error line of its own and writes no file; and once it has said [All
    documents are valid] it returns, it does not throw. *)
Theorem runValidate_success_is_final (documents : list GSource)
    (schema : GraphQLSchema) options :
  let result := runValidate documents schema options in
  (forall e, e ∈ result.1 ->
     (exists args, e = Render (Emit args))
     \/ e = Render (Success ["All documents are valid"])) /\
  file_writes result.1 = [] /\
  (Render (Success ["All documents are valid"]) ∈ result.1 -> returns result).
Proof.
  cbn zeta. unfold runValidate.
  set (invalid := validateDocuments schema documents (validator_options options)).
  destruct (report_entries invalid options) as [Hentries Hfinal].
  split; [exact Hentries|]. split; [apply report_file_writes|].
  intros Hin. exists tt. by apply Hfinal.
Qed.
End ValidateReport.

(** ** How [runSimilar] ends *)

Section SimilarOutcome.
Context `{Numbers} `{Graphql} `{Terminal} `{!Runtime} `{!SimilarLib}.
Implicit Types (similarMap : list (string * BestMatch)).

(** [JSON.stringify] of an object is a text that starts with a brace. *)
Lemma outputJSON_text (results : JsObject.object (list SimilarRecord)) :
  exists text, outputJSON results = Some (String "{" text).
Proof. unfold outputJSON, JSON_stringify, js_of_results. cbn [serialize]. by eexists. Qed.

Lemma transformMap_total similarMap :
  "hasOwnProperty" ∉ JsObject.keys similarMap ->
  exists results, transformMap similarMap = inr results.
Proof.
  intros Hplain. unfold transformMap. eexists.
  apply (transformMap_guarded similarMap similarMap).
  intros entry Hin. apply has_own_property_plain; [done|by apply key_of_entry].
Qed.

Lemma foldl_thrown {A B} (f : exn + B -> A -> exn + B) (e : exn) (l : list A) :
  (forall x, f (inl e) x = inl e) -> foldl f (inl e) l = inl e.
Proof. intros Hf. induction l as [|x l IH]; [done|]. cbn [foldl]. by rewrite Hf. Qed.

Lemma transformMap_shadowed similarMap :
  similarMap <> [] ->
  "hasOwnProperty" ∈ JsObject.keys similarMap ->
  transformMap similarMap = inl (not_a_function "similarMap.hasOwnProperty").
Proof.
  intros Hne Hshadow. unfold transformMap.
  set (l := similarMap) at 2. assert (l <> []) as Hl by done. clearbody l.
  destruct l as [|entry rest]; [done|].
  cbn [foldl]. rewrite (has_own_property_shadowed _ entry.1 Hshadow).
  by apply foldl_thrown.
Qed.

Lemma found_is_counted similarMap :
  similarMap <> [] -> bool_decide (length (JsObject.keys similarMap) = 0) = false.
Proof.
  intros Hne. apply bool_decide_eq_false. unfold JsObject.keys.
  rewrite length_fmap. by destruct similarMap.
Qed.

(** [runSimilar] when the search throws, when it finds nothing, and when
    the map has a type named [hasOwnProperty]. *)
Lemma runSimilar_search_throws (schema : GraphQLSchema) (name threshold write : jsval)
    (error : exn) :
  findSimilar schema name threshold = inl error ->
  runSimilar schema name threshold write = ([], inl error).
Proof. intros Hfind. unfold runSimilar. by rewrite Hfind. Qed.

Lemma runSimilar_none (schema : GraphQLSchema) (name threshold write : jsval) :
  findSimilar schema name threshold = inr [] ->
  runSimilar schema name threshold write
  = ([Render (Emit [nl +:+ "No similar types found"])], inr tt).
Proof. intros Hfind. unfold runSimilar. by rewrite Hfind. Qed.

Lemma runSimilar_shadowed (schema : GraphQLSchema) (name threshold write : jsval)
    similarMap :
  findSimilar schema name threshold = inr similarMap ->
  similarMap <> [] ->
  "hasOwnProperty" ∈ JsObject.keys similarMap ->
  runSimilar schema name threshold write
  = ([], inl (not_a_function "similarMap.hasOwnProperty")).
Proof.
  intros Hfind Hne Hshadow. unfold runSimilar. rewrite Hfind.
  unfold mbind, M_bind. rewrite bind_await, found_is_counted by done.
  by rewrite print_matches_shadowed.
Qed.

(** [runSimilar] once similar types were found, none of them named
    [hasOwnProperty]: the listing, then what the value of [write] leads
    to. *)
Lemma runSimilar_found (schema : GraphQLSchema) (name threshold write : jsval)
    similarMap :
  findSimilar schema name threshold = inr similarMap ->
  similarMap <> [] ->
  "hasOwnProperty" ∉ JsObject.keys similarMap ->
  exists (results : JsObject.object (list SimilarRecord)) (tail : M effect unit),
    transformMap similarMap = inr results /\
    runSimilar schema name threshold write
    = (concat (listing_of schema <$> similarMap) ++ tail.1, tail.2) /\
    tail
    = match write with
      | VUndefined => ([Render (Emit [])], inr tt)
      | VStr path =>
          if isValidPath path then
            if bool_decide (write_extension (ensureAbsolute path) = "json") then
              match fs_writeFileSync (ensureAbsolute path)
                      (default "" (outputJSON results)) with
              | inr _ =>
                  ([WriteFile (ensureAbsolute path) (default "" (outputJSON results));
                    Render (Success ["Available at"; ensureAbsolute path; nl]);
                    Render (Emit [])], inr tt)
              | inl error => ([], inl error)
              end
            else ([], inl (JsError ("Extension " +:+ write_extension (ensureAbsolute path)
                                      +:+ " is not supported")))
          else ([], inl (JsError ("--write is not valid file path: " +:+ path)))
      | _ => ([], inl (JsError ("--write is not valid file path: " +:+ to_string write)))
      end.
Proof.
  intros Hfind Hne Hplain.
  destruct (transformMap_total similarMap Hplain) as [results Hresults].
  exists results. eexists. split; [exact Hresults|]. split; [|reflexivity].
  unfold runSimilar. rewrite Hfind.
  unfold mbind, M_bind. rewrite bind_await, found_is_counted by done.
  rewrite (print_matches_listing schema similarMap Hplain).
  rewrite (bind_log (concat (listing_of schema <$> similarMap), inr tt) _ tt eq_refl).
  cbn [fst snd].
  destruct write as [| |b|n|path|l|o]; try reflexivity.
  cbn [typeof]. rewrite bool_decide_eq_false_2 by discriminate. cbn [negb].
  destruct (isValidPath path); [|reflexivity]. cbn [negb].
  destruct (bool_decide (write_extension (ensureAbsolute path) = "json")).
  - rewrite Hresults, bind_await.
    destruct (outputJSON_text results) as [text ->]. cbn [default from_option id].
    rewrite (bool_decide_eq_false_2 (String "{" text = "")) by discriminate.
    by destruct (fs_writeFileSync (ensureAbsolute path) (String "{" text)) as [e|[]].
  - by rewrite Hresults, bind_await.
Qed.

Lemma runSimilar_throws (schema : GraphQLSchema) (name threshold write : jsval) :
  (throws (runSimilar schema name threshold write)
   <-> (exists error, findSimilar schema name threshold = inl error)
       \/ exists similarMap,
            findSimilar schema name threshold = inr similarMap /\
            similarMap <> [] /\
            ("hasOwnProperty" ∈ JsObject.keys similarMap
             \/ write_refused write
             \/ write_fails similarMap write)) /\
  (throws (runSimilar schema name threshold write) ->
   file_writes (runSimilar schema name threshold write).1 = []).
Proof.
  destruct (findSimilar schema name threshold) as [error|similarMap] eqn:Hfind.
  { rewrite (runSimilar_search_throws _ _ _ _ error Hfind). split; [|done].
    split; [intros _; left; by eexists|intros _; by eexists]. }
  destruct (decide (similarMap = [])) as [->|Hne].
  { rewrite (runSimilar_none _ _ _ _ Hfind). split.
    - split; [intros [e He]; discriminate|].
      intros [[e He]|(m & Hm & Hnone & _)]; [discriminate|].
      injection Hm as <-. done.
    - intros [e He]. discriminate. }
  destruct (decide ("hasOwnProperty" ∈ JsObject.keys similarMap)) as [Hshadow|Hplain].
  { rewrite (runSimilar_shadowed _ _ _ _ similarMap Hfind Hne Hshadow).
    split; [|done]. split; [|intros _; by eexists].
    intros _. right. exists similarMap. split; [done|]. split; [done|]. by left. }
  destruct (runSimilar_found schema name threshold write similarMap Hfind Hne Hplain)
    as (results & tail & Hresults & -> & ->).
  unfold throws. cbn [fst snd].
  rewrite file_writes_app, listing_writes_nothing. cbn [app].
  assert (forall P : list (string * BestMatch) -> Prop,
            ((exists error : exn, @inr exn (list (string * BestMatch)) similarMap = inl error)
             \/ exists m,
                  @inr exn (list (string * BestMatch)) similarMap = inr m /\ m <> [] /\
                  ("hasOwnProperty" ∈ JsObject.keys m \/ P m))
            <-> P similarMap) as Hcases.
  { intros P. split.
    - intros [[e He]|(m & Hm & _ & [Hshadow|HP])]; [discriminate|..].
      + injection Hm as <-. done.
      + injection Hm as <-. done.
    - intros HP. right. exists similarMap.
      split; [done|]. split; [done|]. by right. }
  rewrite (Hcases (fun m => write_refused write \/ write_fails m write)).
  unfold write_fails, write_refused.
  destruct write as [| |b|n|path|l|o]; cbn [fst snd];
    try (split; [split; [intros _; by left|intros _; by eexists]|done]).
  - split; [split|].
    + intros [e' He]. discriminate.
    + intros [[]|(path & r & e'' & Hw & _)]. discriminate.
    + intros [e' He]. discriminate.
  - destruct (isValidPath path);
      [destruct (bool_decide_reflect (write_extension (ensureAbsolute path) = "json"))|];
      cbn [fst snd].
    + destruct (fs_writeFileSync (ensureAbsolute path) (default "" (outputJSON results)))
        as [error|[]] eqn:Hfs; cbn [fst snd].
      * split; [|done]. split; [|intros _; by eexists].
        intros _. right. by exists path, results, error.
      * split; [split|].
        -- intros [e' He]. discriminate.
        -- intros [[?|?]|(path' & r & e'' & Hw & Hr & He)]; try done.
           injection Hw as <-. rewrite Hresults in Hr. injection Hr as <-.
           rewrite Hfs in He. discriminate.
        -- intros [e' He]. discriminate.
    + split; [|done]. split; [|intros _; by eexists].
      intros _. left. by right.
    + split; [|done]. split; [|intros _; by eexists].
      intros _. left. by left.
Qed.

(** X14. [runSimilar] throws exactly when the similarity search throws,
    or similar types were found and one of them is named
    [hasOwnProperty], or a [write] was given that is not a string, not a
    valid path, or not of the extension [json], or the file system refuses
    the write; a [write] that is left out never makes it throw once the
    listing is through. What it throws is what the search threw, the
    failed call of [hasOwnProperty], an error that names the value of
    [write] or the extension of the path, or what the file system
    threw. *)
Theorem runSimilar_throws_iff (schema : GraphQLSchema) (name threshold write : jsval) :
  (throws (runSimilar schema name threshold write)
   <-> (exists error, findSimilar schema name threshold = inl error)
       \/ exists similarMap,
            findSimilar schema name threshold = inr similarMap /\
            similarMap <> [] /\
            ("hasOwnProperty" ∈ JsObject.keys similarMap
             \/ write_refused write
             \/ write_fails similarMap write)) /\
  (forall error : exn,
     (runSimilar schema name threshold write).2 = inl error ->
     findSimilar schema name threshold = inl error
     \/ error = not_a_function "similarMap.hasOwnProperty"
     \/ error = JsError ("--write is not valid file path: " +:+ to_string write)
     \/ (exists path,
           write = VStr path /\
           error = JsError ("Extension " +:+ write_extension (ensureAbsolute path)
                              +:+ " is not supported"))
     \/ (exists path text,
           write = VStr path /\
           fs_writeFileSync (ensureAbsolute path) text = inl error)).
Proof.
  split; [apply runSimilar_throws|].
  intros error.
  destruct (findSimilar schema name threshold) as [error'|similarMap] eqn:Hfind.
  { rewrite (runSimilar_search_throws _ _ _ _ error' Hfind). cbn [snd].
    intros [= <-]. by left. }
  destruct (decide (similarMap = [])) as [->|Hne].
  { rewrite (runSimilar_none _ _ _ _ Hfind). discriminate. }
  destruct (decide ("hasOwnProperty" ∈ JsObject.keys similarMap)) as [Hshadow|Hplain].
  { rewrite (runSimilar_shadowed _ _ _ _ similarMap Hfind Hne Hshadow). cbn [snd].
    intros [= <-]. right. by left. }
  destruct (runSimilar_found schema name threshold write similarMap Hfind Hne Hplain)
    as (results & tail & Hresults & -> & ->).
  cbn [snd].
  destruct write as [| |b|n|path|l|o]; cbn [snd];
    try (intros [= <-]; right; right; by left); try discriminate.
  destruct (isValidPath path); cbn [snd]; [|intros [= <-]; right; right; by left].
  destruct (bool_decide (write_extension (ensureAbsolute path) = "json"));
    cbn [snd].
  - destruct (fs_writeFileSync (ensureAbsolute path) (default "" (outputJSON results)))
      as [error'|[]] eqn:Hfs; cbn [snd]; [|discriminate].
    intros [= <-]. do 4 right. by eexists _, _.
  - intros [= <-]. do 3 right. left. by exists path.
Qed.

Lemma runSimilar_file_writes (schema : GraphQLSchema) (name threshold write : jsval) :
  file_writes (runSimilar schema name threshold write).1
  = match findSimilar schema name threshold, write with
    | inr similarMap, VStr path =>
        match transformMap similarMap with
        | inr results =>
            let absPath := ensureAbsolute path in
            let text := default "" (outputJSON results) in
            if nonempty similarMap && isValidPath path
               && bool_decide (write_extension absPath = "json")
            then match fs_writeFileSync absPath text with
                 | inr _ => [(absPath, text)]
                 | inl _ => []
                 end
            else []
        | inl _ => []
        end
    | _, _ => []
    end.
Proof.
  destruct (findSimilar schema name threshold) as [error|similarMap] eqn:Hfind.
  { by rewrite (runSimilar_search_throws _ _ _ _ error Hfind). }
  destruct (decide (similarMap = [])) as [->|Hne].
  { rewrite (runSimilar_none _ _ _ _ Hfind). cbn. by destruct write. }
  destruct (decide ("hasOwnProperty" ∈ JsObject.keys similarMap)) as [Hshadow|Hplain].
  { rewrite (runSimilar_shadowed _ _ _ _ similarMap Hfind Hne Hshadow).
    rewrite (transformMap_shadowed similarMap Hne Hshadow). cbn. by destruct write. }
  destruct (runSimilar_found schema name threshold write similarMap Hfind Hne Hplain)
    as (results & tail & Hresults & -> & ->).
  cbn [fst]. rewrite file_writes_app, listing_writes_nothing, Hresults. cbn [app].
  assert (nonempty similarMap = true) as -> by by apply nonempty_true.
  destruct write as [| |b|n|path|l|o]; try reflexivity.
  cbn zeta. cbn [andb].
  destruct (isValidPath path); [|reflexivity].
  destruct (bool_decide (write_extension (ensureAbsolute path) = "json"));
    [|reflexivity].
  by destruct (fs_writeFileSync _ _) as [e|[]].
Qed.

(** X15. The files [runSimilar] writes: one, at the absolute path, when
    similar types were found, none of them named [hasOwnProperty],
    [write] is a valid path of the extension [json] and the file system
    accepts the write, whatever the ratings are; none in every other case,
    so none when it throws. *)
Theorem runSimilar_writes (schema : GraphQLSchema) (name threshold write : jsval) :
  file_writes (runSimilar schema name threshold write).1
  = match findSimilar schema name threshold, write with
    | inr similarMap, VStr path =>
        match transformMap similarMap with
        | inr results =>
            let absPath := ensureAbsolute path in
            let text := default "" (outputJSON results) in
            if nonempty similarMap && isValidPath path
               && bool_decide (write_extension absPath = "json")
            then match fs_writeFileSync absPath text with
                 | inr _ => [(absPath, text)]
                 | inl _ => []
                 end
            else []
        | inl _ => []
        end
    | _, _ => []
    end.
Proof. apply runSimilar_file_writes. Qed.

Lemma keys_filter_plain {W} (l : list (string * W)) :
  JsObject.keys (filter (fun entry => entry.1 <> "__proto__") l)
  = filter (fun k => k <> "__proto__") (JsObject.keys l).
Proof.
  unfold JsObject.keys. induction l as [|[k w] l IH]; [done|].
  cbn [fmap list_fmap fst]. destruct (decide (k = "__proto__")) as [->|Hne].
  - by rewrite !filter_cons_False by (cbn; tauto).
  - rewrite !filter_cons_True by done. cbn [fmap list_fmap fst]. by rewrite IH.
Qed.

(** X16. [transformMap] keeps the type names and their order, and gives
    each type its best match first, then its other ratings in order. The
    type named [__proto__], if there is one, is no key of the results: its
    list is their prototype, and [results[typename]] reads it there. For a
    map with a type named [hasOwnProperty] the guard of the loop throws. *)
Theorem transformMap_best_first (similarMap : list (string * BestMatch))
    (typeName : string) (matches : BestMatch) :
  JsObject.js_ordered (JsObject.keys similarMap) = true ->
  (typeName, matches) ∈ similarMap ->
  ("hasOwnProperty" ∈ JsObject.keys similarMap ->
   transformMap similarMap = inl (not_a_function "similarMap.hasOwnProperty")) /\
  ("hasOwnProperty" ∉ JsObject.keys similarMap ->
   exists results,
     transformMap similarMap = inr results /\
     JsObject.keys (JsObject.own results)
     = filter (fun k => k <> "__proto__") (JsObject.keys similarMap) /\
     JsObject.obj_read typeName results
     = Some ({| typename := typeId (target (bestMatch matches));
                record_rating := rating (bestMatch matches) |}
             :: map (fun r => {| typename := typeId (target r);
                                 record_rating := rating r |})
                  (ratings matches))).
Proof.
  intros Hord Hin. split.
  { intros Hshadow. apply transformMap_shadowed; [|done].
    intros ->. by apply elem_of_nil in Hin. }
  intros Hplain.
  eexists. split; [by apply transformMap_map|].
  cbn [JsObject.own JsObject.proto].
  assert (forall l : list (string * BestMatch),
            JsObject.keys
              (map (fun entry : string * BestMatch =>
                      (entry.1,
                       trasformResult (bestMatch entry.2)
                         :: map trasformResult (ratings entry.2))) l)
            = JsObject.keys l) as Hkeys.
  { intros l. unfold JsObject.keys. rewrite <- list_fmap_compose.
    by apply list_fmap_ext. }
  split; [by rewrite Hkeys, keys_filter_plain|].
  unfold JsObject.obj_read. cbn [JsObject.own JsObject.proto].
  destruct (bool_decide_reflect (typeName = "__proto__")) as [->|Hne].
  - by rewrite (obj_get_elem_of similarMap "__proto__" matches Hord Hin).
  - apply obj_get_elem_of.
    + rewrite Hkeys.
      by apply (js_ordered_filter (fun entry => entry.1 <> "__proto__")).
    + apply list_elem_of_fmap. exists (typeName, matches). split; [done|].
      by apply list_elem_of_filter.
Qed.
End SimilarOutcome.

(** ** The tasks of the validate and similar commands *)

Section TaskWrites.
Context `{Numbers} `{Graphql} `{Terminal} `{!Runtime}.
Context `{!ValidateLib} `{!SimilarLib} `{!PipelineLib}.
Implicit Types (ctx : Ctx) (command : gmap string jsval) (taskName : string).

Lemma writes_of_app (acts1 acts2 : list action) :
  writes_of (acts1 ++ acts2) = writes_of acts1 ++ writes_of acts2.
Proof. apply omap_app. Qed.

Lemma writes_of_lift (log : list effect) : writes_of (Effect <$> log) = file_writes log.
Proof.
  induction log as [|e log IH]; [done|].
  unfold writes_of, file_writes in *. destruct e; cbn; by rewrite IH.
Qed.

Lemma task_writes_of ctx taskName command :
  writes_of (task ctx taskName command).1 = writes_of (task_body ctx taskName command).1.
Proof.
  destruct (task_body ctx taskName command).2 as [e|[]] eqn:Hbody.
  - rewrite (task_caught _ _ _ e Hbody). cbn [fst].
    rewrite writes_of_app. cbn. by rewrite app_nil_r.
  - by rewrite (task_returned _ _ _ Hbody).
Qed.

Lemma writes_of_bind {A B} (m : M action A) (k : A -> M action B) :
  writes_of (bind m k).1
  = writes_of m.1 ++ match m.2 with
                     | inl _ => []
                     | inr a => writes_of (k a).1
                     end.
Proof.
  unfold bind. destruct m.2; cbn [fst].
  - by rewrite app_nil_r.
  - apply writes_of_app.
Qed.

(** X17. A validate task never writes a file, whether its documents are
    valid, invalid, missing or fail to load. *)
Theorem validate_task_writes_nothing ctx taskName command :
  isValidateCommand command = true ->
  writes_of (task ctx taskName command).1 = [].
Proof.
  intros Hvalidate. rewrite task_writes_of.
  assert (isDiffCommand command = false) as Hd.
  { eapply is_string_differ; [|exact Hvalidate]. discriminate. }
  assert (isCoverageCommand command = false) as Hc.
  { eapply is_string_differ; [|exact Hvalidate]. discriminate. }
  unfold task_body. rewrite Hd, Hc, Hvalidate.
  unfold mbind, M_bind.
  rewrite !writes_of_bind. cbn [lift emit fst snd fmap list_fmap writes_of omap app].
  destruct (missing_documents ctx command); [done|].
  cbn [ret fst snd writes_of omap app].
  unfold resolve_documents.
  destruct (ctx_documents ctx) as [docs|].
  - cbn [ret fst snd writes_of omap app lift].
    rewrite writes_of_lift. apply report_file_writes.
  - cbn [await fst snd writes_of omap app].
    destruct (loadDocuments (ctx_project ctx) (field command "documents"))
      as [e'|docs]; [done|].
    cbn [lift fst]. rewrite writes_of_lift. apply report_file_writes.
Qed.

(** X18. What a similar task writes is what [runSimilar] writes for the
    fields [name], [threshold] and [write] of its command: one file at
    most. *)
Theorem similar_task_writes ctx taskName command :
  isSimilarCommand command = true ->
  writes_of (task ctx taskName command).1
  = file_writes (runSimilar (ctx_schema ctx) (field command "name")
                   (field command "threshold") (field command "write")).1 /\
  length (writes_of (task ctx taskName command).1) <= 1.
Proof.
  intros Hsimilar.
  assert (writes_of (task ctx taskName command).1
          = file_writes (runSimilar (ctx_schema ctx) (field command "name")
                           (field command "threshold") (field command "write")).1)
    as Hwrites.
  { rewrite task_writes_of.
    assert (isDiffCommand command = false) as Hd.
    { eapply is_string_differ; [|exact Hsimilar]. discriminate. }
    assert (isCoverageCommand command = false) as Hc.
    { eapply is_string_differ; [|exact Hsimilar]. discriminate. }
    assert (isValidateCommand command = false) as Hv.
    { eapply is_string_differ; [|exact Hsimilar]. discriminate. }
    unfold task_body. rewrite Hd, Hc, Hv, Hsimilar.
    unfold mbind, M_bind.
    rewrite writes_of_bind. cbn [lift emit fst snd fmap list_fmap writes_of omap app].
    apply writes_of_lift. }
  split; [exact Hwrites|]. rewrite Hwrites.
  rewrite (runSimilar_file_writes (ctx_schema ctx) (field command "name")
             (field command "threshold") (field command "write")).
  destruct (findSimilar _ _ _) as [error|similarMap]; [cbn; lia|].
  destruct (field command "write") as [| |b|n|path|l|o]; cbn; try lia.
  destruct (transformMap similarMap) as [error|results]; cbn; [lia|].
  destruct (_ && _); cbn; [|lia].
  destruct (fs_writeFileSync _ _); cbn; lia.
Qed.
End TaskWrites.

(** ** The command-line entry points *)

Section CliFacts.
Context `{Numbers} `{Graphql} `{Terminal} `{!Runtime}.
Context `{!ValidateLib} `{!SimilarLib} `{!Cli.LoadLib}.

Lemma or_exit_status (body : M effect unit) :
  Cli.status (Cli.or_exit body) = Some 1%N <-> throws body.
Proof.
  unfold Cli.or_exit, throws. destruct body.2 as [e'|a]; cbn.
  - split; [by eexists|done].
  - split; [done|]. intros [e' He]. discriminate.
Qed.

Lemma or_exit_shown (body : M effect unit) :
  (Cli.status (Cli.or_exit body) = Some 1%N ->
   exists arg, Cli.shown (Cli.or_exit body) = body.1 ++ [Render (Error arg)]) /\
  (Cli.status (Cli.or_exit body) <> Some 1%N ->
   Cli.status (Cli.or_exit body) = None /\ Cli.shown (Cli.or_exit body) = body.1).
Proof.
  unfold Cli.or_exit. destruct body.2 as [e'|a]; cbn; split; try done.
  intros _. by eexists.
Qed.

(** X19. [validate] ends the process with status 1 exactly when the
    schema or the documents cannot be loaded, or a loaded document has an
    error, or has a deprecated usage while [deprecated] is on. The error
    line is then the last thing shown; in every other case [process.exit]
    is not called and no error line is shown. *)
Theorem validate_exit_status (documentsPointer schemaPointer : string)
    (headers : jsval) (options : ValidateCliOptions) :
  let result := Cli.validate documentsPointer schemaPointer headers options in
  (Cli.status result = Some 1%N
   <-> (exists e, Cli.loadSchema schemaPointer headers = inl e)
       \/ (exists e, Cli.loadDocuments documentsPointer = inl e)
       \/ (exists schema documents,
             Cli.loadSchema schemaPointer headers = inr schema /\
             Cli.loadDocuments documentsPointer = inr documents /\
             let invalid :=
               validateDocuments schema documents (validator_options options) in
             Exists (fun doc => errors doc <> []) invalid
             \/ (Exists (fun doc => deprecated doc <> []) invalid
                 /\ truthy (opt_deprecated options) = true))) /\
  (Cli.status result = Some 1%N ->
   exists log arg, Cli.shown result = log ++ [Render (Error arg)]) /\
  (Cli.status result <> Some 1%N ->
   Cli.status result = None /\ forall arg, Render (Error arg) ∉ Cli.shown result).
Proof.
  intros result. unfold result, Cli.validate.
  unfold mbind, M_bind, await, bind. cbn [fst snd].
  destruct (Cli.loadSchema schemaPointer headers) as [e'|schema] eqn:Hschema.
  { cbn. split; [|split].
    - split; [intros _; left; by eexists|done].
    - intros _. by exists [], (message_or_error e').
    - done. }
  destruct (Cli.loadDocuments documentsPointer) as [e'|documents] eqn:Hdocuments.
  { cbn. split; [|split].
    - split; [intros _; right; left; by eexists|done].
    - intros _. by exists [], (message_or_error e').
    - done. }
  cbn [fst snd app].
  set (body := runValidate documents schema options).
  rewrite <- (surjective_pairing body).
  destruct (or_exit_shown body) as [Hexit Hstay].
  split; [|split].
  - rewrite or_exit_status. unfold body, runValidate, throws.
    rewrite report_outcome.
    set (invalid := validateDocuments schema documents (validator_options options)).
    assert ((Exists (fun doc => errors doc <> []) invalid
             \/ (Exists (fun doc => deprecated doc <> []) invalid
                 /\ truthy (opt_deprecated options) = true))
            <-> (0 <? countErrors invalid)%nat
                || ((0 <? countDeprecated invalid)%nat && truthy (opt_deprecated options))
                = true) as Hiff.
    { by rewrite orb_true_iff, andb_true_iff, countErrors_positive,
        countDeprecated_positive. }
    split.
    + intros [e' He]. right; right. exists schema, documents.
      split; [done|]. split; [done|]. apply Hiff.
      by destruct (_ || _).
    + intros [[e' He]|[[e' He]|(schema' & documents' & Hs & Hd & Hinv)]]; try done.
      injection Hs as <-. injection Hd as <-. apply Hiff in Hinv.
      fold invalid. rewrite Hinv. by eexists.
  - intros Hone. destruct (Hexit Hone) as [arg ->]. by eexists _, _.
  - intros Hnot. destruct (Hstay Hnot) as [-> ->]. split; [done|].
    intros arg Harg. unfold body, runValidate in Harg.
    destruct (report_entries
                (validateDocuments schema documents (validator_options options))
                options) as [Hentries _].
    by destruct (Hentries _ Harg) as [[args ?]|?].
Qed.

(** X20. [similar] ends the process with status 1 exactly when the schema
    cannot be loaded, or the similarity search throws, or similar types
    were found and one of them is named [hasOwnProperty], or [write] is
    refused, or the file system refuses the write. It has then written no
    file and the error line is the last thing shown; in every other case
    [process.exit] is not called. *)
Theorem similar_exit_status (schemaPointer : string) (name threshold : jsval)
    (headers write : jsval) :
  let result := Cli.similar schemaPointer name threshold headers write in
  (Cli.status result = Some 1%N
   <-> (exists e, Cli.loadSchema schemaPointer headers = inl e)
       \/ (exists schema,
             Cli.loadSchema schemaPointer headers = inr schema /\
             ((exists error, findSimilar schema name threshold = inl error)
              \/ exists similarMap,
                   findSimilar schema name threshold = inr similarMap /\
                   similarMap <> [] /\
                   ("hasOwnProperty" ∈ JsObject.keys similarMap
                    \/ write_refused write
                    \/ write_fails similarMap write)))) /\
  (Cli.status result = Some 1%N ->
   file_writes (Cli.shown result) = [] /\
   exists log arg, Cli.shown result = log ++ [Render (Error arg)]) /\
  (Cli.status result <> Some 1%N -> Cli.status result = None).
Proof.
  intros result. unfold result, Cli.similar.
  unfold mbind, M_bind, await, bind. cbn [fst snd].
  destruct (Cli.loadSchema schemaPointer headers) as [e'|schema] eqn:Hschema.
  { cbn. split; [|split].
    - split; [intros _; left; by eexists|done].
    - intros _. split; [done|]. by exists [], (message_or_error e').
    - done. }
  cbn [fst snd app].
  set (body := runSimilar schema name threshold write).
  rewrite <- (surjective_pairing body).
  destruct (or_exit_shown body) as [Hexit Hstay].
  destruct (runSimilar_throws schema name threshold write) as [Hiff Hnone].
  fold body in Hiff, Hnone.
  split; [|split].
  - rewrite or_exit_status, Hiff. split.
    + intros Hthrows. right. by exists schema.
    + intros [[e' He]|(schema' & Hs & Hthrows)]; [done|].
      by injection Hs as <-.
  - intros Hone. destruct (Hexit Hone) as [arg Hshown]. rewrite Hshown. split.
    + rewrite file_writes_app, Hnone by by apply or_exit_status. done.
    + by eexists _, _.
  - intros Hnot. by destruct (Hstay Hnot).
Qed.
End CliFacts.

(** ** Confluence of the fan-out *)

Section Confluence.
Context `{Numbers} `{Graphql} `{Terminal} `{!Runtime}.
Context `{!ValidateLib} `{!SimilarLib} `{!PipelineLib}.
Implicit Types (st : Fanout).

Lemma steps_owed st st' : rtc step st st' -> owed st' ≡ₚ owed st.
Proof.
  induction 1 as [st|st st1 st' Hstep _ IH]; [done|].
  rewrite IH. destruct Hstep. apply advance_owed.
Qed.

(** A move of the scheduler is a step of the relation, or nothing. *)
Lemma advance_steps i st : rtc step st (advance i st).
Proof.
  destruct (tasks st !! i) as [[[|a rest] o]|] eqn:Hi.
  - unfold advance. rewrite Hi. apply rtc_refl.
  - apply rtc_once. by eapply step_advance.
  - unfold advance. rewrite Hi. apply rtc_refl.
Qed.

Lemma schedule_steps (schedule : list nat) st :
  rtc step st (foldl (fun st i => advance i st) st schedule).
Proof.
  revert st. induction schedule as [|i schedule IH]; intros st; [apply rtc_refl|].
  cbn [foldl]. etrans; [apply advance_steps|apply IH].
Qed.

Lemma await_task_steps i st : rtc step st (await_task st i).
Proof.
  unfold await_task. generalize (length (default [] (pending <$> tasks st !! i))).
  intros n. induction n as [|n IH]; [apply rtc_refl|].
  rewrite Nat.iter_succ. etrans; [exact IH|apply advance_steps].
Qed.

Lemma drain_steps st : rtc step st (drain st).
Proof.
  unfold drain. generalize (seq 0 (length (tasks st))). intros l.
  revert st. induction l as [|i l IH]; intros st; [apply rtc_refl|].
  cbn [foldl]. etrans; [apply await_task_steps|apply IH].
Qed.

Lemma settle_steps (schedule : list nat) st : rtc step st (settle schedule st).
Proof. unfold settle. etrans; [apply schedule_steps|apply drain_steps]. Qed.

Lemma reachable_fate ctx commands st :
  rtc step (create_tasks ctx commands) st ->
  final_buffers st = buffers ctx commands /\
  final_ok st
  = forallb (fun entry => clean (task ctx entry.1 entry.2).1) commands /\
  length (renderers st) = length (tasks st).
Proof.
  intros Hsteps. pose proof (steps_fate _ _ Hsteps) as Hfate.
  unfold fate in Hfate. injection Hfate as Hb Ho _ Hlt Hlr.
  rewrite Hb, Ho, create_tasks_final_buffers, create_tasks_final_ok.
  split; [done|]. split; [done|].
  rewrite Hlt, Hlr. apply create_tasks_lengths.
Qed.

(** X4. At every moment of the fan-out, whatever steps the tasks of the
    collection have taken so far: each buffer holds the first lines of
    what [run] prints from it, a flag that is down stays down, [run] then
    exits with status 1, and the files written so far are among the files
    [run] writes. *)
Theorem partial_run_is_kept (options : Options) ctx commands (schedule : list nat) st :
  setup options = inr ctx ->
  entries (Config.commands (inspector (transformProject (ctx_project ctx))))
  = inr commands ->
  rtc step (create_tasks ctx commands) st ->
  (forall j b,
     renderers st !! j = Some b ->
     exists more, printed (run options schedule) !! j = Some (b ++ more)) /\
  (ok st = false -> exit_code (run options schedule) = Some 1%N) /\
  (exists more, written (run options schedule) ≡ₚ files st ++ more).
Proof.
  intros Hsetup Hentries Hsteps.
  destruct (run_after_setup options ctx commands schedule Hsetup Hentries)
    as (Hprinted & _ & Hexit & _).
  destruct (reachable_fate ctx commands st Hsteps) as (Hbuffers & Hok & Hlen).
  split; [|split].
  - intros j b Hj. rewrite Hprinted, <- Hbuffers. unfold final_buffers.
    destruct (lookup_lt_is_Some_2 (tasks st) j) as [t Ht].
    { rewrite <- Hlen. by apply lookup_lt_Some in Hj. }
    exists (buffer_of (pending t)). by rewrite lookup_zip_with, Hj, Ht.
  - intros Hdown. rewrite Hexit, <- Hok. unfold final_ok. by rewrite Hdown.
  - exists (concat ((fun t => writes_of (pending t)) <$> tasks st)).
    rewrite (run_written options ctx commands schedule Hsetup Hentries).
    by rewrite <- (steps_owed _ _ Hsteps).
Qed.

(** X21. The fan-out is confluent. Whatever interleaving of the steps of
    its tasks the event loop chooses, once every task has settled the run
    holds the buffers that [run] prints, the flag is up exactly when [run]
    does not exit, no task has rejected, and the files written are those
    that [run] reports, up to their order. Every schedule names such an
    interleaving. *)
Theorem interleavings_agree (options : Options) ctx commands (schedule : list nat) st :
  setup options = inr ctx ->
  entries (Config.commands (inspector (transformProject (ctx_project ctx))))
  = inr commands ->
  rtc step (create_tasks ctx commands) st ->
  settled st ->
  renderers st = printed (run options schedule) /\
  (ok st = true <-> exit_code (run options schedule) = None) /\
  rejection st = None /\
  files st ≡ₚ written (run options schedule) /\
  (forall schedule' : list nat,
     rtc step (create_tasks ctx commands)
       (settle schedule' (create_tasks ctx commands)) /\
     settled (settle schedule' (create_tasks ctx commands))).
Proof.
  intros Hsetup Hentries Hsteps Hsettled.
  destruct (run_after_setup options ctx commands schedule Hsetup Hentries)
    as (Hprinted & _ & Hexit & _).
  destruct (fanout_settled ctx commands st (steps_fate _ _ Hsteps) Hsettled)
    as (Hbuffers & Hok & Hrejection).
  split; [by rewrite Hprinted|]. split; [|split; [done|split]].
  - rewrite Hexit, Hok. by destruct (forallb _ commands).
  - rewrite (run_written options ctx commands schedule Hsetup Hentries).
    rewrite <- (settled_owed st Hsettled). by apply steps_owed.
  - intros schedule'. split; [apply settle_steps|apply drain_settled].
Qed.
End Confluence.

(** ** The guards and the supported commands *)

Section GuardCoverage.
Context `{Numbers}.

(** X22. A command passes one of the four guards exactly when its tag is
    one of [supportedCommands]: every supported name has its branch, and
    a task ends in [Command ... not supported] for the other tags and for
    them alone. *)
Theorem guards_cover_supported_commands (command : gmap string jsval) :
  isDiffCommand command || isCoverageCommand command
  || isValidateCommand command || isSimilarCommand command = true
  <-> exists name : string,
        field command "command" = VStr name /\ isCommandName name = true.
Proof.
  unfold isDiffCommand, isCoverageCommand, isValidateCommand, isSimilarCommand,
    isCommandName, supportedCommands.
  rewrite !orb_true_iff, !is_string_true. split.
  - intros [[[->| ->]| ->]| ->]; eexists; (split; [reflexivity|]);
      apply bool_decide_eq_true_2;
      repeat first [apply list_elem_of_here | apply list_elem_of_further].
  - intros (name & -> & Hname). apply bool_decide_eq_true_1 in Hname.
    repeat (apply elem_of_cons in Hname as [->|Hname]; [by auto|]).
    by apply elem_of_nil in Hname.
Qed.
End GuardCoverage.

(** ** The listing of the similar types *)

Section SimilarListing.
Context `{Numbers} `{Graphql} `{Terminal} `{!Runtime} `{!SimilarLib}.

(** X23. The listing of [runSimilar], for a similarity map that is not
    empty. When no type is named [hasOwnProperty]: for each type, in the
    order of the map, an empty line, the type under its prefix, its best
    match, then its other ratings in order; one more empty line closes a
    listing that is not written to a file. When a type is named
    [hasOwnProperty], the guard of the loop calls the entry of that type,
    which is no function: [runSimilar] throws before it has emitted a
    line, whatever [write] is. *)
Theorem runSimilar_listing (schema : GraphQLSchema) (name threshold : jsval)
    (similarMap : list (string * BestMatch)) :
  findSimilar schema name threshold = inr similarMap ->
  similarMap <> [] ->
  ("hasOwnProperty" ∉ JsObject.keys similarMap ->
   runSimilar schema name threshold VUndefined
   = (concat (listing_of schema <$> similarMap) ++ [Render (Emit [])], inr tt)) /\
  ("hasOwnProperty" ∈ JsObject.keys similarMap ->
   forall write : jsval,
     runSimilar schema name threshold write
     = ([], inl (not_a_function "similarMap.hasOwnProperty"))).
Proof.
  intros Hfind Hne. split.
  - intros Hplain.
    by destruct (runSimilar_found schema name threshold VUndefined similarMap
                   Hfind Hne Hplain) as (results & tail & _ & -> & ->).
  - intros Hshadow write. by apply (runSimilar_shadowed _ _ _ _ similarMap).
Qed.
End SimilarListing.

(** ** The scale of a rating *)

Section ScaleFacts.
Context `{Numbers} `{Graphql} `{Terminal} `{!Runtime} `{!SimilarLib}.

(** X24. The scale [printScale] draws has five bullets, a run of lit ones
    followed by a run of dimmed ones, provided [>=] on numbers is
    transitive with the order of the integer levels. *)
Theorem printScale_is_a_bar (ratio : number) :
  (forall (p : number) (a b : N),
     (a <= b)%N -> number_geb p b = true -> number_geb p a = true) ->
  exists lit,
    lit <= 5 /\
    printScale ratio
    = join "" (replicate lit figures_bullet
                 ++ replicate (5 - lit) (chalk_gray figures_bullet)).
Proof.
  intros Hgeb. unfold printScale. cbn [map].
  pose proof (Hgeb (floor_percent ratio) 0%N 30%N ltac:(lia)) as H30.
  pose proof (Hgeb (floor_percent ratio) 30%N 50%N ltac:(lia)) as H50.
  pose proof (Hgeb (floor_percent ratio) 50%N 70%N ltac:(lia)) as H70.
  pose proof (Hgeb (floor_percent ratio) 70%N 90%N ltac:(lia)) as H90.
  destruct (number_geb (floor_percent ratio) 90).
  { rewrite H90, H70, H50, H30 by auto. exists 5. split; [lia|reflexivity]. }
  destruct (number_geb (floor_percent ratio) 70).
  { rewrite H70, H50, H30 by auto. exists 4. split; [lia|reflexivity]. }
  destruct (number_geb (floor_percent ratio) 50).
  { rewrite H50, H30 by auto. exists 3. split; [lia|reflexivity]. }
  destruct (number_geb (floor_percent ratio) 30).
  { rewrite H30 by auto. exists 2. split; [lia|reflexivity]. }
  destruct (number_geb (floor_percent ratio) 0).
  - exists 1. split; [lia|reflexivity].
  - exists 0. split; [lia|reflexivity].
Qed.
End ScaleFacts.

(** ** Documents, from the setup to the tasks *)

Section DocumentsFacts.
Context `{Numbers} `{Graphql} `{Terminal} `{!Runtime}.
Context `{!ValidateLib} `{!SimilarLib} `{!PipelineLib}.

(** X25. Documents the project declares are loaded once, by the setup, and
    reach every task: no task then fails with [Documents are missing]. A
    project that declares none leaves the context without documents, and a
    coverage or validate task depends on the pointer of its own command. *)
Theorem declared_documents_reach_tasks (options : Options) (ctx : Ctx) :
  setup options = inr ctx ->
  (truthy (project_documents (ctx_project ctx)) = true ->
   exists docs,
     getDocuments (ctx_project ctx) = inr docs /\
     ctx_documents ctx = Some docs /\
     forall command, missing_documents ctx command = false) /\
  (truthy (project_documents (ctx_project ctx)) = false ->
   ctx_documents ctx = None /\
   forall command,
     missing_documents ctx command = negb (truthy (field command "documents"))).
Proof.
  unfold setup.
  destruct (loading_config options) as [|config]; [done|].
  destruct (picking_project options config) as [|project]; [done|].
  destruct (checking_for_extension config project); [done|].
  destruct (loading_schema project) as [|schema]; [done|].
  unfold loading_documents.
  destruct (truthy (project_documents project)) eqn:Hdeclared; cbn [negb].
  - destruct (getDocuments project) as [|docs] eqn:Hdocs; [done|].
    intros [= <-]. cbn [ctx_project ctx_documents]. rewrite Hdeclared.
    split; [|done]. intros _. exists docs. split; [done|]. split; [done|].
    intros command. unfold missing_documents. cbn [ctx_documents].
    by rewrite (bool_decide_eq_true_2 (is_Some (Some docs))) by eauto.
  - intros [= <-]. cbn [ctx_project ctx_documents]. rewrite Hdeclared.
    split; [done|]. intros _. split; [done|].
    intros command. unfold missing_documents. cbn [ctx_documents].
    by rewrite (bool_decide_eq_false_2 (is_Some None)) by (by intros [? ?]).
Qed.
End DocumentsFacts.

(** ** The properties above on the small installation *)

Section DemoRuns.
#[local] Existing Instance Demo.numbers.
#[local] Existing Instance Demo.runtime.
#[local] Existing Instance Demo.graphql.
#[local] Existing Instance Demo.terminal.
#[local] Existing Instance Demo.validate_lib.
#[local] Existing Instance Demo.similar_lib.
#[local] Existing Instance Demo.pipeline_lib.

(** The default run after three steps: the diff task has emitted its
    banner, the task of the unknown kind its banner too, and it has
    lowered the flag. *)
Lemma partial_run_is_kept_witness :
  let st :=
    advance 3 (advance 3 (advance 0
      (create_tasks Demo.ctx_default
         (JsObject.own (transform_commands Demo.raw_commands_default))))) in
  renderers st = [[banner "diff"]; []; []; [banner "lint"]] /\
  ok st = false /\
  (forall j b,
     renderers st !! j = Some b ->
     exists more, printed (run Demo.options_default [2; 1]) !! j = Some (b ++ more)) /\
  exit_code (run Demo.options_default [2; 1]) = Some 1%N.
Proof.
  cbn zeta.
  assert (rtc step
            (create_tasks Demo.ctx_default
               (JsObject.own (transform_commands Demo.raw_commands_default)))
            (advance 3 (advance 3 (advance 0
               (create_tasks Demo.ctx_default
                  (JsObject.own (transform_commands Demo.raw_commands_default)))))))
    as Hsteps.
  { eapply rtc_l; [eapply (step_advance 0); reflexivity|].
    eapply rtc_l; [eapply (step_advance 3); reflexivity|].
    eapply rtc_l; [eapply (step_advance 3); reflexivity|].
    apply rtc_refl. }
  assert (setup Demo.options_default = inr Demo.ctx_default) as Hsetup by reflexivity.
  assert (entries (Config.commands
                     (inspector (transformProject (ctx_project Demo.ctx_default))))
          = inr (JsObject.own (transform_commands Demo.raw_commands_default)))
    as Hentries by reflexivity.
  destruct (partial_run_is_kept Demo.options_default Demo.ctx_default
              (JsObject.own (transform_commands Demo.raw_commands_default))
              [2; 1] _ Hsetup Hentries Hsteps) as (Hbuffers & Hexit & _).
  split; [reflexivity|]. split; [reflexivity|].
  split; [exact Hbuffers|exact (Hexit eq_refl)].
Defined.

(** Two interleavings of the four tasks of the default project. In the
    first the tasks run one after the other, from the last to the first;
    [run] is given the second, in which they take turns. *)
Lemma interleavings_agree_witness :
  let st :=
    foldl (fun st i => advance i st)
      (create_tasks Demo.ctx_default
         (JsObject.own (transform_commands Demo.raw_commands_default)))
      [3; 3; 3; 2; 2; 1; 1; 1; 0; 0; 0; 0] in
  settled st /\
  length (tasks st) = 4 /\
  renderers st = printed (run Demo.options_default [0; 1; 2; 3; 0; 1; 2; 3]) /\
  ok st = false /\
  exit_code (run Demo.options_default [0; 1; 2; 3; 0; 1; 2; 3]) <> None.
Proof.
  cbn zeta.
  assert (settled
            (foldl (fun st i => advance i st)
               (create_tasks Demo.ctx_default
                  (JsObject.own (transform_commands Demo.raw_commands_default)))
               [3; 3; 3; 2; 2; 1; 1; 1; 0; 0; 0; 0])) as Hsettled.
  { unfold settled. vm_compute. repeat constructor. }
  assert (setup Demo.options_default = inr Demo.ctx_default) as Hsetup by reflexivity.
  assert (entries (Config.commands
                     (inspector (transformProject (ctx_project Demo.ctx_default))))
          = inr (JsObject.own (transform_commands Demo.raw_commands_default)))
    as Hentries by reflexivity.
  destruct (interleavings_agree Demo.options_default Demo.ctx_default
              (JsObject.own (transform_commands Demo.raw_commands_default))
              [0; 1; 2; 3; 0; 1; 2; 3] _ Hsetup Hentries
              (schedule_steps [3; 3; 3; 2; 2; 1; 1; 1; 0; 0; 0; 0] _) Hsettled)
    as (Hprinted & Hok & _).
  split; [exact Hsettled|]. split; [reflexivity|]. split; [exact Hprinted|].
  assert (ok (foldl (fun st i => advance i st)
                (create_tasks Demo.ctx_default
                   (JsObject.own (transform_commands Demo.raw_commands_default)))
                [3; 3; 3; 2; 2; 1; 1; 1; 0; 0; 0; 0]) = false) as Hdown
    by (vm_compute; reflexivity).
  split; [exact Hdown|].
  intros Hnone. rewrite (proj2 Hok Hnone) in Hdown. discriminate Hdown.
Defined.

(** The listing of the small installation. *)
Lemma runSimilar_listing_witness :
  runSimilar "type User type Person type Account" VUndefined VUndefined VUndefined
  = (concat (listing_of "type User type Person type Account" <$> Demo.similar_types)
       ++ [Render (Emit [])],
     inr tt).
Proof.
  refine (proj1 (runSimilar_listing "type User type Person type Account"
                   VUndefined VUndefined Demo.similar_types
                   eq_refl ltac:(discriminate)) _).
  intros Hin. apply list_elem_of_singleton in Hin. discriminate Hin.
Defined.

(** A validate command with [maxDepth] set. *)
Lemma task_ignores_other_fields_witness :
  ("maxDepth" ∉ fields_read) /\
  task Demo.ctx_default "docs"
    (<[ "maxDepth" := VNum 3%N ]> {[ "command" := VStr "validate" ]})
  = task Demo.ctx_default "docs" {[ "command" := VStr "validate" ]}.
Proof.
  assert ("maxDepth" ∉ fields_read) as Hk.
  { apply (bool_decide_unpack _). vm_compute. exact I. }
  split; [exact Hk|].
  exact (task_ignores_other_fields Demo.ctx_default "docs"
           {[ "command" := VStr "validate" ]} "maxDepth" (VNum 3%N) Hk).
Defined.

(** A coverage command of the [api] project that names documents of its
    own. *)
Lemma context_documents_win_witness :
  ctx_documents Demo.ctx_api = Some Demo.documents /\
  task Demo.ctx_api "cov"
    (<[ "documents" := VStr "other/*.graphql" ]> {[ "command" := VStr "coverage" ]})
  = task Demo.ctx_api "cov" {[ "command" := VStr "coverage" ]}.
Proof.
  split; [reflexivity|].
  exact (context_documents_win Demo.ctx_api "cov" {[ "command" := VStr "coverage" ]}
           Demo.documents (VStr "other/*.graphql") eq_refl).
Defined.

(** A diff against a schema file that does not exist. *)
Lemma diff_load_failure_is_local_witness :
  task Demo.ctx_default "diff"
    (<[ "command" := VStr "diff" ]> {[ "schema" := VStr "gone.graphql" ]})
  = ([Effect (Render (banner "diff")); SetOkFalse;
      Effect (Render (Error (RStr "Unable to find any GraphQL type definitions")))],
     inr tt).
Proof.
  assert (isDiffCommand
            (<[ "command" := VStr "diff" ]> {[ "schema" := VStr "gone.graphql" ]})
          = true) as Hdiff by (vm_compute; reflexivity).
  assert (loadSchema (ctx_project Demo.ctx_default)
            (field (<[ "command" := VStr "diff" ]> {[ "schema" := VStr "gone.graphql" ]})
               "schema")
          = inl (JsError "Unable to find any GraphQL type definitions")) as Hload
    by (vm_compute; reflexivity).
  exact (diff_load_failure_is_local Demo.ctx_default "diff" _ _ Hdiff Hload).
Defined.


Lemma normalization_idempotent_witness :
  exists normal,
    entries (transform_commands Demo.raw_commands_default) = inr normal /\
    transform_commands normal = transform_commands Demo.raw_commands_default.
Proof.
  apply (normalization_idempotent Demo.raw_commands_default eq_refl).
  apply (bool_decide_unpack _). vm_compute. exact I.
Defined.

Lemma transformMap_best_first_witness :
  exists results,
    transformMap Demo.similar_types = inr results /\
    JsObject.keys (JsObject.own results) = ["User"] /\
    JsObject.obj_read "User" results
    = Some [{| typename := "Person"; record_rating := 1%N |};
            {| typename := "Account"; record_rating := 0%N |}].
Proof.
  assert ("hasOwnProperty" ∉ JsObject.keys Demo.similar_types) as Hplain.
  { intros Hin. apply list_elem_of_singleton in Hin. discriminate Hin. }
  destruct (transformMap_best_first Demo.similar_types "User" _
              eq_refl (list_elem_of_here _ _)) as [_ Hresults].
  destruct (Hresults Hplain) as (results & Htransform & Hkeys & Hget).
  exists results. split; [exact Htransform|]. split; [exact Hkeys|exact Hget].
Defined.

(** A validate command whose documents cannot be loaded. *)
Lemma validate_task_writes_nothing_witness :
  writes_of (task Demo.ctx_default "docs"
               (<[ "command" := VStr "validate" ]> {[ "documents" := VNum 1%N ]})).1 = [].
Proof.
  assert (isValidateCommand
            (<[ "command" := VStr "validate" ]> {[ "documents" := VNum 1%N ]})
          = true) as Hvalidate by (vm_compute; reflexivity).
  exact (validate_task_writes_nothing Demo.ctx_default "docs" _ Hvalidate).
Defined.

(** A similar command that writes its results. *)
Lemma similar_task_writes_witness :
  writes_of (task Demo.ctx_default "similar"
               (<[ "command" := VStr "similar" ]> {[ "write" := VStr "similar.json" ]})).1
  = file_writes
      (runSimilar "type User type Person type Account" VUndefined VUndefined
         (VStr "similar.json")).1 /\
  length (writes_of (task Demo.ctx_default "similar"
                       (<[ "command" := VStr "similar" ]>
                          {[ "write" := VStr "similar.json" ]})).1) <= 1.
Proof.
  assert (isSimilarCommand
            (<[ "command" := VStr "similar" ]> {[ "write" := VStr "similar.json" ]})
          = true) as Hsimilar by (vm_compute; reflexivity).
  exact (similar_task_writes Demo.ctx_default "similar" _ Hsimilar).
Defined.

(** With the naturals for numbers, a rating of 1 lights every bullet. *)
Lemma printScale_is_a_bar_witness :
  exists lit,
    lit <= 5 /\
    printScale 1%N = join "" (replicate lit "*" ++ replicate (5 - lit) "*").
Proof.
  apply (@printScale_is_a_bar Demo.numbers Demo.terminal 1%N).
  intros p a b Hab Hb. cbn in *.
  apply N.leb_le. apply N.leb_le in Hb. lia.
Defined.

(** The default project declares no documents. *)
Lemma declared_documents_reach_tasks_witness :
  setup Demo.options_default = inr Demo.ctx_default /\
  ctx_documents Demo.ctx_default = None /\
  missing_documents Demo.ctx_default {[ "command" := VStr "validate" ]} = true.
Proof.
  assert (setup Demo.options_default = inr Demo.ctx_default) as Hsetup by reflexivity.
  destruct (declared_documents_reach_tasks Demo.options_default Demo.ctx_default Hsetup)
    as [_ Hnone].
  destruct (Hnone eq_refl) as [Hctx Hmissing].
  split; [exact Hsetup|]. split; [exact Hctx|].
  rewrite Hmissing. vm_compute. reflexivity.
Defined.
End DemoRuns.

Section DemoBare.
#[local] Existing Instance Demo.numbers.
#[local] Existing Instance Demo.runtime.
#[local] Existing Instance Demo.graphql.
#[local] Existing Instance Demo.terminal.
#[local] Existing Instance Demo.validate_lib.
#[local] Existing Instance Demo.similar_lib.
#[local] Existing Instance Demo.pipeline_lib_bare.

(** A config file without the [inspector] block. *)
Lemma run_without_extension_witness :
  run Demo.options_default [0; 1]
  = {| printed := [];
       reported :=
         [Error (RStr "You GraphQL Config has no 'inspector' extension: /cwd/.graphqlrc.yml");
          Emit [nl]];
       written := [];
       exit_code := Some 1%N |}.
Proof.
  exact (run_without_extension Demo.options_default [0; 1] Demo.config_bare
           Demo.project_bare eq_refl eq_refl eq_refl).
Defined.

End DemoBare.

Section DemoApi.
#[local] Existing Instance Demo.numbers.
#[local] Existing Instance Demo.runtime.
#[local] Existing Instance Demo.graphql.
#[local] Existing Instance Demo.terminal.
#[local] Existing Instance Demo.validate_lib.
#[local] Existing Instance Demo.similar_lib.
#[local] Existing Instance Demo.pipeline_lib_api.

(** The [api] project: one similar command that writes [similar.json]. *)
Lemma run_writes_each_file_once_witness :
  setup Demo.options_default = inr Demo.ctx_api /\
  exists text,
    written (run Demo.options_default [0; 0; 0]) ≡ₚ [("/cwd/similar.json", text)].
Proof.
  assert (setup Demo.options_default
          = inr Demo.ctx_api) as Hsetup by reflexivity.
  split; [exact Hsetup|].
  pose proof (run_writes_each_file_once Demo.options_default Demo.ctx_api [0; 0; 0]
                Hsetup) as Hwritten.
  eexists. etrans; [exact Hwritten|]. vm_compute. reflexivity.
Defined.

(** The file the [api] project writes. *)
Example run_api_written :
  fst <$> written (run Demo.options_default [0; 0; 0])
  = ["/cwd/similar.json"].
Proof. vm_compute. reflexivity. Qed.

End DemoApi.

Section DemoProto.
#[local] Existing Instance Demo.numbers.
#[local] Existing Instance Demo.runtime.
#[local] Existing Instance Demo.graphql.
#[local] Existing Instance Demo.terminal.
#[local] Existing Instance Demo.validate_lib.
#[local] Existing Instance Demo.similar_lib.
#[local] Existing Instance Demo.pipeline_lib_proto.

Lemma setup_proto : setup Demo.options_default = inr Demo.ctx_proto.
Proof. reflexivity. Qed.

Lemma entries_proto :
  entries (Config.commands (inspector (transformProject (ctx_project Demo.ctx_proto))))
  = inr [("docs",
          <[ "command" := VStr "validate" ]> {[ "documents" := VStr "docs/*.graphql" ]});
         ("command", ∅);
         ("rules", ∅)].
Proof. evaluate. Qed.

(** C3, at an input where the code departs from it. The [inspector] block
    of the config file has two entries, labelled [__proto__] and [docs].
    The assignment [commands[name] = config] makes the body of the first
    the prototype of the normalized collection, which is left with one
    entry. The loop of [run] then visits three keys: [docs], and the two
    fields of that body, which the collection inherits. Three buffered
    renderers are created and three buffers are flushed, whatever the
    schedule: one for the second entry, none for the first, and two for no
    entry at all. *)
Theorem proto_label_adds_buffers :
  JsObject.keys Demo.raw_commands_proto = ["__proto__"; "docs"] /\
  JsObject.js_ordered (JsObject.keys Demo.raw_commands_proto) = true /\
  setup Demo.options_default = inr Demo.ctx_proto /\
  JsObject.keys
    (JsObject.own (Config.commands (inspector (transformProject Demo.project_proto))))
  = ["docs"] /\
  (exists commands,
     entries (Config.commands (inspector (transformProject Demo.project_proto)))
     = inr commands /\
     JsObject.keys commands = ["docs"; "command"; "rules"] /\
     length (renderers (create_tasks Demo.ctx_proto commands)) = 3) /\
  forall schedule : list nat,
    length (printed (run Demo.options_default schedule)) = 3.
Proof.
  split; [reflexivity|]. split; [reflexivity|]. split; [exact setup_proto|].
  split; [reflexivity|]. split.
  - eexists. split; [exact entries_proto|]. split; reflexivity.
  - intros schedule.
    destruct (run_after_setup Demo.options_default Demo.ctx_proto _ schedule
                setup_proto entries_proto) as [-> _].
    reflexivity.
Qed.

(** C6, at the same input. The body under the label [__proto__] has the
    kind [lint], none of the four. Normalization does not pass the entry
    through: its body becomes the prototype of the collection, and the
    collection has no entry of that label. No task is dispatched for it
    and no buffer names the kind [lint]; what [run] dispatches instead is
    a task for each field of the body, [command] and [rules], and each
    fails with [Command undefined not supported]. *)
Theorem proto_label_is_not_dispatched :
  (("__proto__", <[ "command" := VStr "lint" ]> {[ "rules" := VStr "strict" ]})
     ∈ Demo.raw_commands_proto) /\
  isCommandName "lint" = false /\
  ("__proto__"
     ∉ JsObject.keys
         (JsObject.own
            (Config.commands (inspector (transformProject Demo.project_proto))))) /\
  JsObject.proto (Config.commands (inspector (transformProject Demo.project_proto)))
  = Some (<[ "command" := VStr "lint" ]> {[ "rules" := VStr "strict" ]}) /\
  forall schedule : list nat,
    printed (run Demo.options_default schedule)
    = [[banner "docs"; Success ["All documents are valid"]];
       [banner "command"; Error (RStr "Command undefined not supported")];
       [banner "rules"; Error (RStr "Command undefined not supported")]]
    /\ exit_code (run Demo.options_default schedule) = Some 1%N.
Proof.
  split; [apply list_elem_of_here|]. split; [reflexivity|]. split.
  { apply (bool_decide_unpack _). vm_compute. exact I. }
  split; [evaluate|].
  intros schedule.
  destruct (run_after_setup Demo.options_default Demo.ctx_proto _ schedule
              setup_proto entries_proto) as (-> & _ & -> & _).
  split; evaluate.
Qed.
End DemoProto.

Section DemoCli.
#[local] Existing Instance Demo.numbers.
#[local] Existing Instance Demo.runtime.
#[local] Existing Instance Demo.graphql.
#[local] Existing Instance Demo.terminal.
#[local] Existing Instance Demo.validate_lib.
#[local] Existing Instance Demo.similar_lib.
#[local] Existing Instance Demo.load_lib.

(** [validate] on the command line: a documents glob with one invalid
    document, one with valid documents only, and a schema that is not
    there. *)
Example validate_invalid_documents :
  Cli.validate "docs/*.graphql" "schema.graphql" VUndefined
    Demo.validate_options_none
  = {| Cli.shown :=
         [Render (Emit [nl +:+ "Detected 1 invalid document:" +:+ nl]);
          Render (Emit ["Cannot query field missing"]);
          Render (Error (RStr "Some documents are invalid"))];
       Cli.status := Some 1%N |}.
Proof. vm_compute. reflexivity. Qed.

Example validate_valid_documents :
  Cli.validate "ok/*.graphql" "schema.graphql" VUndefined
    Demo.validate_options_none
  = {| Cli.shown := [Render (Success ["All documents are valid"])];
       Cli.status := None |}.
Proof. vm_compute. reflexivity. Qed.

Example similar_refused_write :
  Cli.similar "schema.graphql" VUndefined VUndefined VUndefined
    (VStr "similar.yaml")
  = {| Cli.shown :=
         concat (listing_of "type User type Person type Account" <$> Demo.similar_types)
           ++ [Render (Error (RStr "Extension yaml is not supported"))];
       Cli.status := Some 1%N |}.
Proof. vm_compute. reflexivity. Qed.
(** [similar] on the command line, for a type name the schema does not
    have, and for a path whose directory is missing. *)
Example similar_unknown_type :
  Cli.similar "schema.graphql" (VStr "Nope") VUndefined VUndefined VUndefined
  = {| Cli.shown := [Render (Error (RStr "Type 'Nope' doesn't exist"))];
       Cli.status := Some 1%N |}.
Proof. vm_compute. reflexivity. Qed.

Example similar_unwritable_path :
  Cli.similar "schema.graphql" VUndefined VUndefined VUndefined
    (VStr "/missing/similar.json")
  = {| Cli.shown :=
         concat (listing_of "type User type Person type Account" <$> Demo.similar_types)
           ++ [Render (Error (RStr "ENOENT: no such file or directory, open '/missing/similar.json'"))];
       Cli.status := Some 1%N |}.
Proof. vm_compute. reflexivity. Qed.
End DemoCli.
